(** * Lora ultra-speed verification pipeline: a shallow embedding

    The development embeds the adaptive multi-tier fact-checking pipeline
    of [backend/services/ultraSpeed.js] together with the parts of
    [truthfulnessSpectrum.js], [semanticCache.js] and [inputCompressor.js]
    it calls, and proves properties of the escalation gate, the consensus
    scorer, the result merger, the two-tier cache and the input filters.

    Modelling conventions.
    - A JavaScript number is an IEEE-754 binary64 value: Rocq's primitive
      [float], with the operators of [PrimFloat].  [null] and [undefined]
      fields are [option].
    - A JavaScript string is a [string] whose characters are read as the
      code units U+0000..U+00FF; code points above U+00FF (emoji and the
      like) do not occur in a modelled text, and a pattern item naming one
      never matches.
    - Regular expressions are syntax trees run by a backtracking matcher
      with ECMAScript's ordered alternation, greedy quantifiers, capture
      groups, back-references, [\b] and the [i] flag.
    - Asynchronous calls are sequentialised in the order in which the
      source starts them; the external collaborators (verifiers, embedding
      provider, source search, clock, digest) are the fields of a record
      of oracles, and the module-level cache maps are an explicit state.
    - Latency measurements and logging have no model. *)

From Stdlib Require Import ZArith List Bool String Ascii Lia.
From Stdlib Require Import Floats Uint63.
Import ListNotations.

Set Warnings "-inexact-float,-abstract-large-number".
Set Implicit Arguments.

(* ===================================================================== *)
(** * JavaScript numbers *)
(* ===================================================================== *)

Module JsNum.

Local Open Scope float_scope.

(** [ToBoolean] on a number: false for [+0], [-0] and [NaN]. *)
Definition truthy (x : float) : bool :=
  negb (x =? 0) && negb (is_nan x).

(** [x || 0] where [x] is a number or [null]. *)
Definition or_zero (x : option float) : float :=
  match x with
  | Some v => if truthy v then v else 0
  | None => 0
  end.

Definition is_neg_zero (x : float) : bool :=
  match classify x with
  | NZero => true
  | _ => false
  end.

(** The number of an integer small enough to be exact (|z| < 2^53). *)
Definition of_Z (z : Z) : float :=
  match z with
  | Z0 => 0
  | Zpos _ => of_uint63 (Uint63.of_Z z)
  | Zneg _ => - of_uint63 (Uint63.of_Z (Z.opp z))
  end.

Definition of_nat (n : nat) : float := of_Z (Z.of_nat n).

(** [Math.round]: the integer closest to [x], ties towards +infinity;
    [NaN], the infinities and the zeros are returned as they are, and a
    negative [x >= -0.5] gives [-0]. *)
Definition Math_round (x : float) : float :=
  match Prim2SF x with
  | S754_finite s m e =>
      if (0 <=? e)%Z then x
      else
        let k := Z.opp e in
        let twice := if s then Z.opp (2 * Zpos m) else (2 * Zpos m)%Z in
        let n := Z.shiftr (twice + Z.shiftl 1 k) (k + 1) in
        if (n =? 0)%Z then (if s then -0 else 0) else of_Z n
  | _ => x
  end.

(** [Math.min(a, b)] and [Math.max(a, b)]: [NaN] is contagious and
    [-0] is smaller than [+0]. *)
Definition min2 (a b : float) : float :=
  if is_nan a || is_nan b then nan
  else if a <? b then a
  else if b <? a then b
  else if is_neg_zero a then a else b.

Definition max2 (a b : float) : float :=
  if is_nan a || is_nan b then nan
  else if a <? b then b
  else if b <? a then a
  else if is_neg_zero a then b else a.

(** The variadic forms: [Math.min()] is [+Infinity], [Math.max()] is
    [-Infinity]. *)
Definition Math_min (xs : list float) : float := fold_left min2 xs infinity.
Definition Math_max (xs : list float) : float := fold_left max2 xs neg_infinity.

(** [Math.abs]. *)
Definition Math_abs (x : float) : float := abs x.

(** [a >= b] and [a > b] as JavaScript writes them. *)
Definition geb (a b : float) : bool := b <=? a.
Definition gtb (a b : float) : bool := b <? a.

End JsNum.

(* ===================================================================== *)
(** * JavaScript strings *)
(* ===================================================================== *)

Module JsStr.

Local Open Scope string_scope.
Local Open Scope N_scope.

Definition code (c : ascii) : N := N_of_ascii c.

Definition in_range (lo hi : N) (c : ascii) : bool :=
  (lo <=? code c) && (code c <=? hi).

(** White space and line terminators below U+0100: the characters that
    [String.prototype.trim] strips and that [\s] matches. *)
Definition is_space (c : ascii) : bool :=
  in_range 9 13 c || (code c =? 32) || (code c =? 160).

(** [\w]. *)
Definition is_word (c : ascii) : bool :=
  in_range 97 122 c || in_range 65 90 c || in_range 48 57 c || (code c =? 95).

(** Line terminators, which [.] refuses. *)
Definition is_line_terminator (c : ascii) : bool :=
  (code c =? 10) || (code c =? 13).

(** Upper-case letters below U+0100: A-Z, and U+00C0..U+00DE except the
    multiplication sign U+00D7. *)
Definition is_upper (c : ascii) : bool :=
  in_range 65 90 c || (in_range 192 222 c && negb (code c =? 215)).

(** Lower-case letters whose upper case is again below U+0100: a-z, and
    U+00E0..U+00FE except the division sign U+00F7. *)
Definition is_lower (c : ascii) : bool :=
  in_range 97 122 c || (in_range 224 254 c && negb (code c =? 247)).

Definition lower_char (c : ascii) : ascii :=
  if is_upper c then ascii_of_N (code c + 32) else c.

(** The [Canonicalize] operation of a case-insensitive pattern. *)
Definition canon (c : ascii) : ascii :=
  if is_lower c then ascii_of_N (code c - 32) else c.

Fixpoint toLowerCase (s : string) : string :=
  match s with
  | EmptyString => EmptyString
  | String c r => String (lower_char c) (toLowerCase r)
  end.

Fixpoint trimStart (s : string) : string :=
  match s with
  | EmptyString => EmptyString
  | String c r => if is_space c then trimStart r else s
  end.

Fixpoint trimEnd (s : string) : string :=
  match s with
  | EmptyString => EmptyString
  | String c r =>
      match trimEnd r with
      | EmptyString => if is_space c then EmptyString else String c EmptyString
      | r' => String c r'
      end
  end.

Definition trim (s : string) : string := trimEnd (trimStart s).

(** [s.includes(sub)]. *)
Fixpoint includes (s sub : string) : bool :=
  String.prefix sub s ||
  match s with
  | EmptyString => false
  | String _ r => includes r sub
  end.

(** [s.substring(0, n)]. *)
Definition substring0 (n : nat) (s : string) : string := String.substring 0 n s.

(** A string is falsy exactly when it is empty. *)
Definition truthy (s : string) : bool :=
  match s with
  | EmptyString => false
  | _ => true
  end.

End JsStr.

(* ===================================================================== *)
(** * Regular expressions *)
(* ===================================================================== *)

Module JsRegex.

Import JsStr.
Local Open Scope string_scope.

(** An item of a character class.  Items are stated over code points, so
    that a class naming characters above U+00FF is written as the source
    has it; such an item matches no modelled character. *)
Inductive citem : Type :=
| CChar (cp : N)
| CRange (lo hi : N)
| CWord                       (* \w *)
| CSpace.                     (* \s *)

Inductive re : Type :=
| Eps
| Lit (c : ascii)
| Any                          (* . *)
| Class (negated : bool) (items : list citem)
| Bol                          (* ^ *)
| Eol                          (* $ *)
| WordB                        (* \b *)
| Cat (r1 r2 : re)
| Alt (r1 r2 : re)
| Star (r : re)
| Group (n : nat) (r : re)     (* the n-th capturing group *)
| Backref (n : nat).           (* \n *)

(** A class item for one character below U+0100. *)
Definition Ch (c : ascii) : citem := CChar (code c).

Definition Plus (r : re) : re := Cat r (Star r).
Definition Opt (r : re) : re := Alt r Eps.

(** A literal run of characters. *)
Fixpoint Str (s : string) : re :=
  match s with
  | EmptyString => Eps
  | String c EmptyString => Lit c
  | String c r => Cat (Lit c) (Str r)
  end.

(** [r1|r2|...|rn]. *)
Fixpoint Alts (rs : list re) : re :=
  match rs with
  | [] => Eps
  | [r] => r
  | r :: rs' => Alt r (Alts rs')
  end.

(** [(s1|s2|...)] over literal alternatives. *)
Definition Words (ws : list string) : re := Alts (map Str ws).

Fixpoint Cats (rs : list re) : re :=
  match rs with
  | [] => Eps
  | [r] => r
  | r :: rs' => Cat r (Cats rs')
  end.

(** The matcher's position: the character just before it (if any), the
    input still ahead, and the captures made so far. *)
Record mstate : Type := MState {
  prev : option ascii;
  rest : string;
  caps : list (nat * string)
}.

Definition char_eq (ic : bool) (a b : ascii) : bool :=
  if ic then Ascii.eqb (canon a) (canon b) else Ascii.eqb a b.

Definition item_match (ic : bool) (c : ascii) (it : citem) : bool :=
  match it with
  | CChar cp =>
      N.eqb cp (code c) || (ic && N.eqb cp (code (canon c)))
      || (ic && N.eqb cp (code (lower_char c)))
  | CRange lo hi =>
      in_range lo hi c
      || (ic && (in_range lo hi (canon c) || in_range lo hi (lower_char c)))
  | CWord => is_word c
  | CSpace => is_space c
  end.

Definition class_match (ic negated : bool) (items : list citem) (c : ascii) : bool :=
  xorb negated (existsb (item_match ic c) items).

Definition at_word_boundary (s : mstate) : bool :=
  let before := match prev s with Some c => is_word c | None => false end in
  let after := match rest s with String c _ => is_word c | EmptyString => false end in
  xorb before after.

Fixpoint lookup_cap (n : nat) (cs : list (nat * string)) : string :=
  match cs with
  | [] => EmptyString
  | (k, v) :: cs' => if Nat.eqb k n then v else lookup_cap n cs'
  end.

(** Consume [w] from the input, comparing character by character. *)
Fixpoint eat (ic : bool) (w : string) (s : mstate) : option mstate :=
  match w with
  | EmptyString => Some s
  | String c w' =>
      match rest s with
      | String d r' =>
          if char_eq ic c d
          then eat ic w' (MState (Some d) r' (caps s))
          else None
      | EmptyString => None
      end
  end.

(** The text between two positions of one match. *)
Definition consumed (from to : mstate) : string :=
  String.substring 0 (String.length (rest from) - String.length (rest to)) (rest from).

(** The iterations of a star whose body is matched by [step]: an
    iteration that consumes nothing is refused, as ECMAScript does, so
    [fuel] taken as the length of the input ahead is never exhausted. *)
Fixpoint star_loop (step : mstate -> (mstate -> option mstate) -> option mstate)
         (k : mstate -> option mstate) (fuel : nat) (s0 : mstate) {struct fuel}
  : option mstate :=
  match fuel with
  | O => k s0
  | S fuel' =>
      match step s0
                 (fun s1 =>
                    if Nat.ltb (String.length (rest s1)) (String.length (rest s0))
                    then star_loop step k fuel' s1 else None) with
      | Some x => Some x
      | None => k s0
      end
  end.

(** The backtracking matcher, in continuation-passing style: [k] is what
    remains to be matched after [r]; [None] makes the caller try its
    next choice. *)
Fixpoint run (ic : bool) (r : re) (s : mstate)
         (k : mstate -> option mstate) {struct r} : option mstate :=
  match r with
  | Eps => k s
  | Lit c =>
      match rest s with
      | String d r' =>
          if char_eq ic c d then k (MState (Some d) r' (caps s)) else None
      | EmptyString => None
      end
  | Any =>
      match rest s with
      | String d r' =>
          if is_line_terminator d then None else k (MState (Some d) r' (caps s))
      | EmptyString => None
      end
  | Class negated items =>
      match rest s with
      | String d r' =>
          if class_match ic negated items d
          then k (MState (Some d) r' (caps s)) else None
      | EmptyString => None
      end
  | Bol => match prev s with None => k s | Some _ => None end
  | Eol => match rest s with EmptyString => k s | String _ _ => None end
  | WordB => if at_word_boundary s then k s else None
  | Cat r1 r2 => run ic r1 s (fun s1 => run ic r2 s1 k)
  | Alt r1 r2 =>
      match run ic r1 s k with
      | Some x => Some x
      | None => run ic r2 s k
      end
  | Star r1 => star_loop (run ic r1) k (String.length (rest s)) s
  | Group n r1 =>
      run ic r1 s
          (fun s1 => k (MState (prev s1) (rest s1) ((n, consumed s s1) :: caps s1)))
  | Backref n => match eat ic (lookup_cap n (caps s)) s with
                 | Some s1 => k s1
                 | None => None
                 end
  end.

(** One attempt at one position. *)
Definition exec_at (ic : bool) (r : re) (before : option ascii) (input : string)
  : option mstate :=
  run ic r (MState before input []) (fun s => Some s).

(** [pattern.test(s)]: is there a match starting anywhere in [s]? *)
Fixpoint test_from (ic : bool) (r : re) (before : option ascii) (input : string) : bool :=
  match exec_at ic r before input with
  | Some _ => true
  | None =>
      match input with
      | EmptyString => false
      | String c input' => test_from ic r (Some c) input'
      end
  end.

Definition test (ic : bool) (r : re) (s : string) : bool := test_from ic r None s.

(** A replacement template: text and [$n] references. *)
Inductive ritem : Type :=
| RText (s : string)
| RGroup (n : nat).

Fixpoint expand (tpl : list ritem) (cs : list (nat * string)) : string :=
  match tpl with
  | [] => EmptyString
  | RText t :: tpl' => t ++ expand tpl' cs
  | RGroup n :: tpl' => lookup_cap n cs ++ expand tpl' cs
  end.

(** [s.replace(/r/g, tpl)]: matches are found left to right, each search
    resuming where the previous match ended (one character further after
    an empty match). *)
Fixpoint replace_loop (ic : bool) (r : re) (tpl : list ritem) (fuel : nat)
         (before : option ascii) (input : string) : string :=
  match fuel with
  | O => input
  | S fuel' =>
      match exec_at ic r before input with
      | Some s1 =>
          if Nat.ltb (String.length (rest s1)) (String.length input)
          then expand tpl (caps s1)
               ++ replace_loop ic r tpl fuel' (prev s1) (rest s1)
          else
            match input with
            | EmptyString => expand tpl (caps s1)
            | String c input' =>
                expand tpl (caps s1)
                ++ String c (replace_loop ic r tpl fuel' (Some c) input')
            end
      | None =>
          match input with
          | EmptyString => EmptyString
          | String c input' => String c (replace_loop ic r tpl fuel' (Some c) input')
          end
      end
  end.

Definition replace_all (ic : bool) (r : re) (tpl : list ritem) (s : string) : string :=
  replace_loop ic r tpl (S (String.length s)) None s.

End JsRegex.

(* ===================================================================== *)
(** * Shared data model *)
(* ===================================================================== *)

(** What a verifier resolves to: the parsed JSON answer.  A field the
    answer does not carry is [None]. *)
Record ModelResult : Type := mkModelResult {
  mr_verdict : option string;
  mr_confidence : option float
}.

(** The object [runWithTimeout] returns for one verifier call. *)
Record Response : Type := mkResponse {
  success : bool;
  model : string;
  verdict : option string;
  confidence : option float;
  reasoning : option string;
  timedOut : bool;
  error : option string
}.

(** One line of the per-model score breakdown. *)
Record Breakdown : Type := mkBreakdown {
  b_model : string;
  b_verdict : option string;
  b_confidence : float;
  baseScore : float;
  weightedScore : float
}.

(* ===================================================================== *)
(** * truthfulnessSpectrum.js *)
(* ===================================================================== *)

Module TruthfulnessSpectrum.

Import JsStr JsRegex.
Local Open Scope string_scope.

(** A regular-expression literal: its [i] flag and its body.  Capturing
    parentheses that nothing refers to are written as plain grouping. *)
Record pattern : Type := Pattern { ignoreCase : bool; body : re }.

Definition pattern_test (p : pattern) (s : string) : bool :=
  test (ignoreCase p) (body p) s.

Definition feelings : list string :=
  ["happy"; "sad"; "angry"; "excited"; "nervous"; "anxious"; "scared";
   "worried"; "tired"; "exhausted"; "confused"; "frustrated"; "grateful";
   "thankful"; "blessed"; "lucky"].

Definition anecdotalPatterns : list pattern :=
  [ Pattern true (Cats [Bol; Str "my ";
      Words ["girlfriend"; "boyfriend"; "wife"; "husband"; "partner"; "friend";
             "mom"; "dad"; "mother"; "father"; "sister"; "brother"; "family";
             "dog"; "cat"; "boss"; "coworker"]]);
    Pattern true (Cats [Str "my ";
      Words ["girlfriend"; "boyfriend"; "wife"; "husband"; "partner"; "mom"; "dad"];
      Lit " "; Star Any;
      Words ["bought"; "gave"; "told"; "asked"; "showed"; "sent"; "made"]]);
    Pattern true (Cats [Bol; Words ["i"; "we"]; Lit " ";
      Words ["just"; "recently"; "finally"; "actually"]]);
    Pattern true (Cats [Bol; Str "today "; Words ["i"; "we"; "my"]]);
    Pattern true (Cats [Bol; Str "today i"]);
    Pattern true (Cats [Bol; Str "yesterday "; Words ["i"; "we"; "my"]]);
    Pattern true (Cats [Bol; Str "last "; Words ["night"; "week"; "month"; "year"];
      Lit " "; Words ["i"; "we"; "my"]]);
    Pattern true (Cats [Bol; Words ["i"; "we"]; Lit " ";
      Words ["went"; "saw"; "met"; "had"; "got"; "made"; "did"; "tried"; "bought";
             "found"; "learned"; "discovered"]]);
    Pattern true (Words ["told me"; "asked me"; "gave me"; "bought me";
                         "showed me"; "sent me"]);
    Pattern true (Cats [Bol; Str "so basically"]);
    Pattern true (Cats [Bol; Str "you know what"]);
    Pattern true (Cats [Bol; Str "guess what"]);
    Pattern true (Cats [Bol; Str "i went to"]);
    Pattern true (Cats [Bol; Str "i saw"]) ].

Definition emotionalPatterns : list pattern :=
  [ Pattern true (Cats [Bol; Str "i'm "; Opt (Words ["so "; "really "; "very "]);
                        Words feelings]);
    Pattern true (Cats [Bol; Str "i am "; Opt (Words ["so "; "really "; "very "]);
                        Words feelings]);
    Pattern true (Cats [Bol; Str "i feel"]);
    Pattern true (Cats [Bol; Str "i felt"]);
    Pattern true (Cats [Lit "i"; Words ["'m"; " am"]; Str " feeling"]);
    Pattern true (Words ["made my day"; "broke my heart"; "can't believe";
                         "i love this"; "i hate this"; "i miss"; "i wish"]);
    Pattern true (Str "this made my day");
    Pattern true (Cats [Str "feeling ";
      Words ["good"; "bad"; "great"; "terrible"; "amazing"; "awful"; "sad"; "happy"]]);
    Pattern true (Cats [Bol;
      Words ["omg"; "oh my god"; "wtf"; "lol"; "lmao"; "haha"; "bruh"; "bro"; "dude"]]);
    Pattern true (Cats [Bol; Str "lol"]);
    Pattern true (Cats [Bol; Str "haha"]);
    Pattern true (Cats [Str "i can"; Opt (Lit "'"); Str "t believe"]) ].

(** The second pattern's class lists the characters the source file
    holds between its brackets (U+00F0, U+0178, U+02DC, U+201A, U+00A4,
    U+00A3, U+2019, U+20AC, U+00AD) and [\s]; the third has the [u]
    flag and a range of astral code points. *)
Definition nonClaimPatterns : list pattern :=
  [ Pattern true (Cats [Bol; Plus (Words ["lol"; "lmao"; "haha"; "hehe"]); Eol]);
    Pattern false (Cats [Bol;
      Plus (Class false
              [CChar 240; CChar 376; CChar 732; CChar 8218; CChar 240; CChar 376;
               CChar 164; CChar 163; CChar 240; CChar 376; CChar 8217; CChar 8364;
               CChar 240; CChar 376; CChar 732; CChar 173; CSpace]);
      Eol]);
    Pattern false (Cats [Bol; Star (Class false [CRange 127744 129535; CSpace]); Eol]);
    Pattern false (Cats [Bol; Star (Class true [CWord]); Eol]);
    Pattern true (Cats [Bol; Words ["hi"; "hey"; "hello"; "sup"; "yo"; "what's up"]]);
    Pattern true (Cats [Bol; Words ["thanks"; "thank you"; "thx"; "ty"]]);
    Pattern true (Cats [Bol;
      Words ["ok"; "okay"; "k"; "sure"; "yeah"; "yep"; "nope"; "nah"]; Eol]);
    Pattern true (Cats [Bol; Words ["good morning"; "good night"; "gn"; "gm"]]) ].

Definition opinionPatterns : list pattern :=
  [ Pattern true (Cats [Bol; Str "i think"]);
    Pattern true (Cats [Bol; Str "i believe"]);
    Pattern true (Cats [Bol; Str "in my opinion"]);
    Pattern true (Cats [Bol; Str "imo"]);
    Pattern true (Cats [Bol; Str "personally"]);
    Pattern true (Cats [Bol; Str "i prefer"]);
    Pattern true (Alts [Cat Bol (Str "i like"); Str "i love"; Str "i hate"]);
    Pattern true (Cats [Str "is "; Opt (Str "the ");
                        Words ["best"; "worst"; "overrated"; "underrated"]]);
    Pattern true (Cats [Bol;
      Words ["do you think"; "what do you think"; "thoughts?"]]) ].

Record PersonalCheck : Type := mkPersonalCheck {
  isPersonal : bool;
  reason : string;
  pc_confidence : float
}.

(** [for (const pattern of patterns) if (pattern.test(lower)) return ...] *)
Definition any_match (ps : list pattern) (s : string) : bool :=
  existsb (fun p => pattern_test p s) ps.

(** [detectPersonalStatement(text)] for a string argument. *)
Definition detectPersonalStatement (text : string) : PersonalCheck :=
  if negb (JsStr.truthy text) then
    mkPersonalCheck true "invalid input" 100
  else
    let lower := trim (toLowerCase text) in
    if Nat.eqb (String.length lower) 0 then
      mkPersonalCheck true "empty input" 100
    else if Nat.ltb (String.length lower) 10 then
      mkPersonalCheck true "too short to be a factual claim" 80
    else if any_match anecdotalPatterns lower then
      mkPersonalCheck true "anecdotal/personal story" 85
    else if any_match emotionalPatterns lower then
      mkPersonalCheck true "emotional expression" 80
    else if any_match nonClaimPatterns lower then
      mkPersonalCheck true "non-factual content" 90
    else if any_match opinionPatterns lower then
      mkPersonalCheck true "subjective opinion" 75
    else
      mkPersonalCheck false "appears to be a factual claim" 70.

(** ** Truthfulness spectrum *)

Local Open Scope float_scope.

(** The [VERDICT_SCORES] table. *)
Definition VERDICT_SCORES : list (string * float) :=
  [ ("true", 1.0); ("mostly_true", 0.8); ("partially_true", 0.5);
    ("mixed", 0.5); ("unverifiable", 0.35); ("mostly_false", 0.2);
    ("false", 0.0) ]%string.

Fixpoint own_property (k : string) (tbl : list (string * float)) : option float :=
  match tbl with
  | [] => None
  | (k', v) :: tbl' => if String.eqb k' k then Some v else own_property k tbl'
  end.

(** [normalizeVerdict(verdict)]. *)
Definition normalizeVerdict (verdict : option string) : float :=
  match verdict with
  | None => 0.35
  | Some v =>
      if negb (JsStr.truthy v) then 0.35
      else
        let normalized :=
          replace_all false (Class false [Ch "_"; Ch "-"]) [RText "_"]
                      (toLowerCase v) in
        match own_property normalized VERDICT_SCORES with
        | Some sc => sc
        | None =>
            if includes normalized "true" && negb (includes normalized "false") then
              if includes normalized "partial" || includes normalized "mixed" then 0.5
              else if includes normalized "mostly" then 0.8
              else 1.0
            else if includes normalized "false" then
              if includes normalized "mostly" then 0.2 else 0.0
            else 0.35
        end
  end.

Record Spectrum : Type := mkSpectrum {
  sp_score : option float;
  modelBreakdown : list Breakdown;
  consensus : string
}.

(** The accumulators of the scoring loop. *)
Record Acc : Type := mkAcc {
  totalWeight : float;
  weightedSum : float;
  breakdown_acc : list Breakdown
}.

(** One turn of [for (const response of modelResponses)]; a missing
    confidence defaults to 70. *)
Definition spectrum_step (a : Acc) (response : Response) : Acc :=
  let conf := match confidence response with Some c => c | None => 70 end in
  let base := normalizeVerdict (verdict response) in
  let weight := JsNum.Math_min [100; JsNum.Math_max [0; conf]] / 100 in
  let contribution := base * weight in
  mkAcc (totalWeight a + weight)
        (weightedSum a + contribution)
        (breakdown_acc a ++
           [mkBreakdown (model response) (verdict response) conf
                        (JsNum.Math_round (base * 100))
                        (JsNum.Math_round (contribution * 100))]).

Definition consensus_of (finalScore : option float) : string :=
  match finalScore with
  | None => "unknown"
  | Some sc =>
      if JsNum.geb sc 80 then "true"
      else if JsNum.geb sc 60 then "mostly_true"
      else if JsNum.geb sc 40 then "mixed"
      else if JsNum.geb sc 20 then "mostly_false"
      else "false"
  end%string.

(** [computeTruthfulnessSpectrum(modelResponses)]; the free-text
    explanation it also builds is left out. *)
Definition computeTruthfulnessSpectrum (modelResponses : list Response) : Spectrum :=
  match modelResponses with
  | [] => mkSpectrum None [] "unknown"
  | _ =>
      let a := fold_left spectrum_step modelResponses (mkAcc 0 0 []) in
      let finalScore :=
        if JsNum.gtb (totalWeight a) 0
        then Some (JsNum.Math_round ((weightedSum a / totalWeight a) * 100))
        else None in
      mkSpectrum finalScore (breakdown_acc a) (consensus_of finalScore)
  end.

(** [getSpectrumMessage(score, consensus)]. *)
Definition getSpectrumMessage (score : option float) (consensus : string) : string :=
  match score with
  | None => "couldn't really figure this one out tbh"
  | Some sc =>
      if JsNum.geb sc 85 then "yep this checks out, pretty confident it's true"
      else if JsNum.geb sc 70 then "looks legit for the most part"
      else if JsNum.geb sc 55 then "it's... kinda true? there's nuance here"
      else if JsNum.geb sc 40 then "getting mixed signals, hard to say either way"
      else if JsNum.geb sc 25 then "this is looking pretty sus ngl"
      else if JsNum.geb sc 10 then "yeah no this doesn't add up"
      else "definitely false, don't believe this one"
  end%string.

(** [getVerdictFromScore(score)]. *)
Definition getVerdictFromScore (score : option float) : string :=
  match score with
  | None => "UNKNOWN"
  | Some sc =>
      if JsNum.geb sc 70 then "TRUE"
      else if JsNum.geb sc 40 then "MIXED"
      else "FALSE"
  end%string.

End TruthfulnessSpectrum.

(* ===================================================================== *)
(** * inputCompressor.js *)
(* ===================================================================== *)

Module InputCompressor.

Import JsStr JsRegex.
Local Open Scope string_scope.

Definition space_run : re := Plus (Class false [CSpace]).

(** The emoji ranges of the first replacement (flag [u]). *)
Definition emoji : re :=
  Alts [ Class false [CRange 127744 129535];    (* 1F300-1F9FF *)
         Class false [CRange 9728 9983];        (* 2600-26FF *)
         Class false [CRange 9984 10175];       (* 2700-27BF *)
         Class false [CRange 128512 128591];    (* 1F600-1F64F *)
         Class false [CRange 128640 128767] ].  (* 1F680-1F6FF *)

Definition repeated_punctuation : re :=
  Cat (Group 1 (Class false [Ch "!"; Ch "?"; Ch "."])) (Plus (Backref 1)).

Definition filler : re :=
  Cats [ WordB;
         Group 1 (Words ["um"; "uh"; "like"; "basically"; "literally"; "actually";
                         "you know"; "i mean"]);
         WordB ].

Definition url : re :=
  Cats [ Str "http"; Opt (Lit "s"); Str "://"; Plus (Class true [CSpace]) ].

Definition repeated_word : re :=
  Cats [ WordB; Group 1 (Plus (Class false [CWord])); space_run; Backref 1; WordB ].

(** [quickClean(text)] for a string argument: the chain of [replace]
    calls in source order, then [trim]. *)
Definition quickClean (text : string) : string :=
  if negb (JsStr.truthy text) then ""
  else
    let t1 := replace_all false emoji [] text in
    let t2 := replace_all false space_run [RText " "] t1 in
    let t3 := replace_all false repeated_punctuation [RGroup 1] t2 in
    let t4 := replace_all true filler [] t3 in
    let t5 := replace_all false url [RText "[link]"] t4 in
    let t6 := replace_all true repeated_word [RGroup 1] t5 in
    let t7 := replace_all false space_run [RText " "] t6 in
    trim t7.

End InputCompressor.

(* ===================================================================== *)
(** * Results, the outside world and the process state *)
(* ===================================================================== *)

Inductive bucketName : Type := FAST | MID | FULL.

Definition bucketName_eqb (a b : bucketName) : bool :=
  match a, b with
  | FAST, FAST | MID, MID | FULL, FULL => true
  | _, _ => false
  end.

(** The result of [computeBucketScore]. *)
Module TierResult.
Record t : Type := Build {
  score : option float;
  confidence : float;
  agreement : bool;
  breakdown : list Breakdown
}.
End TierResult.

(** The result of [mergeResults]. *)
Module Merged.
Record t : Type := Build {
  score : option float;
  confidence : float;
  breakdown : list Breakdown;
  source : string
}.
End Merged.

Record Source : Type := mkSource { title : string; url : string; snippet : string }.

Record SourceResults : Type := mkSourceResults {
  sr_sources : option (list Source);
  sr_provider : option string
}.

Record UsedModels : Type := mkUsedModels {
  fast : list string;
  mid : list string;
  full : list string
}.

Record CompressionInfo : Type := mkCompressionInfo {
  ci_original : nat;
  ci_compressed : nat;
  ci_ratio : float;
  ci_method : string
}.

(** The [pipelineInfo] object: [{ skippedAll: true, reason }] on the
    personal path, [{ skippedMid, skippedFull, source, compression,
    cacheHit: false }] on a fresh check. *)
Inductive PipelineInfo : Type :=
| SkippedAll (reason : string)
| Ran (skippedMid skippedFull : bool) (source : string)
      (compression : option CompressionInfo).

(** The externally visible outcome of one request (the [latency] object
    is left out). *)
Module PipelineResult.
Record t : Type := Build {
  mode : string;
  claim : string;
  score : option float;
  confidence : option float;
  loraVerdict : option string;
  loraMessage : string;
  reason : option string;
  usedModels : UsedModels;
  spectrumBreakdown : list Breakdown;
  sources : list Source;
  sourceProvider : option string;
  pipelineInfo : PipelineInfo;
  fromCache : bool;
  cacheType : option string;
  cacheSimilarity : option float
}.
End PipelineResult.

(** The verifier functions the buckets refer to. *)
Inductive verifier : Type :=
| checkWithOpenAI
| checkWithAnthropic
| checkWithGoogle
| checkWithPerplexity.

(** How [Promise.race] between a verifier call and the tier's timer ends:
    the verifier resolves, the verifier rejects with an error of the given
    message, or the timer fires first. *)
Inductive settle : Type :=
| Returned (r : ModelResult)
| Threw (message : string)
| TimerFirst.

(** What [compressForInference] hands back. *)
Record Compression : Type := mkCompression {
  compressed : string;
  ratio : float;
  method : string
}.

(** The collaborators outside the pipeline.  [race fn text timeout name]
    is how the call labelled [name] ends; [Date_now n] is the n-th reading
    of the clock during the request, [embeddings_create n] the n-th
    request to the embedding provider ([None]: it failed or returned no
    vector).  [compressForInference] is the local compressor, whose output
    only becomes the text handed to the MID and FULL verifiers. *)
Record World : Type := mkWorld {
  sha256 : string -> string;
  Date_now : nat -> Z;
  openai_configured : bool;
  embeddings_create : nat -> string -> option (list float);
  race : verifier -> string -> Z -> string -> settle;
  quickSearchSources : string -> Z -> SourceResults;
  compressForInference : string -> Compression
}.

(** An insertion-ordered map with string keys, as JavaScript's [Map]. *)
Module JsMap.
Section WithValue.
Variable V : Type.

Definition t : Type := list (string * V).

Fixpoint get (k : string) (m : t) : option V :=
  match m with
  | [] => None
  | (k', v) :: m' => if String.eqb k' k then Some v else get k m'
  end.

Fixpoint has (k : string) (m : t) : bool :=
  match m with
  | [] => false
  | (k', _) :: m' => String.eqb k' k || has k m'
  end.

(** [set] keeps the position of a key already present. *)
Fixpoint set (k : string) (v : V) (m : t) : t :=
  match m with
  | [] => [(k, v)]
  | (k', v') :: m' =>
      if String.eqb k' k then (k', v) :: m' else (k', v') :: set k v m'
  end.

Definition delete (k : string) (m : t) : t :=
  filter (fun kv => negb (String.eqb (fst kv) k)) m.

Definition size (m : t) : nat := List.length m.

Definition first_key (m : t) : option string :=
  match m with
  | [] => None
  | (k, _) :: _ => Some k
  end.
End WithValue.
End JsMap.

Record ExactEntry : Type := mkExactEntry {
  ex_data : PipelineResult.t;
  ex_timestamp : Z
}.

Record SemanticEntry : Type := mkSemanticEntry {
  se_embedding : list float;
  se_data : PipelineResult.t;
  se_timestamp : Z;
  se_text : string
}.

(** What the process does to the outside world and to its caches. *)
Inductive event : Type :=
| CallVerifier (b : bucketName) (name : string) (input : string)
| ExactCacheGet (hash : string)
| ExactCacheSet (hash : string)
| EmbeddingCacheGet (hash : string)
| EmbeddingRequest (input : string)
| SemanticCacheScan
| SemanticCacheWrite
| SourceSearch (text : string)
| CompressCall (text : string).

(** The module-level stores of [semanticCache.js], the counters that index
    the oracles, and the log of what has been done. *)
Record State : Type := mkState {
  exactCache : JsMap.t ExactEntry;
  semanticCache : list SemanticEntry;
  embeddingCache : JsMap.t (list float);
  clock_reads : nat;
  embedding_requests : nat;
  log : list event
}.

(** A state monad over [State]. *)
Definition M (A : Type) : Type := State -> A * State.

Definition ret {A : Type} (a : A) : M A := fun st => (a, st).

Definition bind {A B : Type} (c : M A) (f : A -> M B) : M B :=
  fun st => let (a, st') := c st in f a st'.

Declare Scope monad_scope.
Delimit Scope monad_scope with monad.
Notation "x <- c ;; k" := (bind c (fun x => k))
  (at level 61, c at next level, right associativity) : monad_scope.
Notation "c ;;; k" := (bind c (fun _ => k))
  (at level 61, right associativity) : monad_scope.

Definition emit (e : event) : M unit :=
  fun st => (tt, mkState (exactCache st) (semanticCache st) (embeddingCache st)
                         (clock_reads st) (embedding_requests st) (log st ++ [e])).

(** [Date.now()]. *)
Definition now (w : World) : M Z :=
  fun st => (Date_now w (clock_reads st),
             mkState (exactCache st) (semanticCache st) (embeddingCache st)
                     (S (clock_reads st)) (embedding_requests st) (log st)).

Definition get_exactCache : M (JsMap.t ExactEntry) := fun st => (exactCache st, st).
Definition get_semanticCache : M (list SemanticEntry) := fun st => (semanticCache st, st).
Definition get_embeddingCache : M (JsMap.t (list float)) := fun st => (embeddingCache st, st).

Definition put_exactCache (m : JsMap.t ExactEntry) : M unit :=
  fun st => (tt, mkState m (semanticCache st) (embeddingCache st)
                         (clock_reads st) (embedding_requests st) (log st)).

Definition put_semanticCache (c : list SemanticEntry) : M unit :=
  fun st => (tt, mkState (exactCache st) c (embeddingCache st)
                         (clock_reads st) (embedding_requests st) (log st)).

Definition put_embeddingCache (m : JsMap.t (list float)) : M unit :=
  fun st => (tt, mkState (exactCache st) (semanticCache st) m
                         (clock_reads st) (embedding_requests st) (log st)).

(** One request to the embedding provider. *)
Definition request_embedding (w : World) (input : string) : M (option (list float)) :=
  fun st => (embeddings_create w (embedding_requests st) input,
             mkState (exactCache st) (semanticCache st) (embeddingCache st)
                     (clock_reads st) (S (embedding_requests st))
                     (log st ++ [EmbeddingRequest input])).

(* ===================================================================== *)
(** * semanticCache.js *)
(* ===================================================================== *)

Module SemanticCache.

Import JsStr JsRegex.
Local Open Scope monad_scope.

Definition EXACT_CACHE_TTL : Z := 10 * 60 * 1000.
Definition SEMANTIC_CACHE_TTL : Z := 24 * 60 * 60 * 1000.
Definition SIMILARITY_THRESHOLD : float := 0.93%float.
Definition MAX_SEMANTIC_ENTRIES : nat := 1000.

(** The canonical form [hashText] digests:
    [text.toLowerCase().trim().replace(/\s+/g, ' ')]. *)
Definition normalized (text : string) : string :=
  replace_all false (Plus (Class false [CSpace])) [RText " "]
              (trim (toLowerCase text)).

Definition hashText (w : World) (text : string) : string :=
  sha256 w (normalized text).

(** The three running sums of [cosineSimilarity]'s loop. *)
Definition cosine_step (acc : float * float * float) (xy : float * float)
  : float * float * float :=
  let '(dotProduct, normA, normB) := acc in
  let (x, y) := xy in
  (dotProduct + x * y, normA + x * x, normB + y * y)%float.

(** [cosineSimilarity(a, b)]; [None] is an undefined vector. *)
Definition cosineSimilarity (a b : option (list float)) : float :=
  match a, b with
  | Some va, Some vb =>
      if negb (Nat.eqb (List.length va) (List.length vb)) then 0%float
      else
        let '(dotProduct, normA, normB) :=
          fold_left cosine_step (combine va vb) (0, 0, 0)%float in
        let normA := PrimFloat.sqrt normA in
        let normB := PrimFloat.sqrt normB in
        if (normA =? 0)%float || (normB =? 0)%float then 0%float
        else (dotProduct / (normA * normB))%float
  | _, _ => 0%float
  end.

(** The objects the lookups return. *)
Inductive CacheLookup : Type :=
| HitExact (data : PipelineResult.t)
| HitSemantic (similarity : float) (data : PipelineResult.t) (originalText : string)
| Miss (reason : option string) (embedding : option (list float)).

Definition hit (r : CacheLookup) : bool :=
  match r with
  | HitExact _ | HitSemantic _ _ _ => true
  | Miss _ _ => false
  end.

(** [checkExactCache(text)]. *)
Definition checkExactCache (w : World) (text : string) : M CacheLookup :=
  let hash := hashText w text in
  emit (ExactCacheGet hash) ;;;
  m <- get_exactCache ;;
  match JsMap.get hash m with
  | Some entry =>
      t <- now w ;;
      if (t - ex_timestamp entry <? EXACT_CACHE_TTL)%Z
      then ret (HitExact (ex_data entry))
      else ret (Miss None None)
  | None => ret (Miss None None)
  end.

(** [getEmbedding(text)]. *)
Definition getEmbedding (w : World) (text : string) : M (option (list float)) :=
  let hash := hashText w text in
  emit (EmbeddingCacheGet hash) ;;;
  ec <- get_embeddingCache ;;
  match JsMap.get hash ec with
  | Some cached => ret (Some cached)
  | None =>
      if negb (openai_configured w) then ret None
      else
        r <- request_embedding w (substring0 8000 text) ;;
        match r with
        | Some embedding =>
            let ec1 := JsMap.set hash embedding ec in
            let ec2 :=
              if Nat.ltb 5000 (JsMap.size ec1)
              then match JsMap.first_key ec1 with
                   | Some k => JsMap.delete k ec1
                   | None => ec1
                   end
              else ec1 in
            put_embeddingCache ec2 ;;;
            ret (Some embedding)
        | None => ret None
        end
  end.

(** The best match found so far by [checkSemanticCache]'s scan. *)
Record Best : Type := mkBest {
  bestMatch : option SemanticEntry;
  bestSimilarity : float
}.

Definition best_step (embedding : list float) (b : Best) (entry : SemanticEntry) : Best :=
  let similarity := cosineSimilarity (Some embedding) (Some (se_embedding entry)) in
  if JsNum.gtb similarity (bestSimilarity b) && JsNum.geb similarity SIMILARITY_THRESHOLD
  then mkBest (Some entry) similarity
  else b.

Definition fresh_at (t : Z) (e : SemanticEntry) : bool :=
  (t - se_timestamp e <? SEMANTIC_CACHE_TTL)%Z.

(** [checkSemanticCache(text)]. *)
Definition checkSemanticCache (w : World) (text : string) : M CacheLookup :=
  exact <- checkExactCache w text ;;
  if hit exact then ret exact
  else
    e <- getEmbedding w text ;;
    match e with
    | None => ret (Miss (Some "no_embedding"%string) None)
    | Some embedding =>
        t <- now w ;;
        sc <- get_semanticCache ;;
        let live := filter (fresh_at t) sc in
        put_semanticCache live ;;;
        emit SemanticCacheScan ;;;
        let b := fold_left (best_step embedding) live (mkBest None 0%float) in
        match bestMatch b with
        | Some entry =>
            ret (HitSemantic (bestSimilarity b) (se_data entry) (se_text entry))
        | None => ret (Miss None (Some embedding))
        end
    end.

(** The sweep of [cacheResult] over the exact store: the clock is read
    once per entry. *)
Fixpoint sweep_exact (w : World) (entries : list (string * ExactEntry)) : M unit :=
  match entries with
  | [] => ret tt
  | (key, entry) :: entries' =>
      t <- now w ;;
      (if (t - ex_timestamp entry >? EXACT_CACHE_TTL)%Z
       then m <- get_exactCache ;; put_exactCache (JsMap.delete key m)
       else ret tt) ;;;
      sweep_exact w entries'
  end.

(** [array.findIndex(p)]. *)
Fixpoint findIndex {A : Type} (p : A -> bool) (l : list A) : option nat :=
  match l with
  | [] => None
  | x :: l' => if p x then Some 0 else option_map S (findIndex p l')
  end.

(** [array[i] = v] for an index inside the array. *)
Fixpoint assign {A : Type} (i : nat) (v : A) (l : list A) : list A :=
  match l, i with
  | [], _ => []
  | _ :: l', O => v :: l'
  | x :: l', S i' => x :: assign i' v l'
  end.

(** [sort((a, b) => b.timestamp - a.timestamp)]: newest first, entries
    of equal age in their former order. *)
Fixpoint insert_newest_first (x : SemanticEntry) (l : list SemanticEntry)
  : list SemanticEntry :=
  match l with
  | [] => [x]
  | y :: l' =>
      if (se_timestamp y >? se_timestamp x)%Z
      then y :: insert_newest_first x l'
      else x :: l
  end.

Definition sort_newest_first (l : list SemanticEntry) : list SemanticEntry :=
  fold_right insert_newest_first [] l.

(** [cacheResult(text, data, embedding)]. *)
Definition cacheResult (w : World) (text : string) (data : PipelineResult.t)
           (embedding : option (list float)) : M unit :=
  let hash := hashText w text in
  timestamp <- now w ;;
  m <- get_exactCache ;;
  put_exactCache (JsMap.set hash (mkExactEntry data timestamp) m) ;;;
  emit (ExactCacheSet hash) ;;;
  m1 <- get_exactCache ;;
  (if Nat.ltb 5000 (JsMap.size m1) then sweep_exact w m1 else ret tt) ;;;
  e <- match embedding with
       | Some v => ret (Some v)
       | None => getEmbedding w text
       end ;;
  match e with
  | None => ret tt
  | Some v =>
      sc <- get_semanticCache ;;
      let entry := mkSemanticEntry v data timestamp text in
      emit SemanticCacheWrite ;;;
      match findIndex
              (fun x => JsNum.gtb (cosineSimilarity (Some v) (Some (se_embedding x)))
                                  0.98%float) sc with
      | Some existingIndex => put_semanticCache (assign existingIndex entry sc)
      | None =>
          let sc1 := sc ++ [entry] in
          if Nat.ltb MAX_SEMANTIC_ENTRIES (List.length sc1)
          then put_semanticCache (firstn MAX_SEMANTIC_ENTRIES (sort_newest_first sc1))
          else put_semanticCache sc1
      end
  end.

(** [precomputeEmbedding(text)]. *)
Definition precomputeEmbedding (w : World) (text : string) : M (option (list float)) :=
  getEmbedding w text.

End SemanticCache.

(* ===================================================================== *)
(** * ultraSpeed.js *)
(* ===================================================================== *)

Module UltraSpeed.

Import JsStr TruthfulnessSpectrum SemanticCache InputCompressor.
Local Open Scope monad_scope.
Local Open Scope string_scope.

(** ** Configuration *)

Definition SKIP_MID_THRESHOLD : float := 0.88%float.
Definition SKIP_FULL_THRESHOLD : float := 0.90%float.
Definition FAST_TIMEOUT : Z := 1500.
Definition MID_TIMEOUT : Z := 3500.
Definition FULL_TIMEOUT : Z := 10000.
Definition MAX_INPUT_LENGTH : nat := 500.
Definition COMPRESS_THRESHOLD : nat := 300.

(** ** Model buckets *)

Record ModelDescriptor : Type := mkModel {
  name : string;
  fn : verifier;
  weight : float
}.

Record Bucket : Type := mkBucket {
  timeout : Z;
  bucket_weight : float;
  models : list ModelDescriptor
}.

Definition MODEL_BUCKETS (b : bucketName) : Bucket :=
  match b with
  | FAST =>
      mkBucket FAST_TIMEOUT 0.8
        [ mkModel "GPT-4o-mini" checkWithOpenAI 1.0;
          mkModel "Gemini-Flash" checkWithGoogle 1.0;
          mkModel "Perplexity-Lite" checkWithPerplexity 0.9 ]
  | MID =>
      mkBucket MID_TIMEOUT 1.0
        [ mkModel "GPT-4o" checkWithOpenAI 1.1;
          mkModel "Gemini-Pro" checkWithGoogle 1.0 ]
  | FULL =>
      mkBucket FULL_TIMEOUT 1.2
        [ mkModel "GPT-4o-Full" checkWithOpenAI 1.2;
          mkModel "Claude-Sonnet" checkWithAnthropic 1.3;
          mkModel "Gemini-Full" checkWithGoogle 1.1;
          mkModel "Perplexity-Full" checkWithPerplexity 1.0 ]
  end%float.

(** ** Timeout wrapper *)

(** What the [try] block of [runWithTimeout] ends with: the awaited
    value, or the message of the caught error.  The timer rejects with
    [new Error('TIMEOUT')]. *)
Definition awaited (o : settle) : ModelResult + string :=
  match o with
  | Returned r => inl r
  | Threw message => inr message
  | TimerFirst => inr "TIMEOUT"
  end.

(** [runWithTimeout(modelFn, text, timeout, modelName)].  Every path
    returns an object: nothing is thrown to the caller. *)
Definition runWithTimeout (w : World) (modelFn : verifier) (text : string)
           (timeout : Z) (modelName : string) : Response :=
  match awaited (race w modelFn text timeout modelName) with
  | inl result =>
      mkResponse true modelName (mr_verdict result) (mr_confidence result)
                 None false None
  | inr message =>
      if String.eqb message "TIMEOUT" then
        mkResponse true modelName (Some "unverifiable") (Some 25%float)
                   (Some "Model timed out") true None
      else
        mkResponse false modelName None None None false (Some message)
  end.

(** ** Bucket execution *)

Record BucketRun : Type := mkBucketRun {
  bucket : bucketName;
  responses : list Response;
  modelCount : nat;
  totalModels : nat
}.

(** The text a bucket's verifiers receive. *)
Definition inputText (b : bucketName) (text : string) (compressedText : option string)
  : string :=
  match compressedText with
  | Some c => if negb (bucketName_eqb b FAST) && JsStr.truthy c then c else text
  | None => text
  end.

(** The calls of one bucket, started in the order of its model list. *)
Fixpoint start_calls (w : World) (b : bucketName) (timeout : Z) (input : string)
         (ms : list ModelDescriptor) : M (list Response) :=
  match ms with
  | [] => ret []
  | m :: ms' =>
      emit (CallVerifier b (name m) input) ;;;
      rs <- start_calls w b timeout input ms' ;;
      ret (runWithTimeout w (fn m) input timeout (name m) :: rs)
  end.

(** [runBucket(bucketName, text, compressedText)]. *)
Definition runBucket (w : World) (b : bucketName) (text : string)
           (compressedText : option string) : M BucketRun :=
  let bk := MODEL_BUCKETS b in
  let input := inputText b text compressedText in
  results <- start_calls w b (timeout bk) input (models bk) ;;
  let responses := filter success results in
  ret (mkBucketRun b responses (List.length responses) (List.length (models bk))).

(** ** Consensus scoring *)

(** [r.verdict && r.confidence] as a condition. *)
Definition usable (r : Response) : bool :=
  match verdict r, confidence r with
  | Some v, Some c => JsStr.truthy v && JsNum.truthy c
  | _, _ => false
  end.

(** The coarse bucket of a verdict. *)
Definition coarse (r : Response) : float :=
  match verdict r with
  | Some verdict =>
      let v := toLowerCase verdict in
      if includes v "true" then 100
      else if includes v "false" then 0
      else 50
  | None => 50
  end%float.

(** [computeBucketScore(responses)]. *)
Definition computeBucketScore (responses : list Response) : TierResult.t :=
  match responses with
  | [] => TierResult.Build None 0 false []
  | _ =>
      let spectrum := computeTruthfulnessSpectrum responses in
      let scores := map coarse (filter usable responses) in
      let maxScore := JsNum.Math_max (scores ++ [0%float]) in
      let minScore := JsNum.Math_min (scores ++ [100%float]) in
      let agreement :=
        Nat.ltb 0 (List.length scores) && (maxScore - minScore <=? 30)%float in
      let confidence :=
        match sp_score spectrum with
        | Some _ =>
            let c := (if agreement then 0.92 else 0.75)%float in
            let c := (c * (JsNum.of_nat (List.length responses) / 3))%float in
            JsNum.Math_min [1%float; c]
        | None => 0%float
        end in
      TierResult.Build (sp_score spectrum) confidence agreement
                       (modelBreakdown spectrum)
  end.

(** ** Delta verification *)

(** [shouldRunMidBucket(fastResult)]. *)
Definition shouldRunMidBucket (fastResult : TierResult.t) : bool :=
  (TierResult.confidence fastResult <? SKIP_MID_THRESHOLD)%float
  || negb (TierResult.agreement fastResult).

(** [shouldRunFullBucket(fastResult, midResult)]. *)
Definition shouldRunFullBucket (fastResult : TierResult.t)
           (midResult : option TierResult.t) : bool :=
  match midResult with
  | None => (TierResult.confidence fastResult <? SKIP_FULL_THRESHOLD)%float
  | Some midResult =>
      let combinedConfidence :=
        (TierResult.confidence fastResult * 0.4
         + TierResult.confidence midResult * 0.6)%float in
      let bothAgree :=
        TierResult.agreement fastResult && TierResult.agreement midResult in
      let diverges :=
        match TierResult.score fastResult, TierResult.score midResult with
        | Some f, Some m => JsNum.gtb (JsNum.Math_abs (f - m)) 20
        | _, _ => false
        end in
      if diverges then true
      else (combinedConfidence <? SKIP_FULL_THRESHOLD)%float || negb bothAgree
  end.

(** ** Result merging *)

Definition has_score (r : option TierResult.t) : option (TierResult.t * float) :=
  match r with
  | Some t => match TierResult.score t with
              | Some s => Some (t, s)
              | None => None
              end
  | None => None
  end.

(** [mergeResults(fastResult, midResult, fullResult)]; the deviation
    between FULL and FAST is only logged. *)
Definition mergeResults (fastResult : TierResult.t)
           (midResult fullResult : option TierResult.t) : Merged.t :=
  match has_score fullResult with
  | Some (fullResult, _) =>
      Merged.Build (TierResult.score fullResult) (TierResult.confidence fullResult)
                   (TierResult.breakdown fullResult) "full"
  | None =>
      match has_score midResult with
      | Some (midResult, midScore) =>
          let score :=
            JsNum.Math_round
              (JsNum.or_zero (TierResult.score fastResult) * 0.3 + midScore * 0.7)%float in
          let confidence :=
            (TierResult.confidence fastResult * 0.3
             + TierResult.confidence midResult * 0.7)%float in
          Merged.Build (Some score) confidence
                       (TierResult.breakdown fastResult ++ TierResult.breakdown midResult)
                       "mid"
      | None =>
          Merged.Build (TierResult.score fastResult) (TierResult.confidence fastResult)
                       (TierResult.breakdown fastResult) "fast"
      end
  end.

(** ** The pipeline *)

Definition no_models : UsedModels := mkUsedModels [] [] [].

(** The result of the personal short-circuit. *)
Definition personal_result (text : string) (personalCheck : PersonalCheck)
  : PipelineResult.t :=
  PipelineResult.Build
    "personal" text None None None
    "this feels personal, not something to fact-check"
    (Some (reason personalCheck))
    no_models [] [] None
    (SkippedAll "personal")
    false None None.

(** [{ ...data, fromCache: true, cacheType, cacheSimilarity }]. *)
Definition from_cache (data : PipelineResult.t) (cacheType : string)
           (similarity : option (option float)) : PipelineResult.t :=
  PipelineResult.Build
    (PipelineResult.mode data) (PipelineResult.claim data)
    (PipelineResult.score data) (PipelineResult.confidence data)
    (PipelineResult.loraVerdict data) (PipelineResult.loraMessage data)
    (PipelineResult.reason data) (PipelineResult.usedModels data)
    (PipelineResult.spectrumBreakdown data) (PipelineResult.sources data)
    (PipelineResult.sourceProvider data) (PipelineResult.pipelineInfo data)
    true (Some cacheType)
    (match similarity with
     | Some s => s
     | None => PipelineResult.cacheSimilarity data
     end).

(** What steps 4 to 7 leave behind. *)
Record Tiers : Type := mkTiers {
  fastResult : TierResult.t;
  midResult : option TierResult.t;
  fullResult : option TierResult.t;
  used : UsedModels;
  skippedMid : bool;
  skippedFull : bool
}.

(** Steps 4 to 7: the FAST bucket, the escalation gate, and the MID and
    FULL buckets behind it. *)
Definition run_tiers (w : World) (cleanedText compressedText : string) : M Tiers :=
  fastBucket <- runBucket w FAST cleanedText None ;;
  let used_fast := map model (responses fastBucket) in
  let fastResult := computeBucketScore (responses fastBucket) in
  let needsMid := shouldRunMidBucket fastResult in
  if negb needsMid then
    ret (mkTiers fastResult None None (mkUsedModels used_fast [] []) true true)
  else
    midBucket <- runBucket w MID cleanedText (Some compressedText) ;;
    let used_mid := map model (responses midBucket) in
    let midResult := computeBucketScore (responses midBucket) in
    let needsFull := shouldRunFullBucket fastResult (Some midResult) in
    if negb needsFull then
      ret (mkTiers fastResult (Some midResult) None
                   (mkUsedModels used_fast used_mid []) false true)
    else
      fullBucket <- runBucket w FULL cleanedText (Some compressedText) ;;
      let used_full := map model (responses fullBucket) in
      let fullResult := computeBucketScore (responses fullBucket) in
      ret (mkTiers fastResult (Some midResult) (Some fullResult)
                   (mkUsedModels used_fast used_mid used_full) false false).

(** Steps 2 to 11: what a request does once the filter and both caches
    have let it through. *)
Definition fresh_check (w : World) (text cleanedText : string) : M PipelineResult.t :=
  embedding <- precomputeEmbedding w cleanedText ;;
  emit (SourceSearch cleanedText) ;;;
  let sourceResults := quickSearchSources w cleanedText 4000 in
  cp <- (if Nat.ltb COMPRESS_THRESHOLD (String.length cleanedText) then
           emit (CompressCall cleanedText) ;;;
           let compression := compressForInference w cleanedText in
           ret (compressed compression,
                Some (mkCompressionInfo (String.length cleanedText)
                                        (String.length (compressed compression))
                                        (ratio compression) (method compression)))
         else ret (cleanedText, None)) ;;
  let (compressedText, compressionInfo) := cp in
  tiers <- run_tiers w cleanedText compressedText ;;
  let merged := mergeResults (fastResult tiers) (midResult tiers) (fullResult tiers) in
  let verdict := getVerdictFromScore (Merged.score merged) in
  let message := getSpectrumMessage (Merged.score merged) (toLowerCase verdict) in
  let sources := match sr_sources sourceResults with
                 | Some l => l
                 | None => []
                 end in
  let result :=
    PipelineResult.Build
      "fact_check" text (Merged.score merged) (Some (Merged.confidence merged))
      (Some verdict) message None
      (used tiers) (Merged.breakdown merged) sources (sr_provider sourceResults)
      (Ran (skippedMid tiers) (skippedFull tiers) (Merged.source merged) compressionInfo)
      false None None in
  cacheResult w cleanedText result embedding ;;;
  ret result.

(** [ultraSpeedCheck(text)]. *)
Definition ultraSpeedCheck (w : World) (text : string) : M PipelineResult.t :=
  let personalCheck := detectPersonalStatement text in
  if isPersonal personalCheck then ret (personal_result text personalCheck)
  else
    let cleanedText := quickClean text in
    exactHit <- checkExactCache w cleanedText ;;
    match exactHit with
    | HitExact data => ret (from_cache data "exact" None)
    | _ =>
        semanticHit <- checkSemanticCache w cleanedText ;;
        match semanticHit with
        | HitExact data => ret (from_cache data "semantic" (Some None))
        | HitSemantic similarity data _ =>
            ret (from_cache data "semantic" (Some (Some similarity)))
        | Miss _ _ => fresh_check w text cleanedText
        end
    end.

End UltraSpeed.

(* ===================================================================== *)
(** * semanticCache.js: cache management *)
(* ===================================================================== *)

Module CacheManagement.

Import SemanticCache.
Local Open Scope monad_scope.

(** The object [getCacheStats()] returns. *)
Record CacheStats : Type := mkCacheStats {
  exactCacheSize : nat;
  semanticCacheSize : nat;
  embeddingCacheSize : nat
}.

(** [getCacheStats()]. *)
Definition getCacheStats : M CacheStats :=
  m <- get_exactCache ;;
  sc <- get_semanticCache ;;
  ec <- get_embeddingCache ;;
  ret (mkCacheStats (JsMap.size m) (List.length sc) (JsMap.size ec)).

(** [clearAllCaches()]. *)
Definition clearAllCaches : M unit :=
  put_exactCache [] ;;;
  put_semanticCache [] ;;;
  put_embeddingCache [].

(** The loop of [clearExpiredEntries] over the exact store, with the one
    clock reading [t] taken before it. *)
Fixpoint expire_exact (t : Z) (entries : list (string * ExactEntry)) : M unit :=
  match entries with
  | [] => ret tt
  | (key, entry) :: entries' =>
      (if (t - ex_timestamp entry >? EXACT_CACHE_TTL)%Z
       then m <- get_exactCache ;; put_exactCache (JsMap.delete key m)
       else ret tt) ;;;
      expire_exact t entries'
  end.

(** [clearExpiredEntries()]. *)
Definition clearExpiredEntries (w : World) : M unit :=
  t <- now w ;;
  m <- get_exactCache ;;
  expire_exact t m ;;;
  sc <- get_semanticCache ;;
  put_semanticCache (filter (fresh_at t) sc).

End CacheManagement.

(* ===================================================================== *)
(** * inputCompressor.js: local compression *)
(* ===================================================================== *)

Module LocalCompression.

Import JsStr JsRegex InputCompressor.
Local Open Scope string_scope.

(** ** [String.prototype.split] and [Array.prototype.join] *)

(** [s.split(/r/)] for a pattern without capturing groups: [piece] is the
    text between the end of the last separator and the position the
    matcher is tried at, [input] the text from that position on.  A match
    that ends where the last separator ended is passed over, as
    ECMAScript does. *)
Fixpoint split_loop (ic : bool) (r : re) (fuel : nat) (before : option ascii)
         (piece input : string) : list string :=
  match fuel with
  | O => [piece ++ input]
  | S fuel' =>
      match input with
      | EmptyString => [piece]
      | String c input' =>
          match exec_at ic r before input with
          | Some s1 =>
              if Nat.ltb (String.length (rest s1)) (String.length input)
              then piece :: split_loop ic r fuel' (prev s1) "" (rest s1)
              else
                match piece with
                | EmptyString => split_loop ic r fuel' (Some c) (String c "") input'
                | _ => piece :: split_loop ic r fuel' (Some c) (String c "") input'
                end
          | None => split_loop ic r fuel' (Some c) (piece ++ String c "") input'
          end
      end
  end.

Definition split (ic : bool) (r : re) (s : string) : list string :=
  match s with
  | EmptyString =>
      match exec_at ic r None "" with
      | Some _ => []
      | None => [""]
      end
  | _ => split_loop ic r (S (String.length s)) None "" s
  end.

(** [parts.join(sep)]. *)
Fixpoint join (sep : string) (parts : list string) : string :=
  match parts with
  | [] => ""
  | [p] => p
  | p :: parts' => p ++ sep ++ join sep parts'
  end.

(** ** [deduplicateLines] *)

(** [/[.\n]+/]. *)
Definition line_break : re := Plus (Class false [Ch "."; CChar 10]).

(** [text.split(/[.\n]+/).map(l => l.trim()).filter(Boolean)]. *)
Definition lines_of (text : string) : list string :=
  filter JsStr.truthy (map trim (split false line_break text)).

(** [line.toLowerCase().replace(/[^\w\s]/g, '')]. *)
Definition line_key (line : string) : string :=
  replace_all false (Class true [CWord; CSpace]) [] (toLowerCase line).

(** The loop over the lines; [seen] is the set of the keys met. *)
Fixpoint unique_lines (seen : list string) (lines : list string) : list string :=
  match lines with
  | [] => []
  | line :: lines' =>
      let normalized := line_key line in
      if negb (existsb (String.eqb normalized) seen)
         && Nat.ltb 3 (String.length normalized)
      then line :: unique_lines (normalized :: seen) lines'
      else unique_lines seen lines'
  end.

(** [deduplicateLines(text)]. *)
Definition deduplicateLines (text : string) : string :=
  join ". " (unique_lines [] (lines_of text)).

(** ** [extractMainClaim] *)

(** [/[.!?]+/]. *)
Definition sentence_break : re := Plus (Class false [Ch "."; Ch "!"; Ch "?"]).

Definition claimIndicators : list re :=
  [ Cat Bol (Words ["the "; "a "; "an "; "this "; "that "; "it "; "they "; "he ";
                    "she "; "we "]);
    Cats [WordB;
          Words ["is"; "are"; "was"; "were"; "will"; "has"; "have"; "had"; "does";
                 "do"; "did"];
          WordB];
    Cats [WordB;
          Words ["claim"; "fact"; "true"; "false"; "actually"; "really"; "proven";
                 "study"; "research"; "found"; "shows"; "according"];
          WordB];
    Cats [WordB;
          Words ["percent"; "million"; "billion"; "thousand"; "number"; "data";
                 "statistic"];
          WordB] ].

(** [/^(i |my |me )/i]. *)
Definition first_person : re := Cat Bol (Words ["i "; "my "; "me "]).

(** The score of one sentence. *)
Definition claim_score (sentence : string) : float :=
  let score := 0%float in
  let score :=
    (score + JsNum.Math_min [JsNum.of_nat (String.length sentence) / 50; 2])%float in
  let score :=
    fold_left (fun sc pattern => if test true pattern sentence then (sc + 1)%float else sc)
              claimIndicators score in
  let score := if includes sentence "?" then (score - 2)%float else score in
  if test true first_person sentence then (score - 1)%float else score.

(** One turn of the loop that keeps the best sentence. *)
Definition best_sentence_step (best : string * float) (sentence : string)
  : string * float :=
  let score := claim_score sentence in
  if JsNum.gtb score (snd best) then (sentence, score) else best.

(** [extractMainClaim(text)]. *)
Definition extractMainClaim (text : string) : string :=
  let cleaned := quickClean text in
  let sentences :=
    filter (fun s => Nat.ltb 10 (String.length s))
           (map trim (split false sentence_break cleaned)) in
  match sentences with
  | [] => cleaned
  | [s] => s
  | s :: _ => fst (fold_left best_sentence_step sentences (s, 0%float))
  end.

(** ** [compressForInference] without the AI step *)

(** [compressForInference(text, { maxLength, useAI: false })], the call
    of [ultraSpeedCheck]: with [useAI] false step 3 is passed over. *)
Definition compressForInference (text : string) (maxLength : nat) : Compression :=
  let ratio_to (c : string) : float :=
    (JsNum.of_nat (String.length text) / JsNum.of_nat (String.length c))%float in
  let compressed := deduplicateLines (quickClean text) in
  if Nat.leb (String.length compressed) maxLength
  then mkCompression compressed (ratio_to compressed) "local"
  else
    let compressed := extractMainClaim compressed in
    if Nat.leb (String.length compressed) maxLength
    then mkCompression compressed (ratio_to compressed) "heuristic"
    else
      let compressed := substring0 (maxLength - 3) compressed ++ "..." in
      mkCompression compressed (ratio_to compressed) "truncate".

End LocalCompression.

(* ===================================================================== *)
(** * Properties *)
(* ===================================================================== *)

Unset Implicit Arguments.

(** ** Facts about binary64 comparisons *)

Module JsNumFacts.

Import JsNum.
Local Open Scope float_scope.

Lemma SFcompare_antisym (x y : spec_float) :
  SFcompare y x = option_map CompOpp (SFcompare x y).
Proof.
  destruct x as [sx | sx | | sx mx ex], y as [sy | sy | | sy my ey]; simpl;
    try reflexivity;
    try (destruct sx; reflexivity); try (destruct sy; reflexivity);
    try (destruct sx, sy; reflexivity).
  destruct sx, sy; simpl; try reflexivity;
    rewrite (Z.compare_antisym ex ey);
    destruct (ex ?= ey)%Z; simpl; try reflexivity;
    change (Pos.compare_cont Eq my mx) with (Pos.compare my mx);
    change (Pos.compare_cont Eq mx my) with (Pos.compare mx my);
    rewrite (Pos.compare_antisym mx my);
    destruct (mx ?= my)%positive; reflexivity.
Qed.

Ltac by_compare a b :=
  rewrite ?FloatAxioms.ltb_spec, ?FloatAxioms.leb_spec;
  unfold SFltb, SFleb;
  rewrite (SFcompare_antisym (Prim2SF a) (Prim2SF b));
  destruct (SFcompare (Prim2SF a) (Prim2SF b)) as [[]|]; simpl; congruence.

Lemma ltb_asym (a b : float) : (a <? b) = true -> (b <? a) = false.
Proof. by_compare a b. Qed.

Lemma ltb_not_geb (a b : float) : (a <? b) = true -> (b <=? a) = false.
Proof. by_compare a b. Qed.

Lemma leb_not_gtb (a b : float) : (a <=? b) = true -> (b <? a) = false.
Proof. by_compare a b. Qed.

(** [Math.min(1, c)] is never above 1. *)
Lemma min_one_not_above (c : float) : (1 <? Math_min [1; c]) = false.
Proof.
  unfold Math_min; simpl.
  replace (min2 infinity 1) with 1 by reflexivity.
  unfold min2.
  destruct (is_nan 1 || is_nan c); [reflexivity|].
  destruct (1 <? c) eqn:E2; [reflexivity|].
  destruct (c <? 1) eqn:E3; [exact E2|].
  destruct (is_neg_zero 1); [reflexivity | exact E2].
Qed.



End JsNumFacts.

(** ** The result merger *)

Module MergeFacts.

Import JsNum JsNumFacts UltraSpeed.
Local Open Scope float_scope.

(** A tier that did not run, or ran and produced no score. *)
Definition no_score (r : option TierResult.t) : Prop :=
  match r with
  | None => True
  | Some t => TierResult.score t = None
  end.


Lemma no_score_has_score (r : option TierResult.t) :
  no_score r -> has_score r = None.
Proof.
  destruct r as [t|]; simpl; [|reflexivity].
  intros H. now rewrite H.
Qed.

(** When FAST has no score the MID branch counts it as zero. *)
Lemma merge_mid_without_fast (fastR midR : TierResult.t) (fullR : option TierResult.t)
      (m : float) :
  no_score fullR ->
  TierResult.score midR = Some m ->
  TierResult.score fastR = None ->
  Merged.score (mergeResults fastR (Some midR) fullR) = Some (Math_round (0 * 0.3 + m * 0.7)).
Proof.
  intros Hfull Hm Hf. unfold mergeResults.
  rewrite (no_score_has_score _ Hfull). simpl. rewrite Hm, Hf. reflexivity.
Qed.



End MergeFacts.

(** ** The consensus scorer *)

Module ScorerFacts.

Import JsStr JsNum JsNumFacts TruthfulnessSpectrum UltraSpeed.
Local Open Scope Z_scope.

(** The coarse bucket of the spec, as an integer: 100 for a verdict of the
    true family, 0 for one of the false family, 50 for any other. *)
Definition bucket_of (r : Response) : Z :=
  match verdict r with
  | Some v =>
      if includes (toLowerCase v) "true" then 100
      else if includes (toLowerCase v) "false" then 0
      else 50
  | None => 50
  end.

(** [max - min <= 30] over a list of buckets; false when there is none. *)
Definition within_30 (buckets : list Z) : bool :=
  match buckets with
  | [] => false
  | b :: bs => fold_left Z.max bs b - fold_left Z.min bs b <=? 30
  end.

(** The bucket as the claim words it: 100 for the true family, 0 for the
    false family, 50 for every other verdict, [partially_true] and
    [unverifiable] among them. *)
Definition claimed_bucket (r : Response) : Z :=
  match verdict r with
  | Some v =>
      if String.eqb v "true" || String.eqb v "mostly_true" then 100
      else if String.eqb v "false" || String.eqb v "mostly_false" then 0
      else 50
  | None => 50
  end.

(** The agreement flag as the claim words it: over every response. *)
Definition claimed_agreement (responses : list Response) : bool :=
  within_30 (map claimed_bucket responses).

Definition is_bucket (z : Z) : Prop := z = 0 \/ z = 50 \/ z = 100.

Lemma bucket_of_is_bucket (r : Response) : is_bucket (bucket_of r).
Proof.
  unfold bucket_of, is_bucket. destruct (verdict r) as [v|]; [|auto].
  destruct (includes (toLowerCase v) "true"); [auto|].
  destruct (includes (toLowerCase v) "false"); auto.
Qed.

Lemma coarse_bucket_of (r : Response) : coarse r = of_Z (bucket_of r).
Proof.
  unfold coarse, bucket_of. destruct (verdict r) as [v|]; [|reflexivity].
  destruct (includes (toLowerCase v) "true"); [reflexivity|].
  destruct (includes (toLowerCase v) "false"); reflexivity.
Qed.

Ltac buckets :=
  repeat match goal with
         | H : is_bucket _ |- _ => destruct H as [H | [H | H]]; subst
         end.

Lemma max2_buckets (a b : Z) :
  is_bucket a -> is_bucket b ->
  max2 (of_Z a) (of_Z b) = of_Z (Z.max a b) /\ is_bucket (Z.max a b).
Proof. intros Ha Hb. buckets; split; first [reflexivity | unfold is_bucket; simpl; auto]. Qed.

Lemma min2_buckets (a b : Z) :
  is_bucket a -> is_bucket b ->
  min2 (of_Z a) (of_Z b) = of_Z (Z.min a b) /\ is_bucket (Z.min a b).
Proof. intros Ha Hb. buckets; split; first [reflexivity | unfold is_bucket; simpl; auto]. Qed.

Lemma fold_max2_buckets (l : list Z) : forall a,
  is_bucket a -> Forall is_bucket l ->
  fold_left max2 (map of_Z l) (of_Z a) = of_Z (fold_left Z.max l a)
  /\ is_bucket (fold_left Z.max l a).
Proof.
  induction l as [|x l IH]; intros a Ha Hl; simpl; [auto|].
  inversion Hl as [|? ? Hx Hl']; subst.
  destruct (max2_buckets _ _ Ha Hx) as [E B]. rewrite E. now apply IH.
Qed.

Lemma fold_min2_buckets (l : list Z) : forall a,
  is_bucket a -> Forall is_bucket l ->
  fold_left min2 (map of_Z l) (of_Z a) = of_Z (fold_left Z.min l a)
  /\ is_bucket (fold_left Z.min l a).
Proof.
  induction l as [|x l IH]; intros a Ha Hl; simpl; [auto|].
  inversion Hl as [|? ? Hx Hl']; subst.
  destruct (min2_buckets _ _ Ha Hx) as [E B]. rewrite E. now apply IH.
Qed.

Lemma spread_buckets (a b : Z) :
  is_bucket a -> is_bucket b ->
  (of_Z a - of_Z b <=? 30)%float = (a - b <=? 30).
Proof. intros Ha Hb. buckets; reflexivity. Qed.

(** The float computation of the source agrees with the integer one. *)
Lemma agreement_flag (bs : list Z) :
  Forall is_bucket bs ->
  Nat.ltb 0 (List.length (map of_Z bs))
  && (Math_max (map of_Z bs ++ [0%float]) - Math_min (map of_Z bs ++ [100%float]) <=? 30)%float
  = within_30 bs.
Proof.
  intros H. destruct bs as [|b bs]; [reflexivity|].
  inversion H as [|? ? Hb Hbs]; subst.
  unfold Math_max, Math_min, within_30. simpl map. simpl List.length. simpl Nat.ltb.
  rewrite !fold_left_app. simpl.
  replace (max2 neg_infinity (of_Z b)) with (of_Z b) by (buckets; reflexivity).
  replace (min2 infinity (of_Z b)) with (of_Z b) by (buckets; reflexivity).
  destruct (fold_max2_buckets _ _ Hb Hbs) as [Emax Bmax].
  destruct (fold_min2_buckets _ _ Hb Hbs) as [Emin Bmin].
  rewrite Emax, Emin.
  set (mx := fold_left Z.max bs b) in *. set (mn := fold_left Z.min bs b) in *.
  clearbody mx mn. clear - Bmax Bmin. buckets; reflexivity.
Qed.


(** The responses the agreement check looks at: those with a non-empty
    verdict and a confidence other than 0. *)
Lemma computeBucketScore_agreement_eq (responses : list Response) :
  TierResult.agreement (computeBucketScore responses)
  = within_30 (map bucket_of (filter usable responses)).
Proof.
  destruct responses as [|r rs]; [reflexivity|].
  unfold computeBucketScore.
  set (considered := filter usable (r :: rs)).
  cbv beta iota zeta. unfold TierResult.agreement.
  replace (map coarse considered) with (map of_Z (map bucket_of considered)).
  - apply agreement_flag. apply Forall_forall. intros z Hz.
    apply in_map_iff in Hz. destruct Hz as [x [<- _]]. apply bucket_of_is_bucket.
  - rewrite map_map. apply map_ext. intros x. symmetry. apply coarse_bucket_of.
Qed.

Lemma filter_all {A : Type} (p : A -> bool) (l : list A) :
  Forall (fun x => p x = true) l -> filter p l = l.
Proof.
  induction 1 as [|x l Hx _ IH]; simpl; [reflexivity|]. now rewrite Hx, IH.
Qed.

(** C3 (amended). The agreement flag of a tier is computed from the coarse
    buckets of the responses that carry a non-empty verdict and a non-zero
    confidence: 100 for a verdict whose lower-cased text contains [true]
    (so [partially_true] and [mostly_true] too), 0 for one that contains
    [false] instead, 50 for any other (such as [unverifiable]).  The flag
    is true if and only if there is such a response and max - min <= 30
    over their buckets.  When every response of the tier is of that kind,
    this is max - min <= 30 over the buckets of all responses; and when
    moreover the claim's buckets coincide with these, the flag is the one
    the claim describes. *)
Theorem computeBucketScore_agreement (responses : list Response) :
  (TierResult.agreement (computeBucketScore responses) = true
   <-> within_30 (map bucket_of (filter usable responses)) = true)
  /\ (Forall (fun r => usable r = true) responses ->
      TierResult.agreement (computeBucketScore responses)
      = within_30 (map bucket_of responses))
  /\ (Forall (fun r => usable r = true /\ bucket_of r = claimed_bucket r) responses ->
      TierResult.agreement (computeBucketScore responses) = claimed_agreement responses).
Proof.
  split; [|split].
  - now rewrite computeBucketScore_agreement_eq.
  - intros Hall. rewrite computeBucketScore_agreement_eq.
    now rewrite (filter_all _ _ Hall).
  - intros Hall. rewrite computeBucketScore_agreement_eq.
    rewrite filter_all by (eapply Forall_impl; [|exact Hall]; now intros r [H _]).
    unfold claimed_agreement. f_equal. apply map_ext_in. intros r Hr.
    rewrite Forall_forall in Hall. now destruct (Hall r Hr).
Qed.

Definition answer (name v : string) (c : float) : Response :=
  mkResponse true name (Some v) (Some c) None false None.

Lemma computeBucketScore_agreement_witness :
  TierResult.agreement
    (computeBucketScore [answer "a" "true" 90; answer "b" "unverifiable" 30])
  = claimed_agreement [answer "a" "true" 90; answer "b" "unverifiable" 30].
Proof.
  apply (proj2 (proj2 (computeBucketScore_agreement
                         [answer "a" "true" 90; answer "b" "unverifiable" 30]))).
  repeat constructor.
Defined.

(** C3 as stated fails twice.  A tier answering [true] and [partially_true]
    has, in the claim's words, buckets 100 and 50, yet its flag is true:
    [partially_true] contains [true] and counts as 100.  And a tier
    answering [true] with confidence 90 and [false] with confidence 0 has
    buckets 100 and 0, yet its flag is true: the second response is not
    looked at. *)
Lemma agreement_differs_from_claimed :
  (TierResult.agreement
     (computeBucketScore [answer "GPT-4o-mini" "true" 90;
                          answer "Gemini-Flash" "partially_true" 60]) = true
   /\ claimed_agreement [answer "GPT-4o-mini" "true" 90;
                         answer "Gemini-Flash" "partially_true" 60] = false)
  /\ (TierResult.agreement
        (computeBucketScore [answer "GPT-4o-mini" "true" 90;
                             answer "Gemini-Flash" "false" 0]) = true
      /\ claimed_agreement [answer "GPT-4o-mini" "true" 90;
                            answer "Gemini-Flash" "false" 0] = false).
Proof. repeat split; vm_compute; reflexivity. Qed.

(** The confidence of a tier as the claim words it: the base scaled by
    [min(1, responseCount / 3)]. *)
Definition claimed_confidence (agreement : bool) (responseCount : nat) : float :=
  ((if agreement then 0.92 else 0.75) * Math_min [1; of_nat responseCount / 3])%float.

(** C4 (amended). For a tier whose responses yield a score, the output
    confidence is [min(1, base * responseCount / 3)] with base 0.92 when
    agreement holds and 0.75 otherwise.  It never exceeds 1.0; for up to 3
    responses it is the base scaled by [min(1, responseCount / 3)], and
    with fewer than 3 responses it is below the base. *)
Theorem computeBucketScore_confidence (responses : list Response) :
  TierResult.score (computeBucketScore responses) <> None ->
  let r := computeBucketScore responses in
  let base := (if TierResult.agreement r then 0.92 else 0.75)%float in
  let n := List.length responses in
  TierResult.confidence r = Math_min [1; base * (of_nat n / 3)]%float
  /\ (1 <? TierResult.confidence r)%float = false
  /\ (n <= 3 -> TierResult.confidence r = claimed_confidence (TierResult.agreement r) n)%nat
  /\ (n < 3 -> (TierResult.confidence r <? base)%float = true)%nat.
Proof.
  intros Hscore r base n.
  assert (Hconf : TierResult.confidence r = Math_min [1; base * (of_nat n / 3)]%float).
  { subst r base n. destruct responses as [|x xs]; [now elim Hscore|].
    unfold computeBucketScore in *. cbv beta iota zeta in *.
    unfold TierResult.score, TierResult.confidence, TierResult.agreement in *.
    destruct (sp_score (computeTruthfulnessSpectrum (x :: xs))); [reflexivity|].
    now elim Hscore. }
  split; [exact Hconf|]. split; [rewrite Hconf; apply min_one_not_above|].
  assert (Hn : n <> O).
  { subst n. destruct responses; [now elim Hscore | discriminate]. }
  split.
  - intros Hle. rewrite Hconf. unfold claimed_confidence. fold base.
    destruct n as [|[|[|[|k]]]]; try lia; try congruence;
      subst base; destruct (TierResult.agreement r); reflexivity.
  - intros Hlt. rewrite Hconf.
    destruct n as [|[|[|k]]]; try lia; try congruence;
      subst base; destruct (TierResult.agreement r); reflexivity.
Qed.

Lemma computeBucketScore_confidence_witness :
  TierResult.confidence
    (computeBucketScore [answer "a" "true" 90; answer "b" "true" 80])
  = Math_min [1; 0.92 * (2 / 3)]%float.
Proof.
  refine (proj1 (computeBucketScore_confidence
                   [answer "a" "true" 90; answer "b" "true" 80] _)).
  vm_compute. discriminate.
Defined.

(** C4 as stated fails for a tier of four responses (the FULL tier has
    four verifiers): the confidence is 1.0, above the base 0.92 that the
    claimed formula gives. *)
Lemma confidence_grows_past_base :
  let rs := [answer "GPT-4o-Full" "true" 90; answer "Claude-Sonnet" "true" 90;
             answer "Gemini-Full" "true" 90; answer "Perplexity-Full" "true" 90] in
  TierResult.score (computeBucketScore rs) = Some 100%float
  /\ TierResult.agreement (computeBucketScore rs) = true
  /\ TierResult.confidence (computeBucketScore rs) = 1%float
  /\ claimed_confidence true 4 = 0.92%float
  /\ TierResult.confidence (computeBucketScore rs) <> claimed_confidence true 4.
Proof.
  repeat split; try (vm_compute; reflexivity).
  vm_compute. intros H. apply (f_equal Prim2SF) in H. vm_compute in H. discriminate.
Qed.

End ScorerFacts.

(** ** The semantic cache *)

Module CacheFacts.


Import JsNum JsNumFacts SemanticCache.
Local Open Scope float_scope.

(** *** State bookkeeping *)

Lemma checkExactCache_semanticCache (w : World) (text : string) (st : State) :
  semanticCache (snd (checkExactCache w text st)) = semanticCache st.
Proof.
  unfold checkExactCache, bind, emit, get_exactCache, now, ret. simpl.
  destruct (JsMap.get (hashText w text) (exactCache st)) as [entry|]; simpl; [|reflexivity].
  destruct (_ <? _)%Z; reflexivity.
Qed.

Lemma getEmbedding_semanticCache (w : World) (text : string) (st : State) :
  semanticCache (snd (getEmbedding w text st)) = semanticCache st.
Proof.
  unfold getEmbedding, bind, emit, get_embeddingCache, request_embedding,
    put_embeddingCache, ret. simpl.
  destruct (JsMap.get (hashText w text) (embeddingCache st)); simpl; [reflexivity|].
  destruct (openai_configured w); simpl; [|reflexivity].
  destruct (embeddings_create w (embedding_requests st) _); reflexivity.
Qed.

(** *** The scan for the best match *)

Definition similarity_to (q : list float) (e : SemanticEntry) : float :=
  cosineSimilarity (Some q) (Some (se_embedding e)).

Definition scan (q : list float) (live : list SemanticEntry) : Best :=
  fold_left (best_step q) live (mkBest None 0).

(** What the scan maintains about its running best, over the store [L]. *)
Definition scan_inv (q : list float) (L : list SemanticEntry) (b : Best) : Prop :=
  match bestMatch b with
  | Some e =>
      In e L /\ similarity_to q e = bestSimilarity b
      /\ geb (bestSimilarity b) SIMILARITY_THRESHOLD = true
  | None => bestSimilarity b = 0
  end.

Lemma best_step_inv (q : list float) (L : list SemanticEntry) (b : Best) (e : SemanticEntry) :
  In e L -> scan_inv q L b -> scan_inv q L (best_step q b e).
Proof.
  intros He Hb. unfold best_step. fold (similarity_to q e).
  destruct (gtb (similarity_to q e) (bestSimilarity b)
            && geb (similarity_to q e) SIMILARITY_THRESHOLD) eqn:E; [|exact Hb].
  apply andb_prop in E. destruct E as [_ E]. unfold scan_inv. simpl. auto.
Qed.

Lemma fold_best_step_inv (q : list float) (L l : list SemanticEntry) : forall b,
  (forall e, In e l -> In e L) -> scan_inv q L b ->
  scan_inv q L (fold_left (best_step q) l b).
Proof.
  induction l as [|e l IH]; intros b Hl Hb; simpl; [exact Hb|].
  apply IH; [intros; apply Hl; now right|].
  apply best_step_inv; [apply Hl; now left | exact Hb].
Qed.




(** *** Degenerate vectors *)






(** *** The lookup *)

(** The embedding the lookup computes for its query, and the clock reading
    it takes before the scan. *)
Definition query_embedding (w : World) (text : string) (st : State) : option (list float) :=
  fst (getEmbedding w text (snd (checkExactCache w text st))).

Definition scan_time (w : World) (text : string) (st : State) : Z :=
  fst (now w (snd (getEmbedding w text (snd (checkExactCache w text st))))).

Lemma checkSemanticCache_result (w : World) (text : string) (st : State) :
  fst (checkSemanticCache w text st)
  = if hit (fst (checkExactCache w text st)) then fst (checkExactCache w text st)
    else match query_embedding w text st with
         | None => Miss (Some "no_embedding"%string) None
         | Some q =>
             let b := scan q (filter (fresh_at (scan_time w text st)) (semanticCache st)) in
             match bestMatch b with
             | Some entry => HitSemantic (bestSimilarity b) (se_data entry) (se_text entry)
             | None => Miss None (Some q)
             end
         end.
Proof.
  unfold query_embedding, scan_time.
  pose proof (checkExactCache_semanticCache w text st) as Hsc1.
  unfold checkSemanticCache, bind.
  destruct (checkExactCache w text st) as [exact st1]. simpl fst in *. simpl snd in *.
  destruct (hit exact); [reflexivity|].
  pose proof (getEmbedding_semanticCache w text st1) as Hsc2.
  destruct (getEmbedding w text st1) as [e st2]. simpl fst in *. simpl snd in *.
  destruct e as [q|]; [|reflexivity].
  unfold now, get_semanticCache, put_semanticCache, emit, ret, scan. simpl.
  rewrite Hsc2, Hsc1.
  destruct (bestMatch _); reflexivity.
Qed.



(** A store holding one entry whose embedding has cosine similarity
    exactly 0.93 to the query embedding [[1; 0]]. *)
Definition stored_result : PipelineResult.t :=
  PipelineResult.Build "fact_check" "the earth orbits the sun" (Some 100) (Some 0.92)
                       (Some "TRUE"%string) "yep this checks out, pretty confident it's true"
                       None (mkUsedModels ["GPT-4o-mini"%string] [] []) [] [] None
                       (Ran true true "fast" None) false None None.

Definition boundary_entry : SemanticEntry :=
  mkSemanticEntry [0.93; 0.3675595189897819] stored_result 0 "the earth orbits the sun".

Definition boundary_world : World :=
  mkWorld (fun s => s) (fun _ => 1000%Z) true (fun _ _ => Some [1; 0])
          (fun _ _ _ _ => TimerFirst)
          (fun _ _ => mkSourceResults None None)
          (fun s => mkCompression s 1 "local").

Definition boundary_state : State := mkState [] [boundary_entry] [] 0 0 [].


End CacheFacts.

(** ** Normalisation before cache keying *)

Module NormalizeFacts.


Import JsStr JsRegex SemanticCache.
Local Open Scope string_scope.

(** *** Characters *)

Ltac by_cases_on c :=
  destruct c as [[] [] [] [] [] [] [] []]; vm_compute; try reflexivity; try discriminate.

Lemma lower_char_idem (c : ascii) : lower_char (lower_char c) = lower_char c.
Proof. by_cases_on c. Qed.

Lemma is_space_lower_char (c : ascii) : is_space (lower_char c) = is_space c.
Proof. by_cases_on c. Qed.

Lemma space_class (c : ascii) : class_match false false [CSpace] c = is_space c.
Proof. unfold class_match. simpl. now rewrite orb_false_r. Qed.

(** *** Collapsing runs of white space, directly *)

(** [collapse in_run s]: every maximal run of white space becomes one
    space; [in_run] says that the run's space has been written already. *)
Fixpoint collapse (in_run : bool) (s : string) : string :=
  match s with
  | EmptyString => EmptyString
  | String c r =>
      if is_space c
      then (if in_run then collapse true r else String " " (collapse true r))
      else String c (collapse false r)
  end.

Lemma collapse_trimStart (r : string) : collapse true r = collapse false (trimStart r).
Proof.
  induction r as [|c r IH]; simpl; [reflexivity|].
  destruct (is_space c) eqn:E; [exact IH|]. simpl. now rewrite E.
Qed.

Lemma length_trimStart (r : string) : String.length (trimStart r) <= String.length r.
Proof.
  induction r as [|c r IH]; simpl; [lia|]. destruct (is_space c); simpl; lia.
Qed.

(** *** The matcher on [\s+] *)

Definition ws : re := Class false [CSpace].

(** One white-space character, as [run] matches the class. *)
Definition eat_space (s : mstate) (k : mstate -> option mstate) : option mstate :=
  match rest s with
  | String d r' => if is_space d then k (MState (Some d) r' (caps s)) else None
  | EmptyString => None
  end.

Lemma run_ws (s : mstate) (k : mstate -> option mstate) :
  run false ws s k = eat_space s k.
Proof.
  unfold eat_space. cbn [run ws]. destruct (rest s); [reflexivity|].
  now rewrite space_class.
Qed.

Lemma star_ws (input : string) : forall n p cs,
  String.length input <= n ->
  exists p',
    star_loop (run false ws) (fun s => Some s) n (MState p input cs)
    = Some (MState p' (trimStart input) cs).
Proof.
  induction input as [|c r IH]; intros n p cs Hn.
  - exists p. destruct n; [reflexivity|]. cbn [star_loop]. now rewrite run_ws.
  - destruct n as [|n]; [simpl in Hn; lia|].
    simpl in Hn. cbn [star_loop]. rewrite run_ws. unfold eat_space.
    cbn [rest caps String.length trimStart].
    destruct (is_space c) eqn:E.
    + replace (String.length r <? S (String.length r))%nat with true
        by (symmetry; apply Nat.ltb_lt; lia).
      destruct (IH n (Some c) cs ltac:(lia)) as [p' ->]. now exists p'.
    + now exists p.
Qed.

Lemma exec_plus_ws (p : option ascii) (input : string) :
  match input with
  | String c r =>
      if is_space c
      then exists p', exec_at false (Plus ws) p input = Some (MState p' (trimStart r) [])
      else exec_at false (Plus ws) p input = None
  | EmptyString => exec_at false (Plus ws) p input = None
  end.
Proof.
  destruct input as [|c r]; [reflexivity|].
  unfold exec_at, Plus. cbn [run]. rewrite run_ws. unfold eat_space. cbn [rest caps].
  destruct (is_space c); [|reflexivity].
  apply (star_ws r (String.length r) (Some c) []). lia.
Qed.

Lemma replace_ws (fuel : nat) : forall p input,
  String.length input < fuel ->
  replace_loop false (Plus ws) [RText " "] fuel p input = collapse false input.
Proof.
  induction fuel as [|fuel IH]; intros p input Hlen; [lia|].
  destruct input as [|c r].
  - reflexivity.
  - pose proof (exec_plus_ws p (String c r)) as H. cbv beta iota in H.
    cbn [replace_loop collapse]. destruct (is_space c).
    + destruct H as [p' ->]. cbn [rest caps prev].
      pose proof (length_trimStart r) as Hle. cbn [String.length] in *.
      replace (String.length (trimStart r) <? S (String.length r))%nat with true
        by (symmetry; apply Nat.ltb_lt; lia).
      rewrite IH by lia. cbn [expand]. rewrite collapse_trimStart. reflexivity.
    + rewrite H. rewrite IH by (cbn [String.length] in Hlen; lia). reflexivity.
Qed.

Lemma normalized_collapse (text : string) :
  normalized text = collapse false (trim (toLowerCase text)).
Proof. unfold normalized, replace_all. apply replace_ws. lia. Qed.


(** *** Lower-casing commutes with trimming and collapsing *)

Lemma toLowerCase_idem (s : string) : toLowerCase (toLowerCase s) = toLowerCase s.
Proof. induction s as [|c r IH]; simpl; [reflexivity|]. now rewrite lower_char_idem, IH. Qed.

Lemma toLowerCase_trimStart (s : string) :
  toLowerCase (trimStart s) = trimStart (toLowerCase s).
Proof.
  induction s as [|c r IH]; simpl; [reflexivity|].
  rewrite is_space_lower_char. destruct (is_space c); [exact IH | reflexivity].
Qed.

Lemma toLowerCase_trimEnd (s : string) :
  toLowerCase (trimEnd s) = trimEnd (toLowerCase s).
Proof.
  induction s as [|c r IH]; simpl; [reflexivity|].
  rewrite <- IH, is_space_lower_char.
  destruct (trimEnd r); simpl; [destruct (is_space c)|]; reflexivity.
Qed.

Lemma toLowerCase_collapse (b : bool) (s : string) :
  toLowerCase (collapse b s) = collapse b (toLowerCase s).
Proof.
  revert b. induction s as [|c r IH]; intros b; simpl; [reflexivity|].
  rewrite is_space_lower_char.
  destruct (is_space c); [destruct b|]; simpl; now rewrite IH.
Qed.

(** *** Trimming a collapsed, trimmed string changes nothing *)

Definition starts_clean (s : string) : Prop :=
  match s with
  | String c _ => is_space c = false
  | EmptyString => True
  end.

Lemma trimStart_starts_clean (s : string) : starts_clean (trimStart s).
Proof.
  induction s as [|c r IH]; simpl; [exact I|].
  destruct (is_space c) eqn:E; [exact IH | exact E].
Qed.

Lemma trimEnd_starts_clean (s : string) : starts_clean s -> starts_clean (trimEnd s).
Proof.
  destruct s as [|c r]; simpl; [auto|]. intros E.
  destruct (trimEnd r); [rewrite E|]; exact E.
Qed.

Lemma trimStart_clean (s : string) : starts_clean s -> trimStart s = s.
Proof. destruct s as [|c r]; simpl; [reflexivity|]. now intros ->. Qed.

Lemma collapse_starts_clean (s : string) :
  starts_clean s -> starts_clean (collapse false s).
Proof. destruct s as [|c r]; simpl; [auto|]. intros E. now rewrite E. Qed.

Lemma trimEnd_idem (s : string) : trimEnd (trimEnd s) = trimEnd s.
Proof.
  induction s as [|c r IH]; simpl; [reflexivity|].
  destruct (trimEnd r) as [|d r'] eqn:E.
  - destruct (is_space c) eqn:Ec; simpl; [reflexivity|]. now rewrite Ec.
  - change (trimEnd (String c (String d r'))) with
      (match trimEnd (String d r') with
       | EmptyString => if is_space c then EmptyString else String c EmptyString
       | r'' => String c r''
       end).
    now rewrite IH.
Qed.

(** A string that [trimEnd] leaves alone is empty or has a non-space
    character; so has its tail, unless the tail is empty. *)
Lemma trimEnd_fixed_inv (c : ascii) (r : string) :
  trimEnd (String c r) = String c r ->
  (r = EmptyString /\ is_space c = false)
  \/ (r <> EmptyString /\ trimEnd r = r).
Proof.
  simpl. destruct (trimEnd r) as [|d r'] eqn:E.
  - destruct (is_space c); [discriminate|]. intros H. injection H as <-. now left.
  - intros H. injection H as <-. right. split; [discriminate | reflexivity].
Qed.

Lemma collapse_nonempty (s : string) : forall b,
  trimEnd s = s -> s <> EmptyString -> collapse b s <> EmptyString.
Proof.
  induction s as [|c r IH]; intros b Hfix Hne; [contradiction|].
  simpl. destruct (is_space c) eqn:E; [|discriminate].
  destruct (trimEnd_fixed_inv _ _ Hfix) as [[_ Hc] | [Hr Hfix']]; [congruence|].
  destruct b; [|discriminate]. now apply IH.
Qed.

Lemma trimEnd_cons_nonempty (c : ascii) (r : string) :
  trimEnd r = r -> r <> EmptyString -> trimEnd (String c r) = String c r.
Proof.
  intros Hfix Hne. simpl. rewrite Hfix. destruct r; [contradiction | reflexivity].
Qed.

Lemma trimEnd_collapse (s : string) : forall b,
  trimEnd s = s -> trimEnd (collapse b s) = collapse b s.
Proof.
  induction s as [|c r IH]; intros b Hfix; [reflexivity|].
  destruct (trimEnd_fixed_inv _ _ Hfix) as [[-> Hc] | [Hr Hfix']].
  - simpl. rewrite Hc. simpl. now rewrite Hc.
  - simpl. destruct (is_space c).
    + destruct b; [now apply IH|].
      apply trimEnd_cons_nonempty; [now apply IH | now apply collapse_nonempty].
    + apply trimEnd_cons_nonempty; [now apply IH | now apply collapse_nonempty].
Qed.

Lemma trim_collapse_trim (s : string) :
  trim (collapse false (trim s)) = collapse false (trim s).
Proof.
  unfold trim at 1.
  rewrite trimStart_clean.
  - apply trimEnd_collapse. apply trimEnd_idem.
  - apply collapse_starts_clean. apply trimEnd_starts_clean, trimStart_starts_clean.
Qed.

(** *** Collapsing twice *)

Lemma collapse_idem (s : string) :
  collapse false (collapse false s) = collapse false s
  /\ collapse true (collapse true s) = collapse true s.
Proof.
  induction s as [|c r [IHf IHt]]; simpl; [auto|].
  destruct (is_space c) eqn:E; simpl.
  - split; [|exact IHt]. change (is_space " ") with true. cbv iota. now rewrite IHt.
  - rewrite E, IHf. auto.
Qed.

(** C8 (amended). The canonical form that [hashText] digests (lower-case,
    trim, collapse every run of white space to one space) is idempotent:
    normalising a normalised text changes nothing. *)
Theorem normalized_idempotent (text : string) :
  normalized (normalized text) = normalized text.
Proof.
  rewrite !normalized_collapse.
  set (u := trim (toLowerCase text)).
  assert (Hlow : toLowerCase (collapse false u) = collapse false u).
  { subst u. unfold trim.
    now rewrite toLowerCase_collapse, toLowerCase_trimEnd, toLowerCase_trimStart,
      toLowerCase_idem. }
  rewrite Hlow. subst u. rewrite trim_collapse_trim. apply collapse_idem.
Qed.


(** C8 as stated fails for [quickClean]: a word repeated three times loses
    one repetition per pass, so cleaning a cleaned text changes it again. *)
Lemma quickClean_not_idempotent :
  InputCompressor.quickClean "It is very very very cold" = "It is very very cold"
  /\ InputCompressor.quickClean (InputCompressor.quickClean "It is very very very cold")
     = "It is very cold"
  /\ InputCompressor.quickClean (InputCompressor.quickClean "It is very very very cold")
     <> InputCompressor.quickClean "It is very very very cold".
Proof.
  split; [vm_compute; reflexivity|].
  split; [vm_compute; reflexivity|].
  vm_compute. discriminate.
Qed.

End NormalizeFacts.

(** ** The pipeline *)

Module PipelineFacts.


Import JsStr JsNum JsNumFacts TruthfulnessSpectrum InputCompressor SemanticCache UltraSpeed.
Local Open Scope string_scope.
Local Open Scope list_scope.

(** *** The log *)

Definition append_log (evs : list event) (st : State) : State :=
  mkState (exactCache st) (semanticCache st) (embeddingCache st)
          (clock_reads st) (embedding_requests st) (log st ++ evs).

Definition is_call (e : event) : bool :=
  match e with
  | CallVerifier _ _ _ => true
  | _ => false
  end.

(** Events that are no verifier call. *)
Definition quiet (evs : list event) : Prop := Forall (fun e => is_call e = false) evs.

(** A computation that calls no verifier: it only appends quiet events. *)
Definition calls_nothing {A : Type} (c : M A) : Prop :=
  forall st, exists evs, log (snd (c st)) = log st ++ evs /\ quiet evs.

Lemma quiet_app (a b : list event) : quiet a -> quiet b -> quiet (a ++ b).
Proof. intros Ha Hb. apply Forall_app. now split. Qed.

Lemma quiet_no_call (evs : list event) (b : bucketName) (n i : string) :
  quiet evs -> ~ In (CallVerifier b n i) evs.
Proof.
  intros Hq Hin. unfold quiet in Hq. rewrite Forall_forall in Hq.
  specialize (Hq _ Hin). discriminate.
Qed.

Lemma calls_nothing_ret {A : Type} (a : A) : calls_nothing (ret a).
Proof. intros st. exists []. simpl. rewrite app_nil_r. split; [reflexivity | constructor]. Qed.

Lemma calls_nothing_bind {A B : Type} (c : M A) (f : A -> M B) :
  calls_nothing c -> (forall a, calls_nothing (f a)) -> calls_nothing (bind c f).
Proof.
  intros Hc Hf st. unfold bind.
  destruct (Hc st) as [e1 [L1 Q1]]. destruct (c st) as [a st1]. simpl in L1.
  destruct (Hf a st1) as [e2 [L2 Q2]].
  exists (e1 ++ e2). split; [|now apply quiet_app].
  rewrite L2, L1. now rewrite app_assoc.
Qed.

Lemma calls_nothing_emit (e : event) : is_call e = false -> calls_nothing (emit e).
Proof. intros He st. exists [e]. split; [reflexivity|]. now repeat constructor. Qed.

Lemma calls_nothing_silent {A : Type} (c : M A) :
  (forall st, log (snd (c st)) = log st) -> calls_nothing c.
Proof.
  intros H st. exists []. rewrite app_nil_r. split; [apply H | constructor].
Qed.

Lemma calls_nothing_request (w : World) (input : string) :
  calls_nothing (request_embedding w input).
Proof. intros st. exists [EmbeddingRequest input]. split; [reflexivity|]. now repeat constructor. Qed.

Ltac quietly :=
  repeat first
    [ apply calls_nothing_ret
    | apply calls_nothing_emit; reflexivity
    | apply calls_nothing_request
    | apply calls_nothing_silent; reflexivity
    | apply calls_nothing_bind; [ | intros ? ]
    | match goal with
      | |- calls_nothing (match ?x with _ => _ end) => destruct x
      end ].

Lemma checkExactCache_quiet (w : World) (text : string) :
  calls_nothing (checkExactCache w text).
Proof. unfold checkExactCache. quietly. Qed.

Lemma getEmbedding_quiet (w : World) (text : string) :
  calls_nothing (getEmbedding w text).
Proof. unfold getEmbedding. quietly. Qed.

Lemma checkSemanticCache_quiet (w : World) (text : string) :
  calls_nothing (checkSemanticCache w text).
Proof.
  unfold checkSemanticCache.
  apply calls_nothing_bind; [apply checkExactCache_quiet | intros exact].
  destruct (hit exact); [quietly|].
  apply calls_nothing_bind; [apply getEmbedding_quiet | intros e].
  quietly.
Qed.

Lemma sweep_exact_quiet (w : World) (entries : list (string * ExactEntry)) :
  calls_nothing (sweep_exact w entries).
Proof.
  induction entries as [|[key entry] entries IH]; simpl; [quietly|].
  apply calls_nothing_bind; [quietly | intros t].
  apply calls_nothing_bind; [quietly | intros _]. exact IH.
Qed.

Lemma cacheResult_quiet (w : World) (text : string) (data : PipelineResult.t)
      (embedding : option (list float)) :
  calls_nothing (cacheResult w text data embedding).
Proof.
  unfold cacheResult.
  apply calls_nothing_bind; [quietly | intros timestamp].
  apply calls_nothing_bind; [quietly | intros m].
  apply calls_nothing_bind; [quietly | intros _].
  apply calls_nothing_bind; [quietly | intros _].
  apply calls_nothing_bind; [quietly | intros m1].
  apply calls_nothing_bind.
  { destruct (Nat.ltb 5000 (JsMap.size m1)); [apply sweep_exact_quiet | quietly]. }
  intros _.
  apply calls_nothing_bind.
  { destruct embedding; [quietly | apply getEmbedding_quiet]. }
  intros e. quietly.
Qed.


(** *** Buckets *)

Lemma append_log_nil (st : State) : append_log [] st = st.
Proof. destruct st. unfold append_log. simpl. now rewrite app_nil_r. Qed.

Lemma append_log_app (a b : list event) (st : State) :
  append_log b (append_log a st) = append_log (a ++ b) st.
Proof. unfold append_log. simpl. now rewrite app_assoc. Qed.

Lemma log_append_log (evs : list event) (st : State) :
  log (append_log evs st) = log st ++ evs.
Proof. reflexivity. Qed.

(** The verifier calls of a bucket, as events. *)
Definition calls (b : bucketName) (input : string) : list event :=
  map (fun m => CallVerifier b (name m) input) (models (MODEL_BUCKETS b)).

(** The responses a bucket collects: a pure function of the world. *)
Definition bucket_responses (w : World) (b : bucketName) (input : string) : list Response :=
  filter success
         (map (fun m => runWithTimeout w (fn m) input (timeout (MODEL_BUCKETS b)) (name m))
              (models (MODEL_BUCKETS b))).

Definition tier_result (w : World) (b : bucketName) (input : string) : TierResult.t :=
  computeBucketScore (bucket_responses w b input).

Lemma start_calls_spec (w : World) (b : bucketName) (t : Z) (input : string)
      (ms : list ModelDescriptor) (st : State) :
  start_calls w b t input ms st
  = (map (fun m => runWithTimeout w (fn m) input t (name m)) ms,
     append_log (map (fun m => CallVerifier b (name m) input) ms) st).
Proof.
  revert st. induction ms as [|m ms IH]; intros st.
  - simpl. now rewrite append_log_nil.
  - cbn [start_calls]. unfold bind at 1. cbn [emit]. unfold bind. rewrite IH.
    cbn [ret map]. f_equal.
    change (mkState _ _ _ _ _ (log st ++ [CallVerifier b (name m) input]))
      with (append_log [CallVerifier b (name m) input] st).
    now rewrite append_log_app.
Qed.

Lemma runBucket_spec (w : World) (b : bucketName) (text : string)
      (compressedText : option string) (st : State) :
  let input := inputText b text compressedText in
  runBucket w b text compressedText st
  = (mkBucketRun b (bucket_responses w b input)
                 (List.length (bucket_responses w b input))
                 (List.length (models (MODEL_BUCKETS b))),
     append_log (calls b input) st).
Proof.
  intros input. unfold runBucket, bind. rewrite start_calls_spec. reflexivity.
Qed.

(** *** The tiers *)

(** What [run_tiers] computes and logs, as pure functions of the world. *)
Definition tiers_of (w : World) (cleanedText compressedText : string) : Tiers :=
  let fastR := tier_result w FAST cleanedText in
  let used_fast := map model (bucket_responses w FAST cleanedText) in
  if negb (shouldRunMidBucket fastR) then
    mkTiers fastR None None (mkUsedModels used_fast [] []) true true
  else
    let midIn := inputText MID cleanedText (Some compressedText) in
    let midR := tier_result w MID midIn in
    let used_mid := map model (bucket_responses w MID midIn) in
    if negb (shouldRunFullBucket fastR (Some midR)) then
      mkTiers fastR (Some midR) None (mkUsedModels used_fast used_mid []) false true
    else
      let fullIn := inputText FULL cleanedText (Some compressedText) in
      mkTiers fastR (Some midR) (Some (tier_result w FULL fullIn))
              (mkUsedModels used_fast used_mid
                            (map model (bucket_responses w FULL fullIn)))
              false false.

Definition tier_events (w : World) (cleanedText compressedText : string) : list event :=
  let fastR := tier_result w FAST cleanedText in
  calls FAST cleanedText
  ++ (if negb (shouldRunMidBucket fastR) then []
      else
        let midIn := inputText MID cleanedText (Some compressedText) in
        calls MID midIn
        ++ (if negb (shouldRunFullBucket fastR (Some (tier_result w MID midIn))) then []
            else calls FULL (inputText FULL cleanedText (Some compressedText)))).

Lemma run_tiers_spec (w : World) (cleanedText compressedText : string) (st : State) :
  run_tiers w cleanedText compressedText st
  = (tiers_of w cleanedText compressedText,
     append_log (tier_events w cleanedText compressedText) st).
Proof.
  unfold run_tiers, tiers_of, tier_events, bind.
  rewrite runBucket_spec. cbv zeta. cbn [responses inputText].
  fold (tier_result w FAST cleanedText).
  destruct (negb (shouldRunMidBucket (tier_result w FAST cleanedText))).
  - cbn [ret]. now rewrite app_nil_r.
  - rewrite runBucket_spec. cbv zeta. cbn [responses].
    set (midIn := inputText MID cleanedText (Some compressedText)).
    fold (tier_result w MID midIn).
    destruct (negb (shouldRunFullBucket _ _)).
    + cbn [ret]. rewrite append_log_app. now rewrite app_nil_r.
    + rewrite runBucket_spec. cbv zeta. cbn [responses ret].
      now rewrite !append_log_app.
Qed.


(** *** A fresh check *)

(** The text handed to the MID and FULL verifiers. *)
Definition compressed_text (w : World) (cleanedText : string) : string :=
  if Nat.ltb COMPRESS_THRESHOLD (String.length cleanedText)
  then compressed (compressForInference w cleanedText)
  else cleanedText.

Definition compression_info (w : World) (cleanedText : string) : option CompressionInfo :=
  if Nat.ltb COMPRESS_THRESHOLD (String.length cleanedText)
  then let compression := compressForInference w cleanedText in
       Some (mkCompressionInfo (String.length cleanedText)
                               (String.length (compressed compression))
                               (ratio compression) (method compression))
  else None.

(** The result of a fresh check, as a pure function of the world. *)
Definition fresh_result (w : World) (text cleanedText : string) : PipelineResult.t :=
  let tiers := tiers_of w cleanedText (compressed_text w cleanedText) in
  let merged := mergeResults (fastResult tiers) (midResult tiers) (fullResult tiers) in
  let verdict := getVerdictFromScore (Merged.score merged) in
  let sourceResults := quickSearchSources w cleanedText 4000 in
  PipelineResult.Build
    "fact_check" text (Merged.score merged) (Some (Merged.confidence merged))
    (Some verdict) (getSpectrumMessage (Merged.score merged) (toLowerCase verdict)) None
    (used tiers) (Merged.breakdown merged)
    (match sr_sources sourceResults with Some l => l | None => [] end)
    (sr_provider sourceResults)
    (Ran (skippedMid tiers) (skippedFull tiers) (Merged.source merged)
         (compression_info w cleanedText))
    false None None.

Lemma fresh_check_spec (w : World) (text cleanedText : string) (st st' : State)
      (res : PipelineResult.t) :
  fresh_check w text cleanedText st = (res, st') ->
  exists pre post,
    quiet pre /\ quiet post
    /\ res = fresh_result w text cleanedText
    /\ log st' = log st ++ pre
                        ++ tier_events w cleanedText (compressed_text w cleanedText)
                        ++ post.
Proof.
  unfold fresh_check, precomputeEmbedding. intros H.
  unfold bind at 1 in H.
  destruct (getEmbedding_quiet w cleanedText st) as [e1 [L1 Q1]].
  destruct (getEmbedding w cleanedText st) as [embedding st1]. simpl in L1.
  unfold bind at 1 in H. cbn [emit] in H.
  set (st2 := mkState _ _ _ _ _ (log st1 ++ [SourceSearch cleanedText])) in H.
  unfold fresh_result, compressed_text, compression_info.
  destruct (Nat.ltb COMPRESS_THRESHOLD (String.length cleanedText)).
  - unfold bind at 1 in H. unfold bind at 1 in H. cbn [emit ret] in H.
    cbv beta iota zeta in H.
    set (st3 := mkState _ _ _ _ _ (log st2 ++ [CompressCall cleanedText])) in H.
    unfold bind at 1 in H. rewrite run_tiers_spec in H.
    set (result := PipelineResult.Build _ _ _ _ _ _ _ _ _ _ _ _ _ _ _) in H.
    unfold bind in H.
    destruct (cacheResult_quiet w cleanedText result embedding
                (append_log (tier_events w cleanedText
                               (compressed (compressForInference w cleanedText))) st3))
      as [e2 [L2 Q2]].
    destruct (cacheResult w cleanedText result embedding _) as [u st4].
    simpl in L2. cbn [ret] in H. injection H as <- <-.
    exists (e1 ++ [SourceSearch cleanedText; CompressCall cleanedText]), e2.
    split; [apply quiet_app; [exact Q1 | now repeat constructor]|].
    split; [exact Q2|]. split; [reflexivity|].
    rewrite L2. subst st3 st2. cbn [log append_log]. rewrite L1.
    rewrite <- !app_assoc. reflexivity.
  - unfold bind at 1 in H. cbn [ret] in H. cbv beta iota zeta in H.
    unfold bind at 1 in H. rewrite run_tiers_spec in H.
    set (result := PipelineResult.Build _ _ _ _ _ _ _ _ _ _ _ _ _ _ _) in H.
    unfold bind in H.
    destruct (cacheResult_quiet w cleanedText result embedding
                (append_log (tier_events w cleanedText cleanedText) st2))
      as [e2 [L2 Q2]].
    destruct (cacheResult w cleanedText result embedding _) as [u st4].
    simpl in L2. cbn [ret] in H. injection H as <- <-.
    exists (e1 ++ [SourceSearch cleanedText]), e2.
    split; [apply quiet_app; [exact Q1 | now repeat constructor]|].
    split; [exact Q2|]. split; [reflexivity|].
    rewrite L2. subst st2. cbn [log append_log]. rewrite L1.
    rewrite <- !app_assoc. reflexivity.
Qed.

(** *** The three ways a request ends *)

(** How a request went, read off its result [res], and the events [new]
    it added to the log. *)
Inductive path (w : World) (text : string) (res : PipelineResult.t)
          (new : list event) : Prop :=
| PersonalPath :
    isPersonal (detectPersonalStatement text) = true ->
    res = personal_result text (detectPersonalStatement text) ->
    new = [] ->
    path w text res new
| CachedPath (data : PipelineResult.t) (cacheType : string)
             (similarity : option (option float)) :
    isPersonal (detectPersonalStatement text) = false ->
    res = from_cache data cacheType similarity ->
    quiet new ->
    path w text res new
| FreshPath (pre post : list event) :
    isPersonal (detectPersonalStatement text) = false ->
    quiet pre -> quiet post ->
    res = fresh_result w text (quickClean text) ->
    new = pre ++ tier_events w (quickClean text) (compressed_text w (quickClean text))
              ++ post ->
    path w text res new.

Lemma semantic_then_fresh (w : World) (text : string) (st st' : State)
      (res : PipelineResult.t) :
  isPersonal (detectPersonalStatement text) = false ->
  bind (checkSemanticCache w (quickClean text))
       (fun semanticHit =>
          match semanticHit with
          | HitExact data => ret (from_cache data "semantic" (Some None))
          | HitSemantic similarity data _ =>
              ret (from_cache data "semantic" (Some (Some similarity)))
          | Miss _ _ => fresh_check w text (quickClean text)
          end) st = (res, st') ->
  exists new, log st' = log st ++ new /\ path w text res new.
Proof.
  intros Hp H. unfold bind in H.
  destruct (checkSemanticCache_quiet w (quickClean text) st) as [e2 [L2 Q2]].
  destruct (checkSemanticCache w (quickClean text) st) as [semanticHit st2].
  simpl in L2.
  destruct semanticHit as [data | similarity data orig | reason emb].
  - cbn [ret] in H. injection H as <- <-. exists e2. split; [exact L2|].
    now apply CachedPath with (data := data) (cacheType := "semantic") (similarity := Some None).
  - cbn [ret] in H. injection H as <- <-. exists e2. split; [exact L2|].
    now apply CachedPath with (data := data) (cacheType := "semantic")
                             (similarity := Some (Some similarity)).
  - apply fresh_check_spec in H. destruct H as [pre [post [Qpre [Qpost [Hres Hlog]]]]].
    exists (e2 ++ pre
               ++ tier_events w (quickClean text) (compressed_text w (quickClean text))
               ++ post).
    split; [rewrite Hlog, L2; now rewrite <- !app_assoc|].
    apply FreshPath with (pre := e2 ++ pre) (post := post); auto.
    + now apply quiet_app.
    + now rewrite <- !app_assoc.
Qed.

Lemma ultraSpeedCheck_path (w : World) (text : string) (st st' : State)
      (res : PipelineResult.t) :
  ultraSpeedCheck w text st = (res, st') ->
  exists new, log st' = log st ++ new /\ path w text res new.
Proof.
  unfold ultraSpeedCheck. intros H.
  destruct (isPersonal (detectPersonalStatement text)) eqn:Hp.
  - cbn [ret] in H. injection H as <- <-. exists []. split; [now rewrite app_nil_r|].
    now apply PersonalPath.
  - unfold bind at 1 in H.
    destruct (checkExactCache_quiet w (quickClean text) st) as [e1 [L1 Q1]].
    destruct (checkExactCache w (quickClean text) st) as [exactHit st1]. simpl in L1.
    destruct exactHit as [data | similarity data orig | reason emb].
    + cbn [ret] in H. injection H as <- <-. exists e1. split; [exact L1|].
      now apply CachedPath with (data := data) (cacheType := "exact") (similarity := None).
    + apply (semantic_then_fresh _ _ _ _ _ Hp) in H. destruct H as [new [Hlog Hpath]].
      exists (e1 ++ new). split; [rewrite Hlog, L1; now rewrite app_assoc|].
      destruct Hpath as [Hp' _ _ | data' ty sim _ Hres Hq | pre post _ Qpre Qpost Hres Hnew];
        [congruence | |].
      * apply CachedPath with (data := data') (cacheType := ty) (similarity := sim); auto.
        now apply quiet_app.
      * apply FreshPath with (pre := e1 ++ pre) (post := post); auto.
        -- now apply quiet_app.
        -- rewrite Hnew. now rewrite <- !app_assoc.
    + apply (semantic_then_fresh _ _ _ _ _ Hp) in H. destruct H as [new [Hlog Hpath]].
      exists (e1 ++ new). split; [rewrite Hlog, L1; now rewrite app_assoc|].
      destruct Hpath as [Hp' _ _ | data' ty sim _ Hres Hq | pre post _ Qpre Qpost Hres Hnew];
        [congruence | |].
      * apply CachedPath with (data := data') (cacheType := ty) (similarity := sim); auto.
        now apply quiet_app.
      * apply FreshPath with (pre := e1 ++ pre) (post := post); auto.
        -- now apply quiet_app.
        -- rewrite Hnew. now rewrite <- !app_assoc.
Qed.


(** *** Escalation *)

(** Some verifier of bucket [b] was called. *)
Definition calls_to (b : bucketName) (evs : list event) : Prop :=
  exists n i, In (CallVerifier b n i) evs.

Lemma in_calls (b b' : bucketName) (n i input : string) :
  In (CallVerifier b n i) (calls b' input) -> b = b'.
Proof.
  unfold calls. intros H. apply in_map_iff in H. destruct H as [m [E _]]. congruence.
Qed.

Lemma calls_inhabited (b : bucketName) (input : string) : calls_to b (calls b input).
Proof. destruct b; eexists; eexists; left; reflexivity. Qed.

Lemma calls_to_app (b : bucketName) (l1 l2 : list event) :
  calls_to b (l1 ++ l2) <-> calls_to b l1 \/ calls_to b l2.
Proof.
  unfold calls_to. split.
  - intros [n [i H]]. apply in_app_or in H. destruct H; [left | right]; eauto.
  - intros [[n [i H]] | [n [i H]]]; exists n, i; apply in_or_app; auto.
Qed.

Lemma quiet_calls_to (b : bucketName) (evs : list event) : quiet evs -> ~ calls_to b evs.
Proof. intros Hq [n [i H]]. exact (quiet_no_call _ _ _ _ Hq H). Qed.

Lemma calls_to_calls (b b' : bucketName) (input : string) :
  calls_to b (calls b' input) -> b = b'.
Proof. intros [n [i H]]. exact (in_calls _ _ _ _ _ H). Qed.

(** If [x] occurs in [a ++ b] but not in [a], everything before its
    occurrence starts with [a]. *)
Lemma prefix_before {A : Type} (x : A) (a : list A) : forall b l1 l2,
  a ++ b = l1 ++ x :: l2 -> ~ In x a -> exists a', l1 = a ++ a'.
Proof.
  induction a as [|y a IH]; intros b l1 l2 E Hx; [now exists l1|].
  destruct l1 as [|z l1]; simpl in E; injection E as -> E.
  - elim Hx. now left.
  - destruct (IH _ _ _ E) as [a' ->]; [intros H; apply Hx; now right|].
    now exists a'.
Qed.

(** The gate stays closed at confidence >= 0.88 with agreement. *)
Lemma gate_closed (fastR : TierResult.t) :
  geb (TierResult.confidence fastR) SKIP_MID_THRESHOLD = true ->
  TierResult.agreement fastR = true ->
  shouldRunMidBucket fastR = false.
Proof.
  unfold geb, shouldRunMidBucket. intros Hc Ha.
  now rewrite (leb_not_gtb _ _ Hc), Ha.
Qed.

(** C1. Escalation monotonicity.  For every request, with [new] the events
    it adds to the log: (1) if it reaches the FAST tier and the FAST result
    has confidence >= 0.88 and agreement, no MID and no FULL verifier is
    called and the [mid] and [full] lists of [usedModels] are empty;
    (2) if no MID verifier is called, no FULL verifier is called; and
    (3) every call of a FULL verifier comes after a call of a MID
    verifier. *)
Theorem escalation_monotonicity (w : World) (text : string) (st st' : State)
        (res : PipelineResult.t) :
  ultraSpeedCheck w text st = (res, st') ->
  exists new,
    log st' = log st ++ new
    /\ (calls_to FAST new ->
        geb (TierResult.confidence (tier_result w FAST (quickClean text)))
            SKIP_MID_THRESHOLD = true ->
        TierResult.agreement (tier_result w FAST (quickClean text)) = true ->
        ~ calls_to MID new /\ ~ calls_to FULL new
        /\ mid (PipelineResult.usedModels res) = []
        /\ full (PipelineResult.usedModels res) = [])
    /\ (~ calls_to MID new -> ~ calls_to FULL new)
    /\ (forall before n i after,
           new = before ++ CallVerifier FULL n i :: after -> calls_to MID before).
Proof.
  intros H. apply ultraSpeedCheck_path in H. destruct H as [new [Hlog Hpath]].
  exists new. split; [exact Hlog|].
  destruct Hpath as [_ _ -> | data ty sim _ _ Hq | pre post _ Qpre Qpost -> Hnew].
  - (* personal: nothing was logged *)
    split; [intros [n [i []]]|]. split; [intros _ [n [i []]]|].
    intros [|e before] n i after E; discriminate.
  - (* served from a cache: no verifier call *)
    split; [intros Hf; elim (quiet_calls_to FAST _ Hq Hf)|].
    split; [intros _; apply (quiet_calls_to FULL _ Hq)|].
    intros before n i after E. elim (quiet_no_call _ FULL n i Hq).
    rewrite E. apply in_or_app. right. now left.
  - (* a fresh check *)
    set (cleaned := quickClean text) in *.
    set (z := compressed_text w cleaned) in *.
    unfold tier_events in Hnew. unfold fresh_result, tiers_of. fold z.
    set (fastR := tier_result w FAST cleaned) in *.
    destruct (shouldRunMidBucket fastR) eqn:Gmid; cbn [negb] in *.
    + (* MID runs *)
      set (midIn := inputText MID cleaned (Some z)) in *.
      assert (HM : calls_to MID new).
      { rewrite Hnew. apply calls_to_app. right. apply calls_to_app. left.
        apply calls_to_app. right. apply calls_to_app. left. apply calls_inhabited. }
      split; [intros _ Hc Ha; rewrite (gate_closed fastR Hc Ha) in Gmid; discriminate|].
      split; [intros Hno; elim (Hno HM)|].
      intros before n i after E.
      destruct (negb (shouldRunFullBucket fastR (Some (tier_result w MID midIn)))).
      * (* FULL skipped: there is no FULL call to speak of *)
        exfalso.
        assert (Hin : In (CallVerifier FULL n i) new).
        { rewrite E. apply in_or_app. right. now left. }
        rewrite Hnew in Hin.
        repeat (apply in_app_or in Hin; destruct Hin as [Hin | Hin]);
          try (exact (quiet_no_call _ _ _ _ Qpre Hin));
          try (exact (quiet_no_call _ _ _ _ Qpost Hin));
          try (apply in_calls in Hin; discriminate).
        destruct Hin.
      * (* FULL ran, after MID *)
        assert (E' : (pre ++ calls FAST cleaned ++ calls MID midIn)
                       ++ (calls FULL (inputText FULL cleaned (Some z)) ++ post)
                     = before ++ CallVerifier FULL n i :: after).
        { rewrite <- E, Hnew. now rewrite <- !app_assoc. }
        apply prefix_before in E'.
        -- destruct E' as [a' ->]. apply calls_to_app. left.
           apply calls_to_app. right. apply calls_to_app. right. apply calls_inhabited.
        -- intros Hin.
           repeat (apply in_app_or in Hin; destruct Hin as [Hin | Hin]);
             try (exact (quiet_no_call _ _ _ _ Qpre Hin));
             try (apply in_calls in Hin; discriminate).
    + (* the gate is closed: FAST alone *)
      assert (Hnone : forall b, b <> FAST -> ~ calls_to b new).
      { intros b Hb Hc. rewrite Hnew in Hc.
        apply calls_to_app in Hc. destruct Hc as [Hc | Hc];
          [exact (quiet_calls_to b _ Qpre Hc)|].
        apply calls_to_app in Hc. destruct Hc as [Hc | Hc];
          [|exact (quiet_calls_to b _ Qpost Hc)].
        rewrite app_nil_r in Hc. apply calls_to_calls in Hc. contradiction. }
      split; [intros _ _ _|split].
      * split; [apply Hnone; discriminate|]. split; [apply Hnone; discriminate|].
        split; reflexivity.
      * intros _. apply Hnone. discriminate.
      * intros before n i after E. exfalso. apply (Hnone FULL); [discriminate|].
        exists n, i. rewrite E. apply in_or_app. right. now left.
Qed.


(** A request whose three FAST verifiers all answer true with confidence
    90, on empty caches. *)
Definition unanimous_world : World :=
  mkWorld (fun s => s) (fun n => Z.of_nat n) true (fun _ _ => Some [1%float; 0%float])
          (fun _ _ _ _ => Returned (mkModelResult (Some "true") (Some 90%float)))
          (fun _ _ => mkSourceResults (Some []) (Some "timeout"))
          (fun s => mkCompression s 1%float "local").

Definition empty_state : State := mkState [] [] [] 0 0 [].

Definition sample_claim : string := "The Eiffel Tower is located in Paris, France".

Lemma escalation_monotonicity_witness :
  mid (PipelineResult.usedModels
         (fst (ultraSpeedCheck unanimous_world sample_claim empty_state))) = []
  /\ full (PipelineResult.usedModels
             (fst (ultraSpeedCheck unanimous_world sample_claim empty_state))) = [].
Proof.
  destruct (escalation_monotonicity unanimous_world sample_claim empty_state _ _
              (surjective_pairing _)) as [new [Hlog [H1 _]]].
  vm_compute in Hlog. subst new.
  refine (proj2 (proj2 (H1 _ _ _))).
  - exists "GPT-4o-mini", sample_claim. simpl. tauto.
  - vm_compute. reflexivity.
  - vm_compute. reflexivity.
Defined.

(** *** Timeouts and errors inside a tier *)

(** The response synthesised for a call that timed out. *)
Definition timed_out (modelName : string) : Response :=
  mkResponse true modelName (Some "unverifiable") (Some 25%float)
             (Some "Model timed out") true None.

Lemma runWithTimeout_model (w : World) (f : verifier) (text : string) (t : Z)
      (modelName : string) :
  model (runWithTimeout w f text t modelName) = modelName.
Proof.
  unfold runWithTimeout. destruct (awaited _) as [r | message]; [reflexivity|].
  destruct (String.eqb message "TIMEOUT"); reflexivity.
Qed.

Lemma bucket_names_distinct (b : bucketName) (m m' : ModelDescriptor) :
  In m (models (MODEL_BUCKETS b)) -> In m' (models (MODEL_BUCKETS b)) ->
  name m = name m' -> m = m'.
Proof.
  destruct b; simpl; intros H H' E;
    repeat (destruct H as [<- | H]; [|]); try contradiction;
    repeat (destruct H' as [<- | H']; [|]); try contradiction;
    first [reflexivity | discriminate E].
Qed.

Lemma filter_drops {A : Type} (p : A -> bool) (l : list A) (x : A) :
  In x l -> p x = false -> List.length (filter p l) < List.length l.
Proof.
  induction l as [|y l IH]; intros Hin Hp; [destruct Hin|].
  simpl. pose proof (filter_length_le p l) as Hle.
  destruct Hin as [-> | Hin].
  - rewrite Hp. lia.
  - specialize (IH Hin Hp). destruct (p y); simpl; lia.
Qed.

(** C5. Within a tier, a verifier call whose timer fires first returns
    normally and contributes the response [unverifiable], confidence 25,
    [timedOut] true to the tier's response set; a call that fails with an
    error (any message other than the timer's) contributes no response,
    and the tier is left with fewer responses than it has verifiers. *)
Theorem timeout_degrades_error_drops (w : World) (b : bucketName) (text : string)
        (compressedText : option string) (st : State) (m : ModelDescriptor) :
  In m (models (MODEL_BUCKETS b)) ->
  let input := inputText b text compressedText in
  let t := timeout (MODEL_BUCKETS b) in
  let run := fst (runBucket w b text compressedText st) in
  (race w (fn m) input t (name m) = TimerFirst ->
   runWithTimeout w (fn m) input t (name m) = timed_out (name m)
   /\ In (timed_out (name m)) (responses run))
  /\ (forall message,
         race w (fn m) input t (name m) = Threw message -> message <> "TIMEOUT" ->
         success (runWithTimeout w (fn m) input t (name m)) = false
         /\ (forall r, In r (responses run) -> model r <> name m)
         /\ modelCount run < totalModels run).
Proof.
  intros Hm input t run. subst run. rewrite runBucket_spec. cbn [fst responses].
  fold input. unfold bucket_responses. fold t.
  split.
  - intros Hrace.
    assert (E : runWithTimeout w (fn m) input t (name m) = timed_out (name m)).
    { unfold runWithTimeout. rewrite Hrace. reflexivity. }
    split; [exact E|].
    apply filter_In. split; [|reflexivity].
    apply in_map_iff. exists m. now split.
  - intros message Hrace Hmsg.
    assert (E : success (runWithTimeout w (fn m) input t (name m)) = false).
    { unfold runWithTimeout. rewrite Hrace. cbn [awaited].
      destruct (String.eqb message "TIMEOUT") eqn:Eq; [|reflexivity].
      apply String.eqb_eq in Eq. contradiction. }
    split; [exact E|]. split.
    + intros r Hr Hname. apply filter_In in Hr. destruct Hr as [Hr Hs].
      apply in_map_iff in Hr. destruct Hr as [m' [<- Hm']].
      rewrite runWithTimeout_model in Hname.
      rewrite (bucket_names_distinct b m' m Hm' Hm Hname) in Hs. congruence.
    + cbn [modelCount totalModels].
      rewrite <- (length_map (fun m0 => runWithTimeout w (fn m0) input t (name m0))
                             (models (MODEL_BUCKETS b))).
      apply filter_drops with (x := runWithTimeout w (fn m) input t (name m)); [|exact E].
      apply in_map_iff. exists m. now split.
Qed.

(** A world in which the first FAST verifier is too slow and the second
    fails outright. *)
Definition flaky_world : World :=
  mkWorld (fun s => s) (fun n => Z.of_nat n) true (fun _ _ => None)
          (fun f _ _ _ =>
             match f with
             | checkWithOpenAI => TimerFirst
             | checkWithGoogle => Threw "Google failed: API returned 500"
             | _ => Returned (mkModelResult (Some "true") (Some 90%float))
             end)
          (fun _ _ => mkSourceResults (Some []) (Some "timeout"))
          (fun s => mkCompression s 1%float "local").

Lemma timeout_degrades_error_drops_witness :
  In (timed_out "GPT-4o-mini")
     (responses (fst (runBucket flaky_world FAST sample_claim None empty_state)))
  /\ modelCount (fst (runBucket flaky_world FAST sample_claim None empty_state))
     < totalModels (fst (runBucket flaky_world FAST sample_claim None empty_state)).
Proof.
  split.
  - refine (proj2 (proj1 (timeout_degrades_error_drops
                            flaky_world FAST sample_claim None empty_state
                            (mkModel "GPT-4o-mini" checkWithOpenAI 1.0) _) _)).
    + left. reflexivity.
    + reflexivity.
  - refine (proj2 (proj2 (proj2 (timeout_degrades_error_drops
                            flaky_world FAST sample_claim None empty_state
                            (mkModel "Gemini-Flash" checkWithGoogle 1.0) _)
                            "Google failed: API returned 500" _ _))).
    + right. left. reflexivity.
    + reflexivity.
    + discriminate.
Defined.


(** *** The personal short-circuit *)

(** On the personal path the pipeline returns before touching anything. *)
Lemma personal_returns_at_once (w : World) (text : string) (st : State) :
  isPersonal (detectPersonalStatement text) = true ->
  ultraSpeedCheck w text st = (personal_result text (detectPersonalStatement text), st).
Proof. intros Hp. unfold ultraSpeedCheck. now rewrite Hp. Qed.

(** C7. A text the personal-statement filter classifies as personal makes
    the pipeline return at once: mode [personal], no score, no verifier
    listed, and the state (both caches and the log of verifier calls and
    cache operations) exactly as it was, so that no verifier is called and
    neither cache is consulted. *)
Theorem personal_short_circuit (w : World) (text : string) (st : State) :
  isPersonal (detectPersonalStatement text) = true ->
  ultraSpeedCheck w text st = (personal_result text (detectPersonalStatement text), st)
  /\ PipelineResult.mode (fst (ultraSpeedCheck w text st)) = "personal"
  /\ PipelineResult.score (fst (ultraSpeedCheck w text st)) = None
  /\ PipelineResult.usedModels (fst (ultraSpeedCheck w text st)) = mkUsedModels [] [] []
  /\ PipelineResult.pipelineInfo (fst (ultraSpeedCheck w text st)) = SkippedAll "personal"
  /\ log (snd (ultraSpeedCheck w text st)) = log st
  /\ exactCache (snd (ultraSpeedCheck w text st)) = exactCache st
  /\ semanticCache (snd (ultraSpeedCheck w text st)) = semanticCache st.
Proof.
  intros Hp. rewrite (personal_returns_at_once w text st Hp). repeat split.
Qed.

Lemma personal_short_circuit_witness :
  PipelineResult.mode
    (fst (ultraSpeedCheck flaky_world "I'm so happy today, my friend got me coffee"
                          empty_state)) = "personal"
  /\ PipelineResult.score
       (fst (ultraSpeedCheck flaky_world "I'm so happy today, my friend got me coffee"
                             empty_state)) = None.
Proof.
  pose proof (personal_short_circuit
                flaky_world "I'm so happy today, my friend got me coffee" empty_state)
    as H.
  assert (Hp : isPersonal (detectPersonalStatement
                             "I'm so happy today, my friend got me coffee") = true)
    by (vm_compute; reflexivity).
  destruct (H Hp) as [_ [Hmode [Hscore _]]]. split; assumption.
Defined.

(** *** Short inputs *)








(** *** A tier of timeouts *)

(** C9. If every FAST verifier call times out, the FAST tier scores 35
    with agreement and confidence 0.92, the gate does not escalate, and a
    request that reaches the FAST tier completes with score 35, confidence
    0.92, verdict label [FALSE], source [fast], MID and FULL skipped and
    none of their verifiers called. *)
Theorem all_fast_timeouts (w : World) (text : string) :
  (forall m, In m (models (MODEL_BUCKETS FAST)) ->
             race w (fn m) (quickClean text) FAST_TIMEOUT (name m) = TimerFirst) ->
  bucket_responses w FAST (quickClean text)
  = [timed_out "GPT-4o-mini"; timed_out "Gemini-Flash"; timed_out "Perplexity-Lite"]
  /\ TierResult.score (tier_result w FAST (quickClean text)) = Some 35%float
  /\ TierResult.agreement (tier_result w FAST (quickClean text)) = true
  /\ TierResult.confidence (tier_result w FAST (quickClean text)) = 0.92%float
  /\ shouldRunMidBucket (tier_result w FAST (quickClean text)) = false
  /\ (forall st res st' new,
         ultraSpeedCheck w text st = (res, st') ->
         log st' = log st ++ new ->
         calls_to FAST new ->
         PipelineResult.score res = Some 35%float
         /\ PipelineResult.confidence res = Some 0.92%float
         /\ PipelineResult.loraVerdict res = Some "FALSE"
         /\ PipelineResult.pipelineInfo res
            = Ran true true "fast" (compression_info w (quickClean text))
         /\ ~ calls_to MID new /\ ~ calls_to FULL new).
Proof.
  intros Hall.
  assert (Hresp : bucket_responses w FAST (quickClean text)
                  = [timed_out "GPT-4o-mini"; timed_out "Gemini-Flash";
                     timed_out "Perplexity-Lite"]).
  { unfold bucket_responses. cbn [MODEL_BUCKETS models timeout map name fn].
    unfold runWithTimeout.
    pose proof (Hall (mkModel "GPT-4o-mini" checkWithOpenAI 1.0)) as H1.
    pose proof (Hall (mkModel "Gemini-Flash" checkWithGoogle 1.0)) as H2.
    pose proof (Hall (mkModel "Perplexity-Lite" checkWithPerplexity 0.9)) as H3.
    cbn [fn name] in H1, H2, H3.
    rewrite H1, H2, H3 by (simpl; tauto).
    reflexivity. }
  assert (Htier : tier_result w FAST (quickClean text)
                  = computeBucketScore
                      [timed_out "GPT-4o-mini"; timed_out "Gemini-Flash";
                       timed_out "Perplexity-Lite"]).
  { unfold tier_result. now rewrite Hresp. }
  split; [exact Hresp|].
  split; [rewrite Htier; vm_compute; reflexivity|].
  split; [rewrite Htier; vm_compute; reflexivity|].
  split; [rewrite Htier; vm_compute; reflexivity|].
  assert (Hgate : shouldRunMidBucket (tier_result w FAST (quickClean text)) = false)
    by (rewrite Htier; vm_compute; reflexivity).
  split; [exact Hgate|].
  intros st res st' new Hrun Hlog Hfast.
  apply ultraSpeedCheck_path in Hrun. destruct Hrun as [new' [Hlog' Hpath]].
  assert (new' = new) by (apply (app_inv_head (log st)); congruence). subst new'.
  destruct Hpath as [_ _ -> | data ty sim _ _ Hq | pre post _ Qpre Qpost -> Hnew].
  - destruct Hfast as [n [i []]].
  - elim (quiet_calls_to FAST _ Hq Hfast).
  - unfold tier_events in Hnew. rewrite Hgate in Hnew. cbn [negb] in Hnew.
    unfold fresh_result, tiers_of. rewrite Hgate. cbn [negb].
    cbn [fastResult midResult fullResult skippedMid skippedFull used].
    rewrite Htier.
    split; [vm_compute; reflexivity|]. split; [vm_compute; reflexivity|].
    split; [vm_compute; reflexivity|]. split; [reflexivity|].
    assert (Hnone : forall b, b <> FAST -> ~ calls_to b new).
    { intros b Hb Hc. rewrite Hnew in Hc.
      apply calls_to_app in Hc. destruct Hc as [Hc | Hc];
        [exact (quiet_calls_to b _ Qpre Hc)|].
      apply calls_to_app in Hc. destruct Hc as [Hc | Hc];
        [|exact (quiet_calls_to b _ Qpost Hc)].
      rewrite app_nil_r in Hc. apply calls_to_calls in Hc. contradiction. }
    split; apply Hnone; discriminate.
Qed.

(** A world whose every verifier is too slow. *)
Definition stalled_world : World :=
  mkWorld (fun s => s) (fun n => Z.of_nat n) true (fun _ _ => None)
          (fun _ _ _ _ => TimerFirst)
          (fun _ _ => mkSourceResults (Some []) (Some "timeout"))
          (fun s => mkCompression s 1%float "local").

Lemma all_fast_timeouts_witness :
  PipelineResult.score (fst (ultraSpeedCheck stalled_world sample_claim empty_state))
  = Some 35%float
  /\ PipelineResult.loraVerdict (fst (ultraSpeedCheck stalled_world sample_claim empty_state))
     = Some "FALSE".
Proof.
  assert (Hall : forall m, In m (models (MODEL_BUCKETS FAST)) ->
                           race stalled_world (fn m) (quickClean sample_claim)
                                FAST_TIMEOUT (name m) = TimerFirst)
    by (intros m _; reflexivity).
  destruct (all_fast_timeouts stalled_world sample_claim Hall) as [_ [_ [_ [_ [_ H]]]]].
  destruct (H empty_state _ _
              (log (snd (ultraSpeedCheck stalled_world sample_claim empty_state)))
              (surjective_pairing _) eq_refl) as [Hs [_ [Hv _]]].
  - exists "GPT-4o-mini", sample_claim. vm_compute. tauto.
  - split; assumption.
Defined.


(** *** The final score *)


(** The spec's scenario as a request: FAST scores 90 but disagrees, MID
    and FULL contradict it, and FULL scores 10. *)
Definition contradicting_world : World :=
  mkWorld (fun s => s) (fun n => Z.of_nat n) true (fun _ _ => None)
          (fun _ _ _ modelName =>
             if String.eqb modelName "GPT-4o-mini" || String.eqb modelName "Gemini-Flash"
             then Returned (mkModelResult (Some "true") (Some 90%float))
             else if String.eqb modelName "Perplexity-Lite"
             then Returned (mkModelResult (Some "false") (Some 20%float))
             else if String.eqb modelName "Perplexity-Full"
             then Returned (mkModelResult (Some "true") (Some 30%float))
             else Returned (mkModelResult (Some "false") (Some 90%float)))
          (fun _ _ => mkSourceResults (Some []) (Some "timeout"))
          (fun s => mkCompression s 1%float "local").


End PipelineFacts.

(* ===================================================================== *)
(** * Further properties: the cache, the scheduler, the scorer and the filters *)
(* ===================================================================== *)

From Stdlib Require Import Permutation Sorted.

(** ** The order of binary64 numbers *)

Module FloatOrder.
Import JsNum JsNumFacts.
Local Open Scope float_scope.

Lemma cmp_lex_trans (e1 e2 e3 : Z) (m1 m2 m3 : positive) :
  match (e1 ?= e2)%Z with Lt => Lt | Gt => Gt | Eq => Pos.compare_cont Eq m1 m2 end = Lt ->
  match (e2 ?= e3)%Z with Lt => Lt | Gt => Gt | Eq => Pos.compare_cont Eq m2 m3 end = Lt ->
  match (e1 ?= e3)%Z with Lt => Lt | Gt => Gt | Eq => Pos.compare_cont Eq m1 m3 end = Lt.
Proof.
  change (Pos.compare_cont Eq m1 m2) with (m1 ?= m2)%positive.
  change (Pos.compare_cont Eq m2 m3) with (m2 ?= m3)%positive.
  change (Pos.compare_cont Eq m1 m3) with (m1 ?= m3)%positive.
  destruct (Z.compare_spec e1 e2), (Z.compare_spec e2 e3); try discriminate;
    intros H12 H23; subst.
  - rewrite Z.compare_refl. exact (Pos.lt_trans _ _ _ H12 H23).
  - now apply Z.compare_lt_iff in H0 as ->.
  - now apply Z.compare_lt_iff in H as ->.
  - assert (e1 < e3)%Z as ->%Z.compare_lt_iff by lia. reflexivity.
Qed.

Lemma cmp_lex_trans_opp (e1 e2 e3 : Z) (m1 m2 m3 : positive) :
  match (e1 ?= e2)%Z with Lt => Gt | Gt => Lt
                     | Eq => CompOpp (Pos.compare_cont Eq m1 m2) end = Lt ->
  match (e2 ?= e3)%Z with Lt => Gt | Gt => Lt
                     | Eq => CompOpp (Pos.compare_cont Eq m2 m3) end = Lt ->
  match (e1 ?= e3)%Z with Lt => Gt | Gt => Lt
                     | Eq => CompOpp (Pos.compare_cont Eq m1 m3) end = Lt.
Proof.
  change (Pos.compare_cont Eq m1 m2) with (m1 ?= m2)%positive.
  change (Pos.compare_cont Eq m2 m3) with (m2 ?= m3)%positive.
  change (Pos.compare_cont Eq m1 m3) with (m1 ?= m3)%positive.
  destruct (Z.compare_spec e1 e2), (Z.compare_spec e2 e3); try discriminate;
    intros H12 H23; subst.
  - rewrite Z.compare_refl.
    destruct (Pos.compare_spec m1 m2), (Pos.compare_spec m2 m3); try discriminate.
    assert (m3 < m1)%positive by lia.
    destruct (Pos.compare_spec m1 m3); try reflexivity; lia.
  - assert (e3 < e2)%Z as HH by lia. apply Z.compare_gt_iff in HH. now rewrite HH.
  - assert (e3 < e1)%Z as HH by lia. apply Z.compare_gt_iff in HH. now rewrite HH.
  - assert (e3 < e1)%Z as HH by lia. apply Z.compare_gt_iff in HH. now rewrite HH.
Qed.

Lemma SFcompare_lt_trans (x y z : spec_float) :
  SFcompare x y = Some Lt -> SFcompare y z = Some Lt -> SFcompare x z = Some Lt.
Proof.
  destruct x as [sx | sx | | sx mx ex], y as [sy | sy | | sy my ey],
     z as [sz | sz | | sz mz ez]; simpl;
    try discriminate;
    try (destruct sx; discriminate); try (destruct sy; discriminate);
    try (destruct sz; discriminate);
    try (destruct sx, sy; discriminate); try (destruct sy, sz; discriminate);
    try (destruct sx, sz; try discriminate; reflexivity);
    try (destruct sx; try discriminate; reflexivity);
    try (destruct sz; try discriminate; reflexivity);
    try (destruct sx, sy, sz; try discriminate; reflexivity).
  all: try (destruct sx, sy; try discriminate; destruct sz; try discriminate; try reflexivity).
  all: try (intros H1 H2; injection H1 as H1; injection H2 as H2; f_equal).
  all: try (now apply (cmp_lex_trans_opp ex ey ez mx my mz)).
  all: try (now apply (cmp_lex_trans ex ey ez mx my mz)).
Qed.

Lemma SFcompare_eq_l (x y z : spec_float) :
  SFcompare x y = Some Eq -> SFcompare x z = SFcompare y z.
Proof.
  destruct x as [sx | sx | | sx mx ex], y as [sy | sy | | sy my ey]; simpl;
    try discriminate;
    try (destruct sx; discriminate); try (destruct sy; discriminate);
    try (destruct sx, sy; discriminate).
  - intros _. destruct z; reflexivity.
  - destruct sx, sy; try discriminate; reflexivity.
  - destruct sx, sy; try discriminate; intros H; injection H as H;
      destruct (Z.compare_spec ex ey); try discriminate; subst;
      change (Pos.compare_cont Eq mx my) with (mx ?= my)%positive in H;
      destruct (Pos.compare_spec mx my); try discriminate; subst; reflexivity.
Qed.

Lemma leb_ltb_trans (x y z : float) :
  (x <=? y) = true -> (y <? z) = true -> (x <? z) = true.
Proof.
  rewrite FloatAxioms.leb_spec, !FloatAxioms.ltb_spec. unfold SFleb, SFltb.
  destruct (SFcompare (Prim2SF x) (Prim2SF y)) as [[]|] eqn:Exy; try discriminate;
    destruct (SFcompare (Prim2SF y) (Prim2SF z)) as [[]|] eqn:Eyz; try discriminate;
    intros _ _.
  - now rewrite (SFcompare_eq_l _ _ (Prim2SF z) Exy), Eyz.
  - now rewrite (SFcompare_lt_trans _ _ _ Exy Eyz).
Qed.

Lemma ltb_trans (x y z : float) :
  (x <? y) = true -> (y <? z) = true -> (x <? z) = true.
Proof.
  rewrite !FloatAxioms.ltb_spec. unfold SFltb.
  destruct (SFcompare (Prim2SF x) (Prim2SF y)) as [[]|] eqn:Exy; try discriminate;
    destruct (SFcompare (Prim2SF y) (Prim2SF z)) as [[]|] eqn:Eyz; try discriminate;
    intros _ _.
  now rewrite (SFcompare_lt_trans _ _ _ Exy Eyz).
Qed.

Lemma ltb_leb (x y : float) : (x <? y) = true -> (x <=? y) = true.
Proof.
  rewrite FloatAxioms.leb_spec, FloatAxioms.ltb_spec. unfold SFleb, SFltb.
  now destruct (SFcompare (Prim2SF x) (Prim2SF y)) as [[]|].
Qed.

Lemma ltb_leb_trans (x y z : float) :
  (x <? y) = true -> (y <=? z) = true -> (x <? z) = true.
Proof.
  rewrite FloatAxioms.leb_spec, !FloatAxioms.ltb_spec. unfold SFleb, SFltb.
  destruct (SFcompare (Prim2SF x) (Prim2SF y)) as [[]|] eqn:Exy; try discriminate;
    destruct (SFcompare (Prim2SF y) (Prim2SF z)) as [[]|] eqn:Eyz; try discriminate;
    intros _ _.
  - assert (H : SFcompare (Prim2SF z) (Prim2SF y) = Some Eq).
    { pose proof (SFcompare_antisym (Prim2SF y) (Prim2SF z)) as Ha. rewrite Eyz in Ha.
      destruct (SFcompare (Prim2SF z) (Prim2SF y)) as [[]|]; simpl in Ha; congruence. }
    pose proof (SFcompare_antisym (Prim2SF x) (Prim2SF z)) as Hxz.
    pose proof (SFcompare_antisym (Prim2SF x) (Prim2SF y)) as Hxy.
    rewrite (SFcompare_eq_l _ _ (Prim2SF x) H) in Hxz. rewrite Hxy in Hxz.
    rewrite Exy in Hxz. simpl in Hxz.
    destruct (SFcompare (Prim2SF x) (Prim2SF z)) as [[]|]; simpl in Hxz; congruence.
  - now rewrite (SFcompare_lt_trans _ _ _ Exy Eyz).
Qed.

Lemma ltb_irrefl (x : float) : (x <? x) = false.
Proof.
  destruct (x <? x) eqn:E; [|reflexivity]. now rewrite (ltb_asym _ _ E) in E.
Qed.

Lemma leb_trans (x y z : float) :
  (x <=? y) = true -> (y <=? z) = true -> (x <=? z) = true.
Proof.
  intros Hxy Hyz. destruct (y <? z) eqn:E.
  - apply ltb_leb. now apply (leb_ltb_trans x y z).
  - revert Hxy Hyz E.
    rewrite !FloatAxioms.leb_spec, FloatAxioms.ltb_spec. unfold SFleb, SFltb.
    destruct (SFcompare (Prim2SF y) (Prim2SF z)) as [[]|] eqn:Eyz; try discriminate.
    intros Hxy _ _.
    assert (H : SFcompare (Prim2SF z) (Prim2SF y) = Some Eq).
    { pose proof (SFcompare_antisym (Prim2SF y) (Prim2SF z)) as Ha. rewrite Eyz in Ha.
      destruct (SFcompare (Prim2SF z) (Prim2SF y)) as [[]|]; simpl in Ha; congruence. }
    pose proof (SFcompare_antisym (Prim2SF x) (Prim2SF z)) as Hxz.
    pose proof (SFcompare_antisym (Prim2SF x) (Prim2SF y)) as Hxy'.
    rewrite (SFcompare_eq_l _ _ (Prim2SF x) H) in Hxz. rewrite Hxy' in Hxz.
    destruct (SFcompare (Prim2SF x) (Prim2SF y)) as [[]|]; try discriminate;
      destruct (SFcompare (Prim2SF x) (Prim2SF z)) as [[]|]; simpl in Hxz; congruence.
Qed.

End FloatOrder.

(** ** Laws of the map model *)

Module JsMapFacts.
Section WithValue.
Context {V : Type}.
Implicit Types (m : JsMap.t V) (k : string) (v : V).

Definition keys m : list string := map fst m.

Lemma get_set_same k v m : JsMap.get k (JsMap.set k v m) = Some v.
Proof.
  induction m as [|[k' v'] m IH]; simpl.
  - now rewrite String.eqb_refl.
  - destruct (String.eqb k' k) eqn:E; simpl; rewrite E; [reflexivity | exact IH].
Qed.

Lemma get_set_other k k' v m :
  k <> k' -> JsMap.get k (JsMap.set k' v m) = JsMap.get k m.
Proof.
  intros Hne. induction m as [|[k0 v0] m IH]; simpl.
  - destruct (String.eqb k' k) eqn:E; [|reflexivity].
    apply String.eqb_eq in E. congruence.
  - destruct (String.eqb k0 k') eqn:E; simpl.
    + apply String.eqb_eq in E. subst k0.
      destruct (String.eqb k' k) eqn:E'; [|reflexivity].
      apply String.eqb_eq in E'. congruence.
    + now rewrite IH.
Qed.

Lemma get_delete_same k m : JsMap.get k (JsMap.delete k m) = None.
Proof.
  unfold JsMap.delete. induction m as [|[k' v'] m IH]; simpl; [reflexivity|].
  destruct (String.eqb k' k) eqn:E; simpl; [exact IH|]. now rewrite E.
Qed.

Lemma get_delete_other k k' m :
  k <> k' -> JsMap.get k (JsMap.delete k' m) = JsMap.get k m.
Proof.
  intros Hne. unfold JsMap.delete. induction m as [|[k0 v0] m IH]; simpl; [reflexivity|].
  destruct (String.eqb k0 k') eqn:E; simpl.
  - apply String.eqb_eq in E. subst k0.
    destruct (String.eqb k' k) eqn:E'; [|exact IH].
    apply String.eqb_eq in E'. congruence.
  - now rewrite IH.
Qed.

Lemma get_none_keys k m : JsMap.get k m = None <-> ~ In k (keys m).
Proof.
  induction m as [|[k' v'] m IH]; simpl; [tauto|].
  destruct (String.eqb k' k) eqn:E.
  - apply String.eqb_eq in E. split; [discriminate | tauto].
  - apply String.eqb_neq in E. rewrite IH. tauto.
Qed.

Lemma set_absent k v m : JsMap.get k m = None -> JsMap.set k v m = m ++ [(k, v)].
Proof.
  induction m as [|[k' v'] m IH]; simpl; [reflexivity|].
  destruct (String.eqb k' k); [discriminate|]. intros H. now rewrite IH.
Qed.

Lemma set_present k v m :
  JsMap.get k m <> None -> JsMap.size (JsMap.set k v m) = JsMap.size m.
Proof.
  unfold JsMap.size. induction m as [|[k' v'] m IH]; simpl; [congruence|].
  destruct (String.eqb k' k); simpl; [reflexivity|]. intros H. now rewrite IH.
Qed.

Lemma size_set_le k v m : JsMap.size (JsMap.set k v m) <= S (JsMap.size m).
Proof.
  unfold JsMap.size. induction m as [|[k' v'] m IH]; simpl; [lia|].
  destruct (String.eqb k' k); simpl; lia.
Qed.

Lemma keys_set k v m :
  keys (JsMap.set k v m) = if JsMap.has k m then keys m else keys m ++ [k].
Proof.
  unfold keys. induction m as [|[k' v'] m IH]; simpl; [reflexivity|].
  destruct (String.eqb k' k); simpl; [reflexivity|]. rewrite IH.
  now destruct (JsMap.has k m).
Qed.

Lemma has_keys k m : JsMap.has k m = true <-> In k (keys m).
Proof.
  unfold keys. induction m as [|[k' v'] m IH]; simpl; [split; [discriminate | tauto]|].
  rewrite orb_true_iff, IH, String.eqb_eq. tauto.
Qed.

Lemma NoDup_set k v m : NoDup (keys m) -> NoDup (keys (JsMap.set k v m)).
Proof.
  intros H. rewrite keys_set. destruct (JsMap.has k m) eqn:E; [exact H|].
  assert (~ In k (keys m)) by (rewrite <- has_keys; congruence).
  apply NoDup_app; [exact H | repeat constructor; simpl; tauto |].
  intros x Hx [<- | []]. contradiction.
Qed.

Lemma keys_delete k m : keys (JsMap.delete k m) = filter (fun x => negb (String.eqb x k)) (keys m).
Proof.
  unfold keys, JsMap.delete. induction m as [|[k' v'] m IH]; simpl; [reflexivity|].
  destruct (String.eqb k' k); simpl; now rewrite IH.
Qed.

Lemma NoDup_delete k m : NoDup (keys m) -> NoDup (keys (JsMap.delete k m)).
Proof. intros H. rewrite keys_delete. now apply NoDup_filter. Qed.

Lemma In_get k v m : NoDup (keys m) -> In (k, v) m -> JsMap.get k m = Some v.
Proof.
  unfold keys. induction m as [|[k' v'] m IH]; simpl; [tauto|].
  intros Hnd [Heq | Hin].
  - injection Heq as -> ->. now rewrite String.eqb_refl.
  - inversion Hnd as [|? ? Hnot Hnd']; subst.
    destruct (String.eqb k' k) eqn:E; [|now apply IH].
    apply String.eqb_eq in E. subst k'. exfalso. apply Hnot.
    change k with (fst (k, v)). now apply in_map.
Qed.

Lemma get_In k v m : JsMap.get k m = Some v -> In (k, v) m.
Proof.
  induction m as [|[k' v'] m IH]; simpl; [discriminate|].
  destruct (String.eqb k' k) eqn:E.
  - apply String.eqb_eq in E. intros H. injection H as ->. subst. now left.
  - intros H. right. now apply IH.
Qed.

Lemma size_delete_le k m : JsMap.size (JsMap.delete k m) <= JsMap.size m.
Proof. unfold JsMap.size, JsMap.delete. apply filter_length_le. Qed.

Lemma size_delete_first k m :
  JsMap.first_key m = Some k -> JsMap.size (JsMap.delete k m) < JsMap.size m.
Proof.
  destruct m as [|[k' v'] m]; simpl; [discriminate|].
  intros H. injection H as ->. unfold JsMap.size, JsMap.delete. simpl.
  rewrite String.eqb_refl. simpl.
  pose proof (filter_length_le (fun kv : string * V => negb (String.eqb (fst kv) k)) m).
  lia.
Qed.

End WithValue.
End JsMapFacts.

(** ** Laws of the two-tier cache *)

Module CacheLaws.

Import JsNum JsNumFacts FloatOrder JsMapFacts SemanticCache CacheFacts CacheManagement.

(** *** What each operation leaves alone *)

Lemma getEmbedding_frame (w : World) (text : string) (st : State) :
  exactCache (snd (getEmbedding w text st)) = exactCache st
  /\ clock_reads (snd (getEmbedding w text st)) = clock_reads st.
Proof.
  unfold getEmbedding, bind, emit, get_embeddingCache, request_embedding,
    put_embeddingCache, ret. simpl.
  destruct (JsMap.get (hashText w text) (embeddingCache st)); simpl; [tauto|].
  destruct (openai_configured w); simpl; [|tauto].
  destruct (embeddings_create w (embedding_requests st) _); simpl; tauto.
Qed.

(** One turn of the sweep of [cacheResult]. *)
Definition sweep_turn (w : World) (key : string) (entry : ExactEntry) (st : State) : State :=
  mkState (if (Date_now w (clock_reads st) - ex_timestamp entry >? EXACT_CACHE_TTL)%Z
           then JsMap.delete key (exactCache st) else exactCache st)
          (semanticCache st) (embeddingCache st) (S (clock_reads st))
          (embedding_requests st) (log st).

Lemma sweep_exact_cons (w : World) (key : string) (entry : ExactEntry)
      (entries : list (string * ExactEntry)) (st : State) :
  sweep_exact w ((key, entry) :: entries) st = sweep_exact w entries (sweep_turn w key entry st).
Proof.
  cbn [sweep_exact]. unfold sweep_turn, bind, now, get_exactCache, put_exactCache, ret.
  destruct (_ >? _)%Z; reflexivity.
Qed.

Lemma sweep_exact_frame (w : World) (entries : list (string * ExactEntry)) : forall st,
  semanticCache (snd (sweep_exact w entries st)) = semanticCache st
  /\ embeddingCache (snd (sweep_exact w entries st)) = embeddingCache st
  /\ clock_reads (snd (sweep_exact w entries st)) = clock_reads st + List.length entries.
Proof.
  induction entries as [|[key entry] entries IH]; intros st.
  - simpl. repeat split; lia.
  - rewrite sweep_exact_cons. destruct (IH (sweep_turn w key entry st)) as [H1 [H2 H3]].
    rewrite H1, H2, H3. simpl. repeat split. lia.
Qed.

(** The sweep removes a key only at the turn of an entry of that key
    which is older than the time to live at that turn. *)
Lemma sweep_exact_keeps (w : World) (k : string) (entries : list (string * ExactEntry)) :
  forall st,
    (forall i entry, nth_error entries i = Some (k, entry) ->
                     (Date_now w (clock_reads st + i) - ex_timestamp entry
                      >? EXACT_CACHE_TTL)%Z = false) ->
    JsMap.get k (exactCache (snd (sweep_exact w entries st))) = JsMap.get k (exactCache st).
Proof.
  induction entries as [|[key entry] entries IH]; intros st H; [reflexivity|].
  rewrite sweep_exact_cons, IH.
  - simpl. destruct (_ >? _)%Z eqn:E; [|reflexivity].
    apply get_delete_other. intros ->.
    specialize (H 0 entry eq_refl). rewrite Nat.add_0_r in H. congruence.
  - intros i e Hi. simpl. specialize (H (S i) e Hi).
    now rewrite Nat.add_succ_r in H.
Qed.

(** The sweep only deletes. *)
Lemma sweep_exact_shrinks (w : World) (k : string) (entries : list (string * ExactEntry)) :
  forall st,
    JsMap.get k (exactCache (snd (sweep_exact w entries st))) = JsMap.get k (exactCache st)
    \/ JsMap.get k (exactCache (snd (sweep_exact w entries st))) = None.
Proof.
  induction entries as [|[key entry] entries IH]; intros st; [now left|].
  rewrite sweep_exact_cons.
  destruct (IH (sweep_turn w key entry st)) as [-> | ->]; [|now right].
  simpl. destruct (_ >? _)%Z; [|now left].
  destruct (String.eqb k key) eqn:Ek.
  - apply String.eqb_eq in Ek. subst. right. apply get_delete_same.
  - apply String.eqb_neq in Ek. left. now apply get_delete_other.
Qed.

(** The first half of [cacheResult]: the write to the exact store and the
    sweep that may follow. *)
Definition store_exact (w : World) (text : string) (data : PipelineResult.t) (st : State)
  : State :=
  let m1 := JsMap.set (hashText w text)
                      (mkExactEntry data (Date_now w (clock_reads st))) (exactCache st) in
  let st1 := mkState m1 (semanticCache st) (embeddingCache st) (S (clock_reads st))
                     (embedding_requests st)
                     (log st ++ [ExactCacheSet (hashText w text)]) in
  if Nat.ltb 5000 (JsMap.size m1) then snd (sweep_exact w m1 st1) else st1.

(** The second half: the write to the semantic store. *)
Definition store_semantic (v : list float) (data : PipelineResult.t) (timestamp : Z)
           (text : string) (sc : list SemanticEntry) : list SemanticEntry :=
  let entry := mkSemanticEntry v data timestamp text in
  match findIndex (fun x => gtb (cosineSimilarity (Some v) (Some (se_embedding x))) 0.98%float)
                  sc with
  | Some existingIndex => assign existingIndex entry sc
  | None =>
      if Nat.ltb MAX_SEMANTIC_ENTRIES (List.length (sc ++ [entry]))
      then firstn MAX_SEMANTIC_ENTRIES (sort_newest_first (sc ++ [entry]))
      else sc ++ [entry]
  end.

(** The embedding [cacheResult] stores under: the one handed in, else
    the one [getEmbedding] finds. *)
Definition stored_embedding (w : World) (text : string) (embedding : option (list float))
           (st : State) : option (list float) :=
  match embedding with
  | Some v => Some v
  | None => fst (getEmbedding w text st)
  end.

Definition write_semantic (sc : list SemanticEntry) (st : State) : State :=
  mkState (exactCache st) sc (embeddingCache st) (clock_reads st)
          (embedding_requests st) (log st ++ [SemanticCacheWrite]).

(** [cacheResult] in one equation. *)
Lemma cacheResult_eq (w : World) (text : string) (data : PipelineResult.t)
      (embedding : option (list float)) (st : State) :
  cacheResult w text data embedding st
  = let st1 := store_exact w text data st in
    let (e, st2) := match embedding with
                    | Some v => (Some v, st1)
                    | None => getEmbedding w text st1
                    end in
    (tt, match e with
         | None => st2
         | Some v =>
             write_semantic
               (store_semantic v data (Date_now w (clock_reads st)) text (semanticCache st2))
               st2
         end).
Proof.
  unfold cacheResult, store_exact, store_semantic, write_semantic.
  unfold bind, now, get_exactCache, put_exactCache, emit, get_semanticCache,
    put_semanticCache, ret.
  cbn [exactCache semanticCache embeddingCache clock_reads embedding_requests log fst snd].
  cbv zeta.
  set (m1 := JsMap.set _ _ _).
  destruct (Nat.ltb 5000 (JsMap.size m1)).
  - destruct (sweep_exact w m1 _) as [u s]. cbn [snd].
    destruct embedding as [v|].
    + destruct (findIndex _ _); [reflexivity|]. destruct (Nat.ltb _ _); reflexivity.
    + destruct (getEmbedding w text s) as [[v|] s']; [|reflexivity].
      cbn [exactCache semanticCache embeddingCache clock_reads embedding_requests log].
      destruct (findIndex _ _); [reflexivity|]. destruct (Nat.ltb _ _); reflexivity.
  - destruct embedding as [v|].
    + cbn [exactCache semanticCache embeddingCache clock_reads embedding_requests log].
      destruct (findIndex _ _); [reflexivity|]. destruct (Nat.ltb _ _); reflexivity.
    + destruct (getEmbedding w text _) as [[v|] s']; [|reflexivity].
      cbn [exactCache semanticCache embeddingCache clock_reads embedding_requests log].
      destruct (findIndex _ _); [reflexivity|]. destruct (Nat.ltb _ _); reflexivity.
Qed.

Lemma cacheResult_exactCache (w : World) (text : string) (data : PipelineResult.t)
      (embedding : option (list float)) (st : State) :
  exactCache (snd (cacheResult w text data embedding st))
  = exactCache (store_exact w text data st)
  /\ clock_reads (snd (cacheResult w text data embedding st))
     = clock_reads (store_exact w text data st).
Proof.
  rewrite cacheResult_eq. cbv zeta.
  destruct embedding as [v|]; [now split|].
  destruct (getEmbedding_frame w text (store_exact w text data st)) as [H1 H2].
  destruct (getEmbedding w text _) as [[v|] s']; simpl in *; now split.
Qed.

Lemma checkExactCache_fst (w : World) (text : string) (st : State) :
  fst (checkExactCache w text st)
  = match JsMap.get (hashText w text) (exactCache st) with
    | Some entry =>
        if (Date_now w (clock_reads st) - ex_timestamp entry <? EXACT_CACHE_TTL)%Z
        then HitExact (ex_data entry) else Miss None None
    | None => Miss None None
    end.
Proof.
  unfold checkExactCache, bind, emit, get_exactCache, now, ret. simpl.
  destruct (JsMap.get (hashText w text) (exactCache st)) as [entry|]; simpl; [|reflexivity].
  now destruct (_ <? _)%Z.
Qed.

Lemma hashText_normalized (w : World) (a b : string) :
  normalized a = normalized b -> hashText w a = hashText w b.
Proof. unfold hashText. now intros ->. Qed.

(** *** The exact store *)

Lemma store_exact_clock (w : World) (text : string) (data : PipelineResult.t) (st : State) :
  clock_reads st < clock_reads (store_exact w text data st)
  /\ (Nat.ltb 5000 (JsMap.size (JsMap.set (hashText w text)
                       (mkExactEntry data (Date_now w (clock_reads st))) (exactCache st)))
      = true ->
      clock_reads (store_exact w text data st)
      = S (clock_reads st)
        + JsMap.size (JsMap.set (hashText w text)
                        (mkExactEntry data (Date_now w (clock_reads st))) (exactCache st))).
Proof.
  unfold store_exact. cbv zeta.
  set (m1 := JsMap.set _ _ _).
  destruct (Nat.ltb 5000 (JsMap.size m1)).
  - match goal with |- context [sweep_exact w m1 ?s] =>
      destruct (sweep_exact_frame w m1 s) as [_ [_ H]] end.
    rewrite H. simpl. split; [lia | reflexivity].
  - simpl. split; [lia | discriminate].
Qed.

Lemma store_exact_get_new (w : World) (text : string) (data : PipelineResult.t) (st : State) :
  NoDup (keys (exactCache st)) ->
  (forall k, clock_reads st <= k <= clock_reads (store_exact w text data st) ->
             (Date_now w k - Date_now w (clock_reads st) < EXACT_CACHE_TTL)%Z) ->
  JsMap.get (hashText w text) (exactCache (store_exact w text data st))
  = Some (mkExactEntry data (Date_now w (clock_reads st))).
Proof.
  intros Hnd. unfold store_exact. cbv zeta.
  set (new := mkExactEntry data (Date_now w (clock_reads st))).
  set (m1 := JsMap.set (hashText w text) new (exactCache st)).
  destruct (Nat.ltb 5000 (JsMap.size m1)); intros Hclock; [|apply get_set_same].
  match type of Hclock with context [sweep_exact w m1 ?s] =>
    destruct (sweep_exact_frame w m1 s) as [_ [_ Hlen]]; set (st1 := s) in * end.
  rewrite Hlen in Hclock. cbn [clock_reads st1] in Hclock.
  rewrite sweep_exact_keeps; [apply get_set_same|].
  intros i entry Hi. cbn [clock_reads st1].
  assert (entry = new) as ->.
  { apply nth_error_In in Hi. apply In_get in Hi; [|now apply NoDup_set].
    unfold m1 in Hi. rewrite get_set_same in Hi. congruence. }
  assert (i < List.length m1) by (apply nth_error_Some; congruence).
  unfold new. cbn [ex_timestamp].
  assert (Date_now w (S (clock_reads st) + i) - Date_now w (clock_reads st)
          < EXACT_CACHE_TTL)%Z by (apply Hclock; lia).
  rewrite Z.gtb_ltb. apply Z.ltb_ge. lia.
Qed.

Lemma lookup_after_write (w : World) (text text' : string) (data : PipelineResult.t)
      (embedding : option (list float)) (st : State) :
  normalized text' = normalized text ->
  NoDup (keys (exactCache st)) ->
  (forall k, clock_reads st <= k <= clock_reads (snd (cacheResult w text data embedding st)) ->
             (Date_now w k - Date_now w (clock_reads st) < EXACT_CACHE_TTL)%Z) ->
  fst (checkExactCache w text' (snd (cacheResult w text data embedding st))) = HitExact data.
Proof.
  intros Hnorm Hnd Hclock.
  destruct (cacheResult_exactCache w text data embedding st) as [Hex Hck].
  rewrite Hck in Hclock.
  rewrite checkExactCache_fst, Hex, Hck, (hashText_normalized w _ _ Hnorm).
  rewrite (store_exact_get_new w text data st Hnd Hclock). cbn [ex_timestamp ex_data].
  destruct (store_exact_clock w text data st) as [Hlt _].
  assert (Date_now w (clock_reads (store_exact w text data st))
          - Date_now w (clock_reads st) < EXACT_CACHE_TTL)%Z as ->%Z.ltb_lt
    by (apply Hclock; lia).
  reflexivity.
Qed.

Lemma checkExactCache_eq (w : World) (text : string) (st : State) :
  checkExactCache w text st
  = (fst (checkExactCache w text st),
     mkState (exactCache st) (semanticCache st) (embeddingCache st)
             (match JsMap.get (hashText w text) (exactCache st) with
              | Some _ => S (clock_reads st)
              | None => clock_reads st
              end)
             (embedding_requests st) (log st ++ [ExactCacheGet (hashText w text)])).
Proof.
  unfold checkExactCache, bind, emit, get_exactCache, now, ret. simpl.
  destruct (JsMap.get (hashText w text) (exactCache st)) as [entry|]; simpl; [|reflexivity].
  destruct (_ <? _)%Z; reflexivity.
Qed.

(** X1. Round trip through the exact store.  After [cacheResult(text,
    data, embedding)], a lookup [checkExactCache(text')] for any text with
    the same canonical form (same letters up to case, same words up to
    whitespace) is a hit that returns [data], provided every clock reading
    from the write to the lookup is less than the time to live (10
    minutes) after the write.  The lookup reads the clock once and changes
    none of the three stores. *)
Theorem exact_round_trip (w : World) (text text' : string) (data : PipelineResult.t)
        (embedding : option (list float)) (st : State) :
  normalized text' = normalized text ->
  NoDup (keys (exactCache st)) ->
  (forall k, clock_reads st <= k <= clock_reads (snd (cacheResult w text data embedding st)) ->
             (Date_now w k - Date_now w (clock_reads st) < EXACT_CACHE_TTL)%Z) ->
  let st1 := snd (cacheResult w text data embedding st) in
  checkExactCache w text' st1
  = (HitExact data,
     mkState (exactCache st1) (semanticCache st1) (embeddingCache st1)
             (S (clock_reads st1)) (embedding_requests st1)
             (log st1 ++ [ExactCacheGet (hashText w text)])).
Proof.
  intros Hnorm Hnd Hclock st1. subst st1.
  rewrite checkExactCache_eq.
  rewrite (lookup_after_write w text text' data embedding st Hnorm Hnd Hclock).
  rewrite (hashText_normalized w _ _ Hnorm).
  destruct (cacheResult_exactCache w text data embedding st) as [Hex Hck].
  rewrite Hex at 2.
  rewrite (store_exact_get_new w text data st Hnd); [reflexivity|].
  intros k Hk. apply Hclock. now rewrite Hck.
Qed.

(** X2. No stale answer.  If the clock reading of a lookup is at least
    the time to live later than the clock reading of the write, the lookup
    for the text just written misses: the exact store never serves an
    entry 10 minutes old or older. *)
Theorem exact_entry_expires (w : World) (text text' : string) (data : PipelineResult.t)
        (embedding : option (list float)) (st : State) :
  normalized text' = normalized text ->
  (Date_now w (clock_reads (snd (cacheResult w text data embedding st)))
   - Date_now w (clock_reads st) >= EXACT_CACHE_TTL)%Z ->
  fst (checkExactCache w text' (snd (cacheResult w text data embedding st)))
  = Miss None None.
Proof.
  intros Hnorm Hlate.
  destruct (cacheResult_exactCache w text data embedding st) as [Hex Hck].
  rewrite Hck in Hlate.
  rewrite checkExactCache_fst, Hex, Hck, (hashText_normalized w _ _ Hnorm).
  set (new := mkExactEntry data (Date_now w (clock_reads st))).
  assert (Hget : JsMap.get (hashText w text) (exactCache (store_exact w text data st))
                 = Some new
                 \/ JsMap.get (hashText w text) (exactCache (store_exact w text data st))
                    = None).
  { unfold store_exact. cbv zeta. fold new.
    set (m1 := JsMap.set (hashText w text) new (exactCache st)).
    destruct (Nat.ltb 5000 (JsMap.size m1)).
    - match goal with |- context [sweep_exact w m1 ?s] =>
        destruct (sweep_exact_shrinks w (hashText w text) m1 s) as [-> | ->] end;
        [left | now right].
      apply get_set_same.
    - left. apply get_set_same. }
  destruct Hget as [-> | ->]; [|reflexivity].
  unfold new. cbn [ex_timestamp ex_data].
  assert ((Date_now w (clock_reads (store_exact w text data st))
           - Date_now w (clock_reads st) <? EXACT_CACHE_TTL)%Z = false) as ->
    by (apply Z.ltb_ge; lia).
  reflexivity.
Qed.

(** *** The semantic store *)

Lemma store_exact_semanticCache (w : World) (text : string) (data : PipelineResult.t)
      (st : State) :
  semanticCache (store_exact w text data st) = semanticCache st
  /\ embeddingCache (store_exact w text data st) = embeddingCache st.
Proof.
  unfold store_exact. cbv zeta. destruct (Nat.ltb _ _); [|now split].
  match goal with |- context [sweep_exact w ?m ?s] =>
    destruct (sweep_exact_frame w m s) as [H1 [H2 _]] end.
  rewrite H1, H2. now split.
Qed.

Lemma cacheResult_semanticCache (w : World) (text : string) (data : PipelineResult.t)
      (embedding : option (list float)) (st : State) :
  semanticCache (snd (cacheResult w text data embedding st))
  = match stored_embedding w text embedding (store_exact w text data st) with
    | None => semanticCache st
    | Some v => store_semantic v data (Date_now w (clock_reads st)) text (semanticCache st)
    end.
Proof.
  rewrite cacheResult_eq. cbv zeta. unfold stored_embedding.
  destruct (store_exact_semanticCache w text data st) as [Hsc _].
  destruct embedding as [v|].
  - cbn [snd write_semantic semanticCache]. now rewrite Hsc.
  - pose proof (getEmbedding_semanticCache w text (store_exact w text data st)) as Hg.
    destruct (getEmbedding w text _) as [[v|] s']; cbn [fst snd] in *.
    + cbn [write_semantic semanticCache]. now rewrite Hg, Hsc.
    + now rewrite Hg, Hsc.
Qed.

Lemma length_assign {A : Type} (i : nat) (v : A) (l : list A) :
  List.length (assign i v l) = List.length l.
Proof.
  revert i. induction l as [|x l IH]; intros [|i]; simpl; try reflexivity.
  now rewrite IH.
Qed.

Lemma length_store_semantic (v : list float) (data : PipelineResult.t) (timestamp : Z)
      (text : string) (sc : list SemanticEntry) :
  List.length sc <= MAX_SEMANTIC_ENTRIES ->
  List.length (store_semantic v data timestamp text sc) <= MAX_SEMANTIC_ENTRIES.
Proof.
  intros H. unfold store_semantic. cbv zeta.
  destruct (findIndex _ _); [now rewrite length_assign|].
  destruct (Nat.ltb _ _) eqn:E.
  - rewrite length_firstn. lia.
  - apply Nat.ltb_ge in E. exact E.
Qed.

(** **** Sorting newest first *)

Definition newer_or_same (a b : SemanticEntry) : Prop :=
  (se_timestamp b <= se_timestamp a)%Z.

Lemma insert_newest_first_perm (x : SemanticEntry) (l : list SemanticEntry) :
  Permutation (insert_newest_first x l) (x :: l).
Proof.
  induction l as [|y l IH]; simpl; [reflexivity|].
  destruct (_ >? _)%Z; [|reflexivity].
  rewrite IH. apply perm_swap.
Qed.

Lemma sort_newest_first_perm (l : list SemanticEntry) :
  Permutation (sort_newest_first l) l.
Proof.
  induction l as [|x l IH]; simpl; [reflexivity|].
  rewrite insert_newest_first_perm. now constructor.
Qed.

Lemma insert_newest_first_sorted (x : SemanticEntry) (l : list SemanticEntry) :
  StronglySorted newer_or_same l ->
  StronglySorted newer_or_same (insert_newest_first x l).
Proof.
  induction l as [|y l IH]; intros H; simpl.
  - repeat constructor.
  - inversion H as [|? ? Hl Hy]; subst.
    destruct (se_timestamp y >? se_timestamp x)%Z eqn:E.
    + constructor; [now apply IH|].
      apply Forall_forall. intros z Hz.
      apply (Permutation_in _ (insert_newest_first_perm x l)) in Hz.
      destruct Hz as [<- | Hz].
      * unfold newer_or_same. apply Z.gtb_lt in E. lia.
      * rewrite Forall_forall in Hy. now apply Hy.
    + constructor; [exact H|].
      assert (se_timestamp y <= se_timestamp x)%Z by (rewrite Z.gtb_ltb in E; now apply Z.ltb_ge).
      constructor; [exact H0|].
      apply Forall_forall. intros z Hz. rewrite Forall_forall in Hy.
      specialize (Hy z Hz). unfold newer_or_same in *. lia.
Qed.

Lemma sort_newest_first_sorted (l : list SemanticEntry) :
  StronglySorted newer_or_same (sort_newest_first l).
Proof.
  induction l as [|x l IH]; simpl; [constructor|].
  now apply insert_newest_first_sorted.
Qed.

Lemma sorted_firstn_skipn (n : nat) (l : list SemanticEntry) :
  StronglySorted newer_or_same l ->
  forall k d, In k (firstn n l) -> In d (skipn n l) -> newer_or_same k d.
Proof.
  revert n. induction l as [|x l IH]; intros [|n] H k d Hk Hd; simpl in *; try tauto.
  inversion H as [|? ? Hl Hx]; subst.
  destruct Hk as [<- | Hk].
  - rewrite Forall_forall in Hx. apply Hx.
    rewrite <- (firstn_skipn n l). apply in_or_app. now right.
  - now apply (IH n).
Qed.

Lemma findIndex_none {A : Type} (p : A -> bool) (l : list A) :
  (forall x, In x l -> p x = false) -> findIndex p l = None.
Proof.
  induction l as [|x l IH]; intros H; cbn [findIndex]; [reflexivity|].
  rewrite (H x) by now left. rewrite IH; [reflexivity|]. intros y Hy. apply H. now right.
Qed.

(** X3. The cap on the semantic store and what it evicts.  A write
    that adds a new entry to a store already holding 1000 entries or more
    leaves exactly 1000: the former entries and the new one, minus a set of
    evicted entries none of which is newer than any entry kept. *)
Theorem eviction_drops_oldest (w : World) (text : string) (data : PipelineResult.t)
        (embedding : option (list float)) (st : State) (v : list float) :
  stored_embedding w text embedding (store_exact w text data st) = Some v ->
  (forall x, In x (semanticCache st) ->
             gtb (cosineSimilarity (Some v) (Some (se_embedding x))) 0.98%float = false) ->
  MAX_SEMANTIC_ENTRIES <= List.length (semanticCache st) ->
  let new := mkSemanticEntry v data (Date_now w (clock_reads st)) text in
  let kept := semanticCache (snd (cacheResult w text data embedding st)) in
  List.length kept = MAX_SEMANTIC_ENTRIES
  /\ exists evicted,
       Permutation (kept ++ evicted) (semanticCache st ++ [new])
       /\ forall k d, In k kept -> In d evicted ->
                      (se_timestamp d <= se_timestamp k)%Z.
Proof.
  intros Hv Hnone Hfull new kept. subst kept.
  rewrite cacheResult_semanticCache, Hv. unfold store_semantic. cbv zeta. fold new.
  assert (findIndex (fun x => gtb (cosineSimilarity (Some v) (Some (se_embedding x))) 0.98%float)
                    (semanticCache st) = None) as ->.
  { now apply findIndex_none. }
  assert (Nat.ltb MAX_SEMANTIC_ENTRIES (List.length (semanticCache st ++ [new])) = true) as ->.
  { apply Nat.ltb_lt. rewrite length_app. cbn [List.length]. lia. }
  set (sorted := sort_newest_first (semanticCache st ++ [new])).
  assert (Hlen : List.length sorted = List.length (semanticCache st ++ [new])).
  { apply Permutation_length, sort_newest_first_perm. }
  split.
  - rewrite length_firstn, Hlen, length_app. cbn [List.length]. lia.
  - exists (skipn MAX_SEMANTIC_ENTRIES sorted). split.
    + rewrite firstn_skipn. apply sort_newest_first_perm.
    + intros k d Hk Hd.
      apply (sorted_firstn_skipn MAX_SEMANTIC_ENTRIES sorted); auto.
      apply sort_newest_first_sorted.
Qed.

Lemma findIndex_spec {A : Type} (p : A -> bool) (l : list A) (i : nat) :
  findIndex p l = Some i ->
  exists x, nth_error l i = Some x /\ p x = true
            /\ forall j y, j < i -> nth_error l j = Some y -> p y = false.
Proof.
  revert i. induction l as [|x l IH]; intros i; simpl; [discriminate|].
  destruct (p x) eqn:E.
  - intros H. injection H as <-. exists x. repeat split; auto. intros j y Hj. lia.
  - destruct (findIndex p l) as [i'|]; [|discriminate].
    intros H. injection H as <-. destruct (IH i' eq_refl) as [y [Hy [Hp Hfirst]]].
    exists y. repeat split; auto.
    intros [|j] z Hj Hz; simpl in Hz; [congruence|]. apply (Hfirst j); auto. lia.
Qed.

Lemma findIndex_some {A : Type} (p : A -> bool) (l : list A) (x : A) :
  In x l -> p x = true -> exists i, findIndex p l = Some i.
Proof.
  induction l as [|y l IH]; intros Hin Hp; [destruct Hin|]. simpl.
  destruct (p y) eqn:E; [now exists 0|].
  destruct Hin as [-> | Hin]; [congruence|].
  destruct (IH Hin Hp) as [i ->]. now exists (S i).
Qed.

Lemma nth_error_assign {A : Type} (i : nat) (v : A) (l : list A) :
  i < List.length l ->
  nth_error (assign i v l) i = Some v
  /\ forall j, j <> i -> nth_error (assign i v l) j = nth_error l j.
Proof.
  revert i. induction l as [|x l IH]; intros i Hi; simpl in Hi; [lia|].
  destruct i as [|i]; simpl.
  - split; [reflexivity|]. intros [|j] Hj; [congruence | reflexivity].
  - destruct (IH i) as [H1 H2]; [lia|]. split; [exact H1|].
    intros [|j] Hj; simpl; [reflexivity|]. apply H2. congruence.
Qed.

(** X4. The same claim is stored once.  When the store already holds an
    entry whose embedding has similarity above 0.98 to the one being
    written, [cacheResult] overwrites the first such entry in place with
    the new data, time stamp and text; the store keeps its length and all
    its other entries, in their positions. *)
Theorem near_duplicate_overwrites (w : World) (text : string) (data : PipelineResult.t)
        (embedding : option (list float)) (st : State) (v : list float)
        (x : SemanticEntry) :
  stored_embedding w text embedding (store_exact w text data st) = Some v ->
  In x (semanticCache st) ->
  gtb (cosineSimilarity (Some v) (Some (se_embedding x))) 0.98%float = true ->
  let after := semanticCache (snd (cacheResult w text data embedding st)) in
  List.length after = List.length (semanticCache st)
  /\ exists i old,
       nth_error (semanticCache st) i = Some old
       /\ gtb (cosineSimilarity (Some v) (Some (se_embedding old))) 0.98%float = true
       /\ (forall j y, j < i -> nth_error (semanticCache st) j = Some y ->
             gtb (cosineSimilarity (Some v) (Some (se_embedding y))) 0.98%float = false)
       /\ nth_error after i
          = Some (mkSemanticEntry v data (Date_now w (clock_reads st)) text)
       /\ forall j, j <> i -> nth_error after j = nth_error (semanticCache st) j.
Proof.
  intros Hv Hin Hsim after. subst after.
  rewrite cacheResult_semanticCache, Hv. unfold store_semantic. cbv zeta.
  destruct (findIndex_some
              (fun x => gtb (cosineSimilarity (Some v) (Some (se_embedding x))) 0.98%float)
              (semanticCache st) x Hin Hsim) as [i Hi].
  rewrite Hi. split; [apply length_assign|].
  destruct (findIndex_spec _ _ _ Hi) as [old [Hold [Hp Hfirst]]].
  exists i, old.
  assert (i < List.length (semanticCache st)) by (apply nth_error_Some; congruence).
  destruct (nth_error_assign i (mkSemanticEntry v data (Date_now w (clock_reads st)) text)
              (semanticCache st) H) as [H1 H2].
  repeat split; auto.
Qed.

(** *** The scan *)

(** Every entry seen so far that beats the running best is below the
    threshold. *)
Definition beaten_only_below (q : list float) (seen : list SemanticEntry) (b : Best) : Prop :=
  forall e, In e seen ->
            (bestSimilarity b <? similarity_to q e)%float = true ->
            geb (similarity_to q e) SIMILARITY_THRESHOLD = false.

Lemma best_step_beaten (q : list float) (seen : list SemanticEntry) (b : Best)
      (x : SemanticEntry) :
  beaten_only_below q seen b -> beaten_only_below q (seen ++ [x]) (best_step q b x).
Proof.
  intros Hb e He Hlt. apply in_app_or in He. unfold best_step in Hlt.
  fold (similarity_to q x) in Hlt.
  destruct (gtb (similarity_to q x) (bestSimilarity b)) eqn:Egt; cbn [andb] in Hlt.
  - destruct (geb (similarity_to q x) SIMILARITY_THRESHOLD) eqn:Ege.
    + cbn [bestSimilarity] in Hlt. destruct He as [He | [<- | []]].
      * apply (Hb e He). unfold gtb in Egt.
        now apply (ltb_trans _ (similarity_to q x)).
      * now rewrite ltb_irrefl in Hlt.
    + destruct He as [He | [<- | []]]; [now apply (Hb e He) | exact Ege].
  - destruct He as [He | [<- | []]]; [now apply (Hb e He)|].
    unfold gtb in Egt. congruence.
Qed.

Lemma scan_beaten (q : list float) (l : list SemanticEntry) : forall seen b,
  beaten_only_below q seen b ->
  beaten_only_below q (seen ++ l) (fold_left (best_step q) l b).
Proof.
  induction l as [|x l IH]; intros seen b Hb; simpl.
  - now rewrite app_nil_r.
  - replace (seen ++ x :: l) with ((seen ++ [x]) ++ l) by now rewrite <- app_assoc.
    apply IH. now apply best_step_beaten.
Qed.

(** X5. A semantic hit is the best there is.  The similarity a semantic
    hit reports is the greatest among the live stored entries: no live
    entry is strictly more similar to the query. *)
Theorem semantic_hit_is_best (w : World) (text : string) (st : State)
        (similarity : float) (data : PipelineResult.t) (originalText : string) :
  fst (checkSemanticCache w text st) = HitSemantic similarity data originalText ->
  forall q entry,
    query_embedding w text st = Some q ->
    In entry (semanticCache st) ->
    fresh_at (scan_time w text st) entry = true ->
    (similarity <? cosineSimilarity (Some q) (Some (se_embedding entry)))%float = false.
Proof.
  intros Hres q entry Hq Hin Hfresh.
  rewrite checkSemanticCache_result in Hres.
  destruct (hit (fst (checkExactCache w text st))) eqn:Hexact.
  { rewrite checkExactCache_fst in Hres.
    destruct (JsMap.get _ _); [|discriminate]. destruct (_ <? _)%Z; discriminate. }
  rewrite Hq in Hres. cbv zeta in Hres.
  set (live := filter (fresh_at (scan_time w text st)) (semanticCache st)) in *.
  assert (Hinv : scan_inv q live (scan q live)).
  { apply fold_best_step_inv; [auto | reflexivity]. }
  assert (Hbeat : beaten_only_below q ([] ++ live) (scan q live)).
  { apply scan_beaten. intros e []. }
  unfold scan_inv in Hinv.
  destruct (bestMatch (scan q live)) as [best|]; [|discriminate].
  destruct Hinv as [_ [_ Hge]]. injection Hres as Hsim _ _. rewrite Hsim in *.
  fold (similarity_to q entry).
  destruct (similarity <? similarity_to q entry)%float eqn:E; [|reflexivity].
  assert (Hbelow : geb (similarity_to q entry) SIMILARITY_THRESHOLD = false).
  { apply Hbeat; [|now rewrite Hsim]. simpl. apply filter_In. now split. }
  unfold geb in *. apply ltb_leb in E.
  now rewrite (leb_trans _ _ _ Hge E) in Hbelow.
Qed.

(** X6. A semantic lookup misses nothing.  When the exact store misses
    and the query has an embedding, the lookup is a hit if and only if
    some live stored entry has similarity at least 0.93 to the query. *)
Theorem semantic_lookup_complete (w : World) (text : string) (st : State)
        (q : list float) :
  hit (fst (checkExactCache w text st)) = false ->
  query_embedding w text st = Some q ->
  (hit (fst (checkSemanticCache w text st)) = true
   <-> exists entry,
         In entry (semanticCache st)
         /\ fresh_at (scan_time w text st) entry = true
         /\ geb (cosineSimilarity (Some q) (Some (se_embedding entry)))
                SIMILARITY_THRESHOLD = true).
Proof.
  intros Hexact Hq. rewrite checkSemanticCache_result, Hexact, Hq. cbv zeta.
  set (live := filter (fresh_at (scan_time w text st)) (semanticCache st)).
  assert (Hinv : scan_inv q live (scan q live)).
  { apply fold_best_step_inv; [auto | reflexivity]. }
  assert (Hbeat : beaten_only_below q ([] ++ live) (scan q live)).
  { apply scan_beaten. intros e []. }
  unfold scan_inv in Hinv.
  destruct (bestMatch (scan q live)) as [best|] eqn:Eb.
  - split; [intros _ | reflexivity].
    destruct Hinv as [Hin [Hsim Hge]]. apply filter_In in Hin. destruct Hin as [Hin Hf].
    exists best. repeat split; auto. fold (similarity_to q best). now rewrite Hsim.
  - split; [discriminate|]. intros [entry [Hin [Hf Hge]]]. exfalso.
    fold (similarity_to q entry) in Hge.
    assert (Hpos : (bestSimilarity (scan q live) <? similarity_to q entry)%float = true).
    { rewrite Hinv. unfold geb in Hge.
      apply (ltb_leb_trans 0 SIMILARITY_THRESHOLD); [reflexivity | exact Hge]. }
    assert (Hbelow : geb (similarity_to q entry) SIMILARITY_THRESHOLD = false).
    { apply Hbeat; [|exact Hpos]. simpl. apply filter_In. now split. }
    congruence.
Qed.

(** *** The embedding store *)

Lemma getEmbedding_fst (w : World) (text : string) (st : State) :
  fst (getEmbedding w text st)
  = match JsMap.get (hashText w text) (embeddingCache st) with
    | Some cached => Some cached
    | None =>
        if negb (openai_configured w) then None
        else embeddings_create w (embedding_requests st) (JsStr.substring0 8000 text)
    end.
Proof.
  unfold getEmbedding, bind, emit, get_embeddingCache, request_embedding,
    put_embeddingCache, ret. simpl.
  destruct (JsMap.get (hashText w text) (embeddingCache st)); simpl; [reflexivity|].
  destruct (openai_configured w); simpl; [|reflexivity].
  destruct (embeddings_create w (embedding_requests st) _); reflexivity.
Qed.

(** The embedding store after [getEmbedding]. *)
Definition embeddings_after (w : World) (text : string) (st : State) : JsMap.t (list float) :=
  match JsMap.get (hashText w text) (embeddingCache st) with
  | Some _ => embeddingCache st
  | None =>
      if negb (openai_configured w) then embeddingCache st
      else match embeddings_create w (embedding_requests st) (JsStr.substring0 8000 text) with
           | Some embedding =>
               let ec1 := JsMap.set (hashText w text) embedding (embeddingCache st) in
               if Nat.ltb 5000 (JsMap.size ec1)
               then match JsMap.first_key ec1 with
                    | Some k => JsMap.delete k ec1
                    | None => ec1
                    end
               else ec1
           | None => embeddingCache st
           end
  end.

Lemma getEmbedding_embeddingCache (w : World) (text : string) (st : State) :
  embeddingCache (snd (getEmbedding w text st)) = embeddings_after w text st.
Proof.
  unfold getEmbedding, embeddings_after, bind, emit, get_embeddingCache, request_embedding,
    put_embeddingCache, ret. simpl.
  destruct (JsMap.get (hashText w text) (embeddingCache st)); simpl; [reflexivity|].
  destruct (openai_configured w); simpl; [|reflexivity].
  destruct (embeddings_create w (embedding_requests st) _); reflexivity.
Qed.

Lemma getEmbedding_requests (w : World) (text : string) (st : State) :
  embedding_requests (snd (getEmbedding w text st))
  = match JsMap.get (hashText w text) (embeddingCache st) with
    | Some _ => embedding_requests st
    | None => if negb (openai_configured w) then embedding_requests st
              else S (embedding_requests st)
    end.
Proof.
  unfold getEmbedding, bind, emit, get_embeddingCache, request_embedding,
    put_embeddingCache, ret. simpl.
  destruct (JsMap.get (hashText w text) (embeddingCache st)); simpl; [reflexivity|].
  destruct (openai_configured w); simpl; [|reflexivity].
  destruct (embeddings_create w (embedding_requests st) _); reflexivity.
Qed.

(** X7. An embedding is fetched once.  After [getEmbedding(text)] has
    returned an embedding, [getEmbedding] for any text with the same
    canonical form returns that embedding again and sends no request to
    the provider, however full the embedding store is: the eviction that
    keeps the store at 5000 entries never removes the entry just added. *)
Theorem embedding_fetched_once (w : World) (text text' : string) (st : State)
        (v : list float) :
  normalized text' = normalized text ->
  fst (getEmbedding w text st) = Some v ->
  let st1 := snd (getEmbedding w text st) in
  fst (getEmbedding w text' st1) = Some v
  /\ embedding_requests (snd (getEmbedding w text' st1)) = embedding_requests st1.
Proof.
  intros Hnorm Hv st1.
  assert (Hget : JsMap.get (hashText w text) (embeddingCache st1) = Some v).
  { subst st1. rewrite getEmbedding_embeddingCache. rewrite getEmbedding_fst in Hv.
    unfold embeddings_after.
    destruct (JsMap.get (hashText w text) (embeddingCache st)) as [c|] eqn:Ec.
    - now rewrite Ec.
    - destruct (negb (openai_configured w)); [discriminate|]. rewrite Hv. cbv zeta.
      destruct (Nat.ltb 5000 _) eqn:Efull; [|apply get_set_same].
      rewrite (set_absent _ _ _ Ec) in *.
      destruct (embeddingCache st) as [|[k0 v0] ec] eqn:Eec.
      + simpl in Efull. discriminate.
      + cbn [app JsMap.first_key].
        rewrite get_delete_other.
        * change ((k0, v0) :: ec ++ [(hashText w text, v)])
            with (((k0, v0) :: ec) ++ [(hashText w text, v)]).
          rewrite <- (set_absent _ v _ Ec). apply get_set_same.
        * intros <-. simpl in Ec. now rewrite String.eqb_refl in Ec. }
  rewrite getEmbedding_fst, getEmbedding_requests.
  rewrite (hashText_normalized w _ _ Hnorm), Hget. now split.
Qed.

(** The embedding provider cannot be reached for [text]: no stored
    embedding, and no client or a failing provider. *)
Definition embedding_unavailable (w : World) (text : string) (st : State) : Prop :=
  JsMap.get (hashText w text) (embeddingCache st) = None
  /\ (openai_configured w = false \/ forall n input, embeddings_create w n input = None).

Lemma unavailable_getEmbedding (w : World) (text : string) (st : State) :
  embedding_unavailable w text st -> fst (getEmbedding w text st) = None.
Proof.
  intros [Hc Hp]. rewrite getEmbedding_fst, Hc.
  destruct Hp as [-> | Hp]; [reflexivity|].
  destruct (negb (openai_configured w)); [reflexivity | apply Hp].
Qed.

Lemma checkExactCache_embeddingCache (w : World) (text : string) (st : State) :
  embeddingCache (snd (checkExactCache w text st)) = embeddingCache st.
Proof.
  unfold checkExactCache, bind, emit, get_exactCache, now, ret. simpl.
  destruct (JsMap.get (hashText w text) (exactCache st)) as [entry|]; simpl; [|reflexivity].
  destruct (_ <? _)%Z; reflexivity.
Qed.

(** X8. Without embeddings the semantic tier is switched off, nothing
    else.  When no embedding can be had for a text, a semantic lookup that
    misses the exact store reports a miss with reason [no_embedding] and
    leaves the semantic store as it is (expired entries included), and
    [cacheResult] without an embedding leaves the semantic store as it
    is while it still writes the exact store. *)
Theorem no_embedding_degrades (w : World) (text : string) (data : PipelineResult.t)
        (st : State) :
  embedding_unavailable w text st ->
  (hit (fst (checkExactCache w text st)) = false ->
   fst (checkSemanticCache w text st) = Miss (Some "no_embedding"%string) None
   /\ semanticCache (snd (checkSemanticCache w text st)) = semanticCache st)
  /\ semanticCache (snd (cacheResult w text data None st)) = semanticCache st
  /\ In (ExactCacheSet (hashText w text)) (log (snd (cacheResult w text data None st))).
Proof.
  intros Hun. split; [|split].
  - intros Hexact.
    assert (Hun' : embedding_unavailable w text (snd (checkExactCache w text st))).
    { destruct Hun as [Hc Hp]. split; [|exact Hp].
      now rewrite checkExactCache_embeddingCache. }
    pose proof (unavailable_getEmbedding _ _ _ Hun') as Hnone.
    pose proof (checkExactCache_semanticCache w text st) as Hsc1.
    unfold checkSemanticCache, bind.
    destruct (checkExactCache w text st) as [exact st1]. cbn [fst snd] in *.
    rewrite Hexact.
    pose proof (getEmbedding_semanticCache w text st1) as Hsc2.
    destruct (getEmbedding w text st1) as [e st2]. cbn [fst snd] in *. subst e.
    cbn [ret fst snd]. split; [reflexivity | congruence].
  - rewrite cacheResult_semanticCache. unfold stored_embedding.
    rewrite unavailable_getEmbedding; [reflexivity|].
    destruct Hun as [Hc Hp]. split; [|exact Hp].
    now rewrite (proj2 (store_exact_semanticCache w text data st)).
  - rewrite cacheResult_eq. cbv zeta.
    assert (Hlog : In (ExactCacheSet (hashText w text))
                      (log (store_exact w text data st))).
    { unfold store_exact. cbv zeta. destruct (Nat.ltb _ _).
      - match goal with |- context [sweep_exact w ?m ?s] =>
          destruct (PipelineFacts.sweep_exact_quiet w m s) as [evs [-> _]] end.
        cbn [log]. apply in_or_app. left. apply in_or_app. right. now left.
      - cbn [log]. apply in_or_app. right. now left. }
    destruct (PipelineFacts.getEmbedding_quiet w text (store_exact w text data st))
      as [evs [Hl _]].
    destruct (getEmbedding w text _) as [[v|] s']; cbn [fst snd] in *.
    + cbn [write_semantic log]. rewrite Hl. apply in_or_app. left. apply in_or_app. now left.
    + rewrite Hl. apply in_or_app. now left.
Qed.

(** *** Sweeps *)

Lemma sweep_exact_idle (w : World) (entries : list (string * ExactEntry)) : forall st,
  (forall i key entry, nth_error entries i = Some (key, entry) ->
                       (Date_now w (clock_reads st + i) - ex_timestamp entry
                        >? EXACT_CACHE_TTL)%Z = false) ->
  exactCache (snd (sweep_exact w entries st)) = exactCache st.
Proof.
  induction entries as [|[key entry] entries IH]; intros st H; [reflexivity|].
  rewrite sweep_exact_cons, IH.
  - simpl. specialize (H 0 key entry eq_refl). rewrite Nat.add_0_r in H. now rewrite H.
  - intros i k e Hi. simpl. specialize (H (S i) k e Hi).
    now rewrite Nat.add_succ_r in H.
Qed.

(** X9. The exact store has no hard cap.  The sweep that starts once the
    store holds more than 5000 entries removes expired entries only: while
    no entry is older than the time to live, every write under a new key
    grows the store by one, whatever its size. *)
Theorem exact_store_has_no_cap (w : World) (text : string) (data : PipelineResult.t)
        (embedding : option (list float)) (st : State) :
  JsMap.get (hashText w text) (exactCache st) = None ->
  (forall k key entry, In (key, entry) (exactCache st) ->
                       (Date_now w k - ex_timestamp entry <= EXACT_CACHE_TTL)%Z) ->
  (forall k, (Date_now w k - Date_now w (clock_reads st) <= EXACT_CACHE_TTL)%Z) ->
  JsMap.size (exactCache (snd (cacheResult w text data embedding st)))
  = S (JsMap.size (exactCache st)).
Proof.
  intros Hnew Hold Hclock.
  rewrite (proj1 (cacheResult_exactCache w text data embedding st)).
  unfold store_exact. cbv zeta. rewrite (set_absent _ _ _ Hnew).
  assert (Hsize : JsMap.size (exactCache st ++ [(hashText w text,
                     mkExactEntry data (Date_now w (clock_reads st)))])
                  = S (JsMap.size (exactCache st))).
  { unfold JsMap.size. rewrite length_app. cbn [List.length]. lia. }
  destruct (Nat.ltb 5000 _); [|exact Hsize].
  rewrite sweep_exact_idle; [exact Hsize|].
  intros i key entry Hi. apply nth_error_In in Hi. apply in_app_or in Hi.
  rewrite Z.gtb_ltb. apply Z.ltb_ge.
  destruct Hi as [Hi | [Hi | []]].
  - now apply (Hold _ key).
  - injection Hi as _ <-. cbn [ex_timestamp]. apply Hclock.
Qed.

(** One turn of [clearExpiredEntries]'s loop. *)
Lemma expire_exact_cons (t : Z) (key : string) (entry : ExactEntry)
      (entries : list (string * ExactEntry)) (st : State) :
  expire_exact t ((key, entry) :: entries) st
  = expire_exact t entries
      (mkState (if (t - ex_timestamp entry >? EXACT_CACHE_TTL)%Z
                then JsMap.delete key (exactCache st) else exactCache st)
               (semanticCache st) (embeddingCache st) (clock_reads st)
               (embedding_requests st) (log st)).
Proof.
  cbn [expire_exact]. unfold bind, get_exactCache, put_exactCache, ret.
  destruct (_ >? _)%Z; [reflexivity | now destruct st].
Qed.

(** Some entry of key [k] is older than the time to live at [t]. *)
Definition expired_key (t : Z) (entries : list (string * ExactEntry)) (k : string) : bool :=
  existsb (fun kv => String.eqb (fst kv) k
                     && (t - ex_timestamp (snd kv) >? EXACT_CACHE_TTL)%Z) entries.

Lemma expire_exact_spec (t : Z) (k : string) (entries : list (string * ExactEntry)) :
  forall st,
    let st' := snd (expire_exact t entries st) in
    JsMap.get k (exactCache st')
    = (if expired_key t entries k then None else JsMap.get k (exactCache st))
    /\ semanticCache st' = semanticCache st
    /\ embeddingCache st' = embeddingCache st
    /\ clock_reads st' = clock_reads st.
Proof.
  induction entries as [|[key entry] entries IH]; intros st; [cbn; tauto|].
  cbv zeta. rewrite expire_exact_cons.
  match goal with |- context [expire_exact t entries ?s] =>
    destruct (IH s) as [H1 [H2 [H3 H4]]] end.
  cbv zeta in H1. rewrite H1, H2, H3, H4. cbn [semanticCache embeddingCache clock_reads].
  repeat split. cbn [expired_key existsb fst snd exactCache]. fold (expired_key t entries k).
  destruct (expired_key t entries k); [now rewrite orb_true_r|]. rewrite orb_false_r.
  destruct (String.eqb key k) eqn:Ek; cbn [andb].
  - apply String.eqb_eq in Ek. subst key.
    destruct (_ >? _)%Z; [apply get_delete_same | reflexivity].
  - apply String.eqb_neq in Ek.
    destruct (_ >? _)%Z; [apply get_delete_other; congruence | reflexivity].
Qed.

Lemma expired_key_get (t : Z) (k : string) (m : JsMap.t ExactEntry) (e : ExactEntry) :
  NoDup (keys m) -> JsMap.get k m = Some e ->
  expired_key t m k = (t - ex_timestamp e >? EXACT_CACHE_TTL)%Z.
Proof.
  unfold keys. induction m as [|[k' e'] m IH]; intros Hnd Hget; [discriminate|].
  inversion Hnd as [|? ? Hnot Hnd']; subst.
  cbn [expired_key existsb fst snd]. fold (expired_key t m k). simpl in Hget.
  destruct (String.eqb k' k) eqn:Ek.
  - injection Hget as ->. apply String.eqb_eq in Ek. subst k'. cbn [andb].
    assert (expired_key t m k = false) as ->; [|apply orb_false_r].
    unfold expired_key. apply not_true_is_false. intros H.
    apply existsb_exists in H. destruct H as [[k2 e2] [Hin H]].
    apply andb_prop in H. destruct H as [H _]. apply String.eqb_eq in H. simpl in H. subst.
    apply Hnot. change k with (fst (k, e2)). now apply in_map.
  - cbn [andb orb]. now apply IH.
Qed.

Lemma clearExpiredEntries_eq (w : World) (st : State) :
  clearExpiredEntries w st
  = let t := Date_now w (clock_reads st) in
    let st2 := snd (expire_exact t (exactCache st)
                      (mkState (exactCache st) (semanticCache st) (embeddingCache st)
                               (S (clock_reads st)) (embedding_requests st) (log st))) in
    (tt, mkState (exactCache st2) (filter (fresh_at t) (semanticCache st2))
                 (embeddingCache st2) (clock_reads st2) (embedding_requests st2) (log st2)).
Proof.
  unfold clearExpiredEntries, bind, now, get_exactCache, get_semanticCache,
    put_semanticCache. cbv zeta. cbn [exactCache].
  now destruct (expire_exact _ _ _).
Qed.

(** X10. The periodic sweep is invisible to lookups.  With a clock that
    does not run backwards, [checkExactCache] answers the same after
    [clearExpiredEntries] as it would have without the sweep: the sweep
    removes no entry that could still be served.  The semantic store is
    left with exactly its entries younger than 24 hours. *)
Theorem sweep_is_invisible (w : World) (text : string) (st : State) :
  NoDup (keys (exactCache st)) ->
  (Date_now w (clock_reads st) <= Date_now w (S (clock_reads st)))%Z ->
  fst (checkExactCache w text (snd (clearExpiredEntries w st)))
  = fst (checkExactCache w text (snd (now w st)))
  /\ semanticCache (snd (clearExpiredEntries w st))
     = filter (fresh_at (Date_now w (clock_reads st))) (semanticCache st).
Proof.
  intros Hnd Hmono. rewrite clearExpiredEntries_eq. cbv zeta.
  set (t := Date_now w (clock_reads st)) in *.
  set (st1 := mkState _ _ _ (S (clock_reads st)) _ _).
  destruct (expire_exact_spec t (hashText w text) (exactCache st) st1)
    as [Hget [Hsc [_ Hck]]].
  cbv zeta in Hget.
  cbn [snd semanticCache]. split; [|now rewrite Hsc].
  rewrite !checkExactCache_fst. cbn [exactCache clock_reads now snd]. rewrite Hget, Hck.
  cbn [st1 exactCache clock_reads].
  destruct (JsMap.get (hashText w text) (exactCache st)) as [e|] eqn:Ee.
  - rewrite (expired_key_get t _ _ e Hnd Ee).
    destruct (t - ex_timestamp e >? EXACT_CACHE_TTL)%Z eqn:Ex; [|reflexivity].
    apply Z.gtb_lt in Ex.
    assert ((Date_now w (S (clock_reads st)) - ex_timestamp e <? EXACT_CACHE_TTL)%Z = false)
      as -> by (apply Z.ltb_ge; lia).
    reflexivity.
  - now destruct (expired_key _ _ _).
Qed.

(** *** Instances *)

Lemma exact_round_trip_witness :
  fst (checkExactCache boundary_world "  The EARTH   orbits the sun "
         (snd (cacheResult boundary_world "the earth orbits the sun" stored_result None
                           boundary_state)))
  = HitExact stored_result.
Proof.
  rewrite (exact_round_trip boundary_world "the earth orbits the sun"
             "  The EARTH   orbits the sun " stored_result None boundary_state).
  - reflexivity.
  - vm_compute. reflexivity.
  - constructor.
  - intros k _. reflexivity.
Defined.

(** A clock that advances by eleven minutes at every reading. *)
Definition slow_reader : World :=
  mkWorld (fun s => s) (fun n => Z.of_nat n * 660000)%Z true (fun _ _ => Some [1; 0]%float)
          (fun _ _ _ _ => TimerFirst)
          (fun _ _ => mkSourceResults None None)
          (fun s => mkCompression s 1%float "local"%string).

Lemma exact_entry_expires_witness :
  fst (checkExactCache slow_reader "the earth orbits the sun"
         (snd (cacheResult slow_reader "the earth orbits the sun" stored_result None
                           boundary_state)))
  = Miss None None.
Proof.
  apply exact_entry_expires.
  - reflexivity.
  - vm_compute. discriminate.
Defined.

(** An entry whose embedding is orthogonal to [[1; 0]]. *)
Definition far_entry : SemanticEntry :=
  mkSemanticEntry [0; 1]%float stored_result 500 "water boils at 100 degrees celsius".

Definition full_state : State :=
  mkState [] (repeat far_entry MAX_SEMANTIC_ENTRIES) [] 0 0 [].

Lemma eviction_drops_oldest_witness :
  List.length (semanticCache (snd (cacheResult boundary_world "the earth orbits the sun"
                                               stored_result (Some [1; 0]%float) full_state)))
  = MAX_SEMANTIC_ENTRIES.
Proof.
  refine (proj1 (eviction_drops_oldest boundary_world "the earth orbits the sun"
                   stored_result (Some [1; 0]%float) full_state [1; 0]%float _ _ _)).
  - reflexivity.
  - intros x Hx. apply repeat_spec in Hx. subst x. vm_compute. reflexivity.
  - vm_compute. apply le_n.
Defined.

Lemma near_duplicate_overwrites_witness :
  List.length (semanticCache (snd (cacheResult boundary_world "the earth orbits the sun"
                                               stored_result
                                               (Some [0.93; 0.3675595189897819]%float)
                                               boundary_state)))
  = 1.
Proof.
  refine (proj1 (near_duplicate_overwrites boundary_world "the earth orbits the sun"
                   stored_result (Some [0.93; 0.3675595189897819]%float) boundary_state
                   [0.93; 0.3675595189897819]%float boundary_entry _ _ _)).
  - reflexivity.
  - left. reflexivity.
  - vm_compute. reflexivity.
Defined.

Lemma semantic_hit_is_best_witness :
  (0.93 <? cosineSimilarity (Some [1; 0]) (Some (se_embedding boundary_entry)))%float
  = false.
Proof.
  refine (semantic_hit_is_best boundary_world "our planet orbits the sun" boundary_state
            0.93%float stored_result "the earth orbits the sun" _
            [1; 0]%float boundary_entry _ _ _).
  - vm_compute. reflexivity.
  - vm_compute. reflexivity.
  - left. reflexivity.
  - vm_compute. reflexivity.
Defined.

Lemma semantic_lookup_complete_witness :
  hit (fst (checkSemanticCache boundary_world "our planet orbits the sun" boundary_state))
  = true.
Proof.
  refine (proj2 (semantic_lookup_complete boundary_world "our planet orbits the sun"
                   boundary_state [1; 0]%float _ _) _).
  - vm_compute. reflexivity.
  - vm_compute. reflexivity.
  - exists boundary_entry. split; [left; reflexivity|].
    split; vm_compute; reflexivity.
Defined.

Lemma embedding_fetched_once_witness :
  fst (getEmbedding boundary_world "The Earth  orbits the Sun"
         (snd (getEmbedding boundary_world "the earth orbits the sun" boundary_state)))
  = Some [1; 0]%float.
Proof.
  refine (proj1 (embedding_fetched_once boundary_world "the earth orbits the sun"
                   "The Earth  orbits the Sun" boundary_state [1; 0]%float _ _)).
  - vm_compute. reflexivity.
  - vm_compute. reflexivity.
Defined.

(** A deployment without an embedding client. *)
Definition offline_world : World :=
  mkWorld (fun s => s) (fun _ => 1000%Z) false (fun _ _ => None)
          (fun _ _ _ _ => TimerFirst)
          (fun _ _ => mkSourceResults None None)
          (fun s => mkCompression s 1%float "local"%string).

Lemma no_embedding_degrades_witness :
  semanticCache (snd (cacheResult offline_world "the earth orbits the sun" stored_result
                                  None boundary_state))
  = [boundary_entry].
Proof.
  refine (proj1 (proj2 (no_embedding_degrades offline_world "the earth orbits the sun"
                          stored_result boundary_state _))).
  split; [reflexivity | left; reflexivity].
Defined.

(** An exact store at its threshold of 5000 entries, all written at
    time 0. *)
Definition numbered_key (n : nat) : string :=
  String (ascii_of_nat (n mod 100)) (String (ascii_of_nat (n / 100)) EmptyString).

Definition crowded_state : State :=
  mkState (map (fun n => (numbered_key n, mkExactEntry stored_result 0)) (seq 0 5000))
          [] [] 0 0 [].

Lemma exact_store_has_no_cap_witness :
  JsMap.size (exactCache (snd (cacheResult boundary_world "the earth orbits the sun"
                                           stored_result (Some [1; 0]%float) crowded_state)))
  = 5001.
Proof.
  refine (exact_store_has_no_cap boundary_world "the earth orbits the sun" stored_result
            (Some [1; 0]%float) crowded_state _ _ _).
  - vm_compute. reflexivity.
  - intros k key entry Hin. apply in_map_iff in Hin. destruct Hin as [n [Hn _]].
    injection Hn as _ <-. vm_compute. discriminate.
  - intros k. vm_compute. discriminate.
Defined.

(** A store with one entry that has expired at time 1000000 and one that
    has not. *)
Definition mixed_state : State :=
  mkState [("old claim"%string, mkExactEntry stored_result 0);
           ("new claim"%string, mkExactEntry stored_result 900000)]
          [boundary_entry] [] 0 0 [].

Definition late_world : World :=
  mkWorld (fun s => s) (fun _ => 1000000%Z) false (fun _ _ => None)
          (fun _ _ _ _ => TimerFirst)
          (fun _ _ => mkSourceResults None None)
          (fun s => mkCompression s 1%float "local"%string).

Lemma sweep_is_invisible_witness :
  fst (checkExactCache late_world "New  Claim" (snd (clearExpiredEntries late_world mixed_state)))
  = fst (checkExactCache late_world "New  Claim" (snd (now late_world mixed_state))).
Proof.
  refine (proj1 (sweep_is_invisible late_world "New  Claim" mixed_state _ _)).
  - repeat constructor; simpl; intros H; repeat destruct H as [H | H]; try discriminate H;
      exact H.
  - vm_compute. discriminate.
Defined.

End CacheLaws.

(** ** Laws of the scheduler *)

Module SchedulerLaws.

Import JsStr JsNum JsNumFacts FloatOrder JsMapFacts TruthfulnessSpectrum InputCompressor.
Import SemanticCache UltraSpeed CacheFacts PipelineFacts CacheLaws CacheManagement.
Local Open Scope string_scope.
Local Open Scope list_scope.

(** *** FULL follows MID *)

(** The confidence of a tier is 0 or one of the two bases scaled by the
    number of responses. *)
Lemma confidence_values (rs : list Response) :
  TierResult.confidence (computeBucketScore rs) = 0%float
  \/ TierResult.confidence (computeBucketScore rs)
     = Math_min [1; 0.92 * (of_nat (List.length rs) / 3)]%float
  \/ TierResult.confidence (computeBucketScore rs)
     = Math_min [1; 0.75 * (of_nat (List.length rs) / 3)]%float.
Proof.
  unfold computeBucketScore. destruct rs as [|r rs]; [now left|].
  cbv zeta. cbn [TierResult.confidence].
  destruct (sp_score _); [|now left].
  destruct (Nat.ltb _ _ && _); [right; left | right; right]; reflexivity.
Qed.

Lemma length_bucket_responses (w : World) (b : bucketName) (input : string) :
  List.length (bucket_responses w b input) <= List.length (models (MODEL_BUCKETS b)).
Proof.
  unfold bucket_responses.
  etransitivity; [apply filter_length_le|]. now rewrite length_map.
Qed.

(** With at most three FAST responses and at most two MID responses the
    combined confidence stays below 0.90. *)
Lemma combined_confidence_low (fast mid : list Response) :
  List.length fast <= 3 -> List.length mid <= 2 ->
  (TierResult.confidence (computeBucketScore fast) * 0.4
   + TierResult.confidence (computeBucketScore mid) * 0.6 <? SKIP_FULL_THRESHOLD)%float
  = true.
Proof.
  intros Hf Hm.
  destruct (confidence_values fast) as [-> | [-> | ->]];
    destruct (confidence_values mid) as [-> | [-> | ->]];
    destruct fast as [|? [|? [|? [|? ?]]]]; try (simpl in Hf; lia);
    destruct mid as [|? [|? [|? ?]]]; try (simpl in Hm; lia);
    reflexivity.
Qed.

Lemma shouldRunFullBucket_configured (w : World) (fastIn midIn : string) :
  shouldRunFullBucket (tier_result w FAST fastIn) (Some (tier_result w MID midIn)) = true.
Proof.
  unfold shouldRunFullBucket, tier_result. cbv zeta.
  rewrite combined_confidence_low.
  - now destruct (match TierResult.score _ with Some _ => _ | None => _ end).
  - apply (length_bucket_responses w FAST).
  - apply (length_bucket_responses w MID).
Qed.

(** X11. FULL follows MID.  With the configured buckets (three FAST
    verifiers, two MID verifiers) the confidence that FAST and MID reach
    together stays below the 0.90 needed to stop: whenever the MID tier
    runs, the FULL tier runs too.  For every request: if a MID verifier is
    called then a FULL verifier is called, and a result that was computed
    rather than served from a cache has [skippedMid = skippedFull]. *)
Theorem full_follows_mid (w : World) (text : string) (st st' : State)
        (res : PipelineResult.t) :
  ultraSpeedCheck w text st = (res, st') ->
  exists new,
    log st' = log st ++ new
    /\ (calls_to MID new -> calls_to FULL new)
    /\ (PipelineResult.fromCache res = false ->
        forall skippedMid skippedFull source compression,
          PipelineResult.pipelineInfo res = Ran skippedMid skippedFull source compression ->
          skippedMid = skippedFull).
Proof.
  intros H. apply ultraSpeedCheck_path in H. destruct H as [new [Hlog Hpath]].
  exists new. split; [exact Hlog|].
  destruct Hpath as [_ -> -> | data ty sim _ -> Hq | pre post _ Qpre Qpost -> Hnew].
  - split; [intros [n [i []]]|]. intros _ sm sf src comp Hinfo. discriminate.
  - split; [intros Hm; elim (quiet_calls_to MID _ Hq Hm)|]. discriminate.
  - set (cleaned := quickClean text) in *.
    set (z := compressed_text w cleaned) in *.
    unfold tier_events in Hnew. unfold fresh_result, tiers_of. fold z.
    destruct (shouldRunMidBucket (tier_result w FAST cleaned)) eqn:Gmid; cbn [negb] in *.
    + rewrite shouldRunFullBucket_configured in *. cbn [negb] in *. split.
      * intros _. rewrite Hnew. apply calls_to_app. right. apply calls_to_app. left.
        apply calls_to_app. right. apply calls_to_app. right. apply calls_inhabited.
      * intros _ sm sf src comp Hinfo. cbn in Hinfo. congruence.
    + split.
      * intros Hm. exfalso. rewrite Hnew in Hm.
        apply calls_to_app in Hm. destruct Hm as [Hm | Hm];
          [exact (quiet_calls_to MID _ Qpre Hm)|].
        apply calls_to_app in Hm. destruct Hm as [Hm | Hm];
          [|exact (quiet_calls_to MID _ Qpost Hm)].
        rewrite app_nil_r in Hm. apply calls_to_calls in Hm. discriminate.
      * intros _ sm sf src comp Hinfo. cbn in Hinfo. congruence.
Qed.

Lemma full_follows_mid_witness :
  calls_to FULL (log (snd (ultraSpeedCheck contradicting_world sample_claim empty_state))).
Proof.
  destruct (full_follows_mid contradicting_world sample_claim empty_state _ _
              (surjective_pairing _)) as [new [Hlog [H _]]].
  cbn [log empty_state app] in Hlog. rewrite Hlog. apply H. rewrite <- Hlog.
  exists "GPT-4o", sample_claim. vm_compute. tauto.
Defined.

(** *** When every verifier fails *)

(** Every verifier call rejects with an error other than the timeout. *)
Definition all_fail (w : World) : Prop :=
  forall f input t modelName,
    exists message,
      race w f input t modelName = Threw message
      /\ String.eqb message "TIMEOUT" = false.

Lemma all_fail_no_responses (w : World) (b : bucketName) (input : string) :
  all_fail w -> bucket_responses w b input = [].
Proof.
  intros Hall. unfold bucket_responses.
  induction (models (MODEL_BUCKETS b)) as [|m ms IH]; [reflexivity|].
  cbn [map filter]. rewrite IH.
  destruct (Hall (fn m) input (timeout (MODEL_BUCKETS b)) (name m)) as [message [Hr Hm]].
  unfold runWithTimeout. rewrite Hr. cbn [awaited]. now rewrite Hm.
Qed.

(** X12. When every verifier fails.  If every verifier call of a request
    rejects with an error other than the timeout, a request that is not
    personal and not served from a cache calls the verifiers of all three
    tiers, drops every response, and returns, without throwing, a result
    with score null, confidence 0, verdict UNKNOWN and empty
    [usedModels]. *)
Theorem all_verifiers_fail (w : World) (text : string) (st st' : State)
        (res : PipelineResult.t) :
  all_fail w ->
  ultraSpeedCheck w text st = (res, st') ->
  isPersonal (detectPersonalStatement text) = false ->
  PipelineResult.fromCache res = false ->
  PipelineResult.mode res = "fact_check"
  /\ PipelineResult.score res = None
  /\ PipelineResult.confidence res = Some 0%float
  /\ PipelineResult.loraVerdict res = Some "UNKNOWN"
  /\ PipelineResult.loraMessage res = "couldn't really figure this one out tbh"
  /\ PipelineResult.usedModels res = no_models
  /\ PipelineResult.spectrumBreakdown res = []
  /\ exists new,
       log st' = log st ++ new
       /\ calls_to FAST new /\ calls_to MID new /\ calls_to FULL new.
Proof.
  intros Hall H Hp Hfresh. apply ultraSpeedCheck_path in H.
  destruct H as [new [Hlog Hpath]].
  destruct Hpath as [Hp' _ _ | data ty sim _ -> _ | pre post _ Qpre Qpost -> Hnew];
    [congruence | discriminate |].
  unfold tier_events in Hnew. unfold fresh_result, tiers_of, tier_result in *.
  rewrite !(all_fail_no_responses w _ _ Hall) in *.
  change (computeBucketScore []) with (TierResult.Build None 0 false []) in *.
  change (shouldRunMidBucket (TierResult.Build None 0 false [])) with true in *.
  change (shouldRunFullBucket (TierResult.Build None 0 false [])
                              (Some (TierResult.Build None 0 false []))) with true in *.
  cbn [negb] in *. cbv zeta. cbn [negb].
  repeat (split; [reflexivity|]).
  exists new. split; [exact Hlog|]. rewrite Hnew.
  split; [|split].
  - apply calls_to_app. right. apply calls_to_app. left. apply calls_to_app. left.
    apply calls_inhabited.
  - apply calls_to_app. right. apply calls_to_app. left. apply calls_to_app. right.
    apply calls_to_app. left. apply calls_inhabited.
  - apply calls_to_app. right. apply calls_to_app. left. apply calls_to_app. right.
    apply calls_to_app. right. apply calls_inhabited.
Qed.

(** A deployment whose providers all answer with an HTTP error. *)
Definition failing_world : World :=
  mkWorld (fun s => s) (fun n => Z.of_nat n) true (fun _ _ => None)
          (fun _ _ _ _ => Threw "API returned 500")
          (fun _ _ => mkSourceResults (Some []) (Some "timeout"))
          (fun s => mkCompression s 1%float "local").

Lemma all_verifiers_fail_witness :
  PipelineResult.loraVerdict (fst (ultraSpeedCheck failing_world sample_claim empty_state))
  = Some "UNKNOWN".
Proof.
  refine (proj1 (proj2 (proj2 (proj2
            (all_verifiers_fail failing_world sample_claim empty_state _ _ _
                                (surjective_pairing _) _ _))))).
  - intros f input t modelName. exists "API returned 500". split; reflexivity.
  - vm_compute. reflexivity.
  - vm_compute. reflexivity.
Defined.

(** *** What a request does to the stores *)






(** *** Bounded stores *)

(** The caps the source puts on the semantic store and on the embedding
    store. *)
Definition bounded (st : State) : Prop :=
  List.length (semanticCache st) <= MAX_SEMANTIC_ENTRIES
  /\ JsMap.size (embeddingCache st) <= 5000.

Definition keeps_bounds {A : Type} (c : M A) : Prop :=
  forall st, bounded st -> bounded (snd (c st)).

Lemma keeps_bounds_bind {A B : Type} (c : M A) (f : A -> M B) :
  keeps_bounds c -> (forall a, keeps_bounds (f a)) -> keeps_bounds (bind c f).
Proof.
  intros Hc Hf st Hst. unfold bind. specialize (Hc st Hst).
  destruct (c st) as [a st1]. now apply Hf.
Qed.

Lemma keeps_bounds_frame {A : Type} (c : M A) :
  (forall st, semanticCache (snd (c st)) = semanticCache st
              /\ embeddingCache (snd (c st)) = embeddingCache st) ->
  keeps_bounds c.
Proof. intros H st [H1 H2]. destruct (H st) as [E1 E2]. unfold bounded. now rewrite E1, E2. Qed.

Lemma bounded_append_log (evs : list event) (st : State) :
  bounded st -> bounded (append_log evs st).
Proof. exact (fun H => H). Qed.

Lemma embeddings_after_bounded (w : World) (text : string) (st : State) :
  JsMap.size (embeddingCache st) <= 5000 ->
  JsMap.size (embeddings_after w text st) <= 5000.
Proof.
  intros H. unfold embeddings_after.
  destruct (JsMap.get _ _); [exact H|].
  destruct (negb _); [exact H|].
  destruct (embeddings_create _ _ _) as [v|]; [|exact H]. cbv zeta.
  pose proof (size_set_le (hashText w text) v (embeddingCache st)) as Hle.
  destruct (Nat.ltb 5000 _) eqn:E; [|now apply Nat.ltb_ge in E].
  destruct (JsMap.first_key _) as [k|] eqn:Ek.
  - apply size_delete_first in Ek. lia.
  - destruct (JsMap.set _ _ _); [simpl in E; discriminate | now destruct p].
Qed.

Lemma getEmbedding_keeps_bounds (w : World) (text : string) :
  keeps_bounds (getEmbedding w text).
Proof.
  intros st [H1 H2]. split.
  - now rewrite getEmbedding_semanticCache.
  - rewrite getEmbedding_embeddingCache. now apply embeddings_after_bounded.
Qed.

Lemma checkExactCache_keeps_bounds (w : World) (text : string) :
  keeps_bounds (checkExactCache w text).
Proof. intros st H. rewrite checkExactCache_eq. exact H. Qed.

Lemma checkSemanticCache_keeps_bounds (w : World) (text : string) :
  keeps_bounds (checkSemanticCache w text).
Proof.
  unfold checkSemanticCache.
  apply keeps_bounds_bind; [apply checkExactCache_keeps_bounds | intros exact].
  destruct (hit exact); [now intros st H|].
  apply keeps_bounds_bind; [apply getEmbedding_keeps_bounds | intros [q|]];
    [|now intros st H].
  intros st [H1 H2]. unfold bind, now, get_semanticCache, put_semanticCache, emit, ret. cbn.
  assert (Hb : List.length (filter (fresh_at (Date_now w (clock_reads st))) (semanticCache st))
               <= MAX_SEMANTIC_ENTRIES).
  { etransitivity; [apply filter_length_le | exact H1]. }
  destruct (bestMatch _); now split.
Qed.

Lemma cacheResult_keeps_bounds (w : World) (text : string) (data : PipelineResult.t)
      (embedding : option (list float)) :
  keeps_bounds (cacheResult w text data embedding).
Proof.
  intros st [H1 H2]. split.
  - rewrite cacheResult_semanticCache. destruct (stored_embedding _ _ _ _); [|exact H1].
    now apply length_store_semantic.
  - rewrite cacheResult_eq. cbv zeta.
    destruct (store_exact_semanticCache w text data st) as [Hs He].
    destruct embedding as [v|].
    + cbn [snd write_semantic embeddingCache]. now rewrite He.
    + assert (Hb : bounded (store_exact w text data st)).
      { split; [now rewrite Hs | now rewrite He]. }
      apply (getEmbedding_keeps_bounds w text) in Hb.
      destruct (getEmbedding w text _) as [[v|] s']; apply Hb.
Qed.

Lemma fresh_check_keeps_bounds (w : World) (text cleanedText : string) :
  keeps_bounds (fresh_check w text cleanedText).
Proof.
  unfold fresh_check, precomputeEmbedding.
  apply keeps_bounds_bind; [apply getEmbedding_keeps_bounds | intros embedding].
  apply keeps_bounds_bind; [now intros st H | intros _].
  apply keeps_bounds_bind.
  { destruct (Nat.ltb _ _); now intros st H. }
  intros [compressedText compressionInfo].
  apply keeps_bounds_bind.
  { intros st H. rewrite run_tiers_spec. exact H. }
  intros tiers.
  apply keeps_bounds_bind; [apply cacheResult_keeps_bounds | intros _].
  now intros st H.
Qed.

Lemma ultraSpeedCheck_keeps_bounds (w : World) (text : string) :
  keeps_bounds (ultraSpeedCheck w text).
Proof.
  unfold ultraSpeedCheck.
  destruct (isPersonal _); [now intros st H|].
  apply keeps_bounds_bind; [apply checkExactCache_keeps_bounds | intros exactHit].
  assert (Hrest : keeps_bounds
    (bind (checkSemanticCache w (quickClean text))
       (fun semanticHit =>
          match semanticHit with
          | HitExact data => ret (from_cache data "semantic" (Some None))
          | HitSemantic similarity data _ =>
              ret (from_cache data "semantic" (Some (Some similarity)))
          | Miss _ _ => fresh_check w text (quickClean text)
          end))).
  { apply keeps_bounds_bind; [apply checkSemanticCache_keeps_bounds | intros semanticHit].
    destruct semanticHit; try (now intros st H). apply fresh_check_keeps_bounds. }
  destruct exactHit; [now intros st H | exact Hrest | exact Hrest].
Qed.

(** A session: requests served one after the other by one process. *)
Fixpoint serve (w : World) (texts : list string) (st : State) : State :=
  match texts with
  | [] => st
  | text :: texts' => serve w texts' (snd (ultraSpeedCheck w text st))
  end.

(** X14. The caps hold forever.  Whatever requests a process serves,
    starting from empty stores, the semantic store never holds more than
    1000 entries and the embedding store never more than 5000; each
    request, and each of [getEmbedding], [checkSemanticCache] and
    [cacheResult], preserves the two bounds. *)
Theorem stores_stay_bounded (w : World) (texts : list string) :
  List.length (semanticCache (serve w texts empty_state)) <= MAX_SEMANTIC_ENTRIES
  /\ JsMap.size (embeddingCache (serve w texts empty_state)) <= 5000
  /\ (forall text, keeps_bounds (ultraSpeedCheck w text))
  /\ (forall text, keeps_bounds (getEmbedding w text))
  /\ (forall text, keeps_bounds (checkSemanticCache w text))
  /\ (forall text data embedding, keeps_bounds (cacheResult w text data embedding)).
Proof.
  assert (H : forall st, bounded st -> bounded (serve w texts st)).
  { induction texts as [|text texts IH]; intros st Hst; [exact Hst|].
    simpl. apply IH. now apply ultraSpeedCheck_keeps_bounds. }
  assert (H0 : bounded empty_state).
  { split; [apply Nat.le_0_l | apply Nat.le_0_l]. }
  destruct (H _ H0) as [H1 H2].
  split; [exact H1|]. split; [exact H2|].
  split; [apply ultraSpeedCheck_keeps_bounds|].
  split; [apply getEmbedding_keeps_bounds|].
  split; [apply checkSemanticCache_keeps_bounds|].
  apply cacheResult_keeps_bounds.
Qed.

(** *** What the verifiers are given *)

(** The text a tier's verifiers receive in a request for [text]. *)
Definition tier_input (w : World) (b : bucketName) (text : string) : string :=
  inputText b (quickClean text) (Some (compressed_text w (quickClean text))).

Lemma in_calls_input (b b' : bucketName) (n i input : string) :
  In (CallVerifier b n i) (calls b' input) ->
  b = b' /\ i = input /\ In n (map name (models (MODEL_BUCKETS b))).
Proof.
  unfold calls. intros H. apply in_map_iff in H. destruct H as [m [E Hm]].
  injection E as <- <- <-. repeat split. now apply in_map.
Qed.

Lemma calls_of_a_request (w : World) (text : string) (st st' : State)
      (res : PipelineResult.t) :
  ultraSpeedCheck w text st = (res, st') ->
  exists new,
    log st' = log st ++ new
    /\ forall b n input,
         In (CallVerifier b n input) new ->
         In n (map name (models (MODEL_BUCKETS b))) /\ input = tier_input w b text.
Proof.
  intros H. apply ultraSpeedCheck_path in H. destruct H as [new [Hlog Hpath]].
  exists new. split; [exact Hlog|]. intros b n input Hin.
  destruct Hpath as [_ _ -> | data ty sim _ _ Hq | pre post _ Qpre Qpost _ Hnew].
  - destruct Hin.
  - elim (quiet_no_call _ _ _ _ Hq Hin).
  - rewrite Hnew in Hin. unfold tier_events in Hin.
    apply in_app_or in Hin. destruct Hin as [Hin | Hin];
      [elim (quiet_no_call _ _ _ _ Qpre Hin)|].
    apply in_app_or in Hin. destruct Hin as [Hin | Hin];
      [|elim (quiet_no_call _ _ _ _ Qpost Hin)].
    apply in_app_or in Hin. destruct Hin as [Hin | Hin].
    { apply in_calls_input in Hin. destruct Hin as [-> [-> Hn]]. now split. }
    destruct (negb (shouldRunMidBucket _)); [destruct Hin|].
    apply in_app_or in Hin. destruct Hin as [Hin | Hin].
    { apply in_calls_input in Hin. destruct Hin as [-> [-> Hn]]. now split. }
    destruct (negb (shouldRunFullBucket _ _)); [destruct Hin|].
    apply in_calls_input in Hin. destruct Hin as [-> [-> Hn]]. now split.
Qed.

(** X15. What the verifiers are given.  Every verifier call of a request
    is a call of a configured verifier of its tier.  A FAST verifier is
    always given the cleaned text, never the compressed one; a MID or FULL
    verifier is given the compressed text when there is one and it is not
    empty, and the cleaned text otherwise. *)
Theorem verifier_inputs (w : World) (text : string) (st st' : State)
        (res : PipelineResult.t) :
  ultraSpeedCheck w text st = (res, st') ->
  exists new,
    log st' = log st ++ new
    /\ forall b n input,
         In (CallVerifier b n input) new ->
         In n (map name (models (MODEL_BUCKETS b)))
         /\ input = tier_input w b text
         /\ (b = FAST -> input = quickClean text)
         /\ (b <> FAST ->
             input = if JsStr.truthy (compressed_text w (quickClean text))
                     then compressed_text w (quickClean text)
                     else quickClean text).
Proof.
  intros H. destruct (calls_of_a_request w text st st' res H) as [new [Hlog Hcalls]].
  exists new. split; [exact Hlog|]. intros b n input Hin.
  destruct (Hcalls b n input Hin) as [H1 H2].
  split; [exact H1|]. split; [exact H2|]. rewrite H2.
  unfold tier_input, inputText. split.
  - intros ->. reflexivity.
  - intros Hb. destruct b; [contradiction | reflexivity | reflexivity].
Qed.

Lemma verifier_inputs_witness :
  exists new,
    log (snd (ultraSpeedCheck contradicting_world sample_claim empty_state))
    = log empty_state ++ new
    /\ forall b n input,
         In (CallVerifier b n input) new ->
         In n (map name (models (MODEL_BUCKETS b)))
         /\ input = tier_input contradicting_world b sample_claim.
Proof.
  destruct (verifier_inputs contradicting_world sample_claim empty_state _ _
              (surjective_pairing _)) as [new [Hlog H]].
  exists new. split; [exact Hlog|]. intros b n input Hin.
  destruct (H b n input Hin) as [H1 [H2 _]]. now split.
Defined.

(** *** Clearing the caches *)

Lemma checkSemanticCache_empty (w : World) (text : string) (st : State) :
  exactCache st = [] -> semanticCache st = [] ->
  hit (fst (checkSemanticCache w text st)) = false.
Proof.
  intros He Hs. rewrite checkSemanticCache_result, checkExactCache_fst, He. cbn [JsMap.get hit].
  destruct (query_embedding w text st); [|reflexivity].
  rewrite Hs. reflexivity.
Qed.

(** X16. Clearing the caches forces a fresh check.  After
    [clearAllCaches()], whatever the stores held, the next request that is
    not personal is computed: its result is the fresh one, not marked
    [fromCache], and its FAST verifiers are called. *)
Theorem cleared_caches_force_fresh_check (w : World) (text : string) (st : State) :
  isPersonal (detectPersonalStatement text) = false ->
  fst (ultraSpeedCheck w text (snd (clearAllCaches st)))
  = fresh_result w text (quickClean text)
  /\ PipelineResult.fromCache (fst (ultraSpeedCheck w text (snd (clearAllCaches st)))) = false
  /\ calls_to FAST (log (snd (ultraSpeedCheck w text (snd (clearAllCaches st))))).
Proof.
  intros Hp.
  set (st0 := snd (clearAllCaches st)).
  assert (He : exactCache st0 = []) by reflexivity.
  assert (Hs : semanticCache st0 = []) by reflexivity.
  assert (Hres : fst (ultraSpeedCheck w text st0) = fresh_result w text (quickClean text)
                 /\ calls_to FAST (log (snd (ultraSpeedCheck w text st0)))).
  { destruct (ultraSpeedCheck w text st0) as [res st'] eqn:Hrun. cbn [fst snd].
    unfold ultraSpeedCheck in Hrun. rewrite Hp in Hrun.
    unfold bind at 1 in Hrun. rewrite checkExactCache_eq in Hrun.
    rewrite checkExactCache_fst, He in Hrun. cbn [JsMap.get] in Hrun.
    set (st1 := mkState _ _ _ _ _ _) in Hrun.
    pose proof (checkSemanticCache_empty w (quickClean text) st1 He Hs) as Hmiss.
    unfold bind in Hrun.
    destruct (checkSemanticCache w (quickClean text) st1) as [semanticHit st2].
    cbn [fst] in Hmiss.
    destruct semanticHit as [? | ? ? ? | reason emb]; try discriminate.
    apply fresh_check_spec in Hrun.
    destruct Hrun as [pre [post [_ [_ [-> Hlog]]]]].
    split; [reflexivity|]. rewrite Hlog.
    apply calls_to_app. right. apply calls_to_app. right. apply calls_to_app. left.
    unfold tier_events. apply calls_to_app. left. apply calls_inhabited. }
  destruct Hres as [Hres Hcalls]. rewrite Hres. now repeat split.
Qed.

Lemma cleared_caches_force_fresh_check_witness :
  PipelineResult.fromCache
    (fst (ultraSpeedCheck boundary_world sample_claim
            (snd (clearAllCaches
                    (snd (ultraSpeedCheck boundary_world sample_claim empty_state))))))
  = false.
Proof.
  refine (proj1 (proj2 (cleared_caches_force_fresh_check boundary_world sample_claim _ _))).
  vm_compute. reflexivity.
Defined.

End SchedulerLaws.

(** ** Laws of the scorer *)

Module SpectrumLaws.

Import JsStr JsRegex JsNum JsNumFacts FloatOrder TruthfulnessSpectrum UltraSpeed.
Import NormalizeFacts PipelineFacts.
Local Open Scope string_scope.
Local Open Scope list_scope.

(** *** Verdict words *)

(** [s.replace(/[_-]/g, '_')], directly. *)
Fixpoint underscored (s : string) : string :=
  match s with
  | EmptyString => EmptyString
  | String c r =>
      String (if Ascii.eqb c "_" || Ascii.eqb c "-" then "_"%char else c) (underscored r)
  end.

Lemma dash_class (c : ascii) :
  class_match false false [Ch "_"; Ch "-"] c = Ascii.eqb c "_" || Ascii.eqb c "-".
Proof. by_cases_on c. Qed.

Lemma replace_dashes (fuel : nat) : forall p input,
  String.length input < fuel ->
  replace_loop false (Class false [Ch "_"; Ch "-"]) [RText "_"] fuel p input
  = underscored input.
Proof.
  induction fuel as [|fuel IH]; intros p input Hlen; [lia|].
  destruct input as [|c r]; [reflexivity|].
  cbn [replace_loop underscored]. unfold exec_at. cbn [run rest caps].
  rewrite dash_class. cbn [String.length] in Hlen.
  destruct (Ascii.eqb c "_" || Ascii.eqb c "-").
  - cbn [rest caps prev].
    replace (String.length r <? String.length (String c r))%nat with true
      by (symmetry; apply Nat.ltb_lt; simpl; lia).
    rewrite IH by lia. reflexivity.
  - rewrite IH by lia. reflexivity.
Qed.

Lemma underscored_idem (s : string) : underscored (underscored s) = underscored s.
Proof.
  induction s as [|c r IH]; simpl; [reflexivity|]. rewrite IH. f_equal.
  destruct (Ascii.eqb c "_" || Ascii.eqb c "-") eqn:E; [reflexivity | now rewrite E].
Qed.

Lemma lower_char_dash (c : ascii) :
  (Ascii.eqb (lower_char c) "_" || Ascii.eqb (lower_char c) "-")
  = (Ascii.eqb c "_" || Ascii.eqb c "-").
Proof. by_cases_on c. Qed.

Lemma toLowerCase_underscored (s : string) :
  toLowerCase (underscored s) = underscored (toLowerCase s).
Proof.
  induction s as [|c r IH]; simpl; [reflexivity|]. rewrite IH, lower_char_dash. f_equal.
  now destruct (Ascii.eqb c "_" || Ascii.eqb c "-").
Qed.

(** The base score as a function of the canonical verdict word. *)
Definition base_of (normalized : string) : float :=
  match own_property normalized VERDICT_SCORES with
  | Some sc => sc
  | None =>
      if includes normalized "true" && negb (includes normalized "false") then
        if includes normalized "partial" || includes normalized "mixed" then 0.5
        else if includes normalized "mostly" then 0.8
        else 1.0
      else if includes normalized "false" then
        if includes normalized "mostly" then 0.2 else 0.0
      else 0.35
  end%float.

Lemma normalizeVerdict_base (v : string) :
  normalizeVerdict (Some v)
  = if negb (JsStr.truthy v) then 0.35%float else base_of (underscored (toLowerCase v)).
Proof.
  unfold normalizeVerdict, base_of, replace_all.
  destruct (negb (JsStr.truthy v)); [reflexivity|].
  cbv zeta. rewrite replace_dashes by lia. reflexivity.
Qed.

Definition base_scores : list float := [0; 0.2; 0.35; 0.5; 0.8; 1]%float.

Lemma base_of_range (n : string) : In (base_of n) base_scores.
Proof.
  unfold base_of, base_scores.
  destruct (own_property n VERDICT_SCORES) as [sc|] eqn:E.
  - unfold VERDICT_SCORES in E. cbn [own_property] in E.
    repeat match type of E with
           | (if ?c then _ else _) = _ => destruct c
           end;
      try discriminate; injection E as <-; simpl; tauto.
  - destruct (_ && _).
    + destruct (_ || _); [simpl; tauto|]. destruct (includes n "mostly"); simpl; tauto.
    + destruct (includes n "false"); [|simpl; tauto].
      destruct (includes n "mostly"); simpl; tauto.
Qed.

(** X17. Verdict words.  [normalizeVerdict] returns one of the six base
    scores 0, 0.2, 0.35, 0.5, 0.8 and 1, so a number between 0 and 1,
    whatever the verifier wrote; and it reads a verdict regardless of
    letter case and of hyphens written for underscores. *)
Theorem normalizeVerdict_range (verdict : option string) :
  In (normalizeVerdict verdict) base_scores
  /\ (0 <=? normalizeVerdict verdict)%float = true
  /\ (normalizeVerdict verdict <=? 1)%float = true
  /\ (forall v, verdict = Some v ->
                normalizeVerdict (Some (toLowerCase v)) = normalizeVerdict verdict
                /\ normalizeVerdict (Some (underscored v)) = normalizeVerdict verdict).
Proof.
  assert (Hin : In (normalizeVerdict verdict) base_scores).
  { destruct verdict as [v|]; [|simpl; tauto].
    rewrite normalizeVerdict_base. destruct (negb _); [simpl; tauto | apply base_of_range]. }
  split; [exact Hin|].
  split; [|split].
  - unfold base_scores in Hin. simpl in Hin.
    repeat destruct Hin as [<- | Hin]; try reflexivity. destruct Hin.
  - unfold base_scores in Hin. simpl in Hin.
    repeat destruct Hin as [<- | Hin]; try reflexivity. destruct Hin.
  - intros v ->. rewrite !normalizeVerdict_base. split.
    + rewrite toLowerCase_idem. now destruct v.
    + rewrite toLowerCase_underscored, underscored_idem. now destruct v.
Qed.

(** *** The breakdown *)

(** The breakdown entry of one response. *)
Definition breakdown_of (response : Response) : Breakdown :=
  let conf := match confidence response with Some c => c | None => 70%float end in
  let base := normalizeVerdict (verdict response) in
  let weight := (Math_min [100; Math_max [0; conf]] / 100)%float in
  mkBreakdown (model response) (verdict response) conf
              (Math_round (base * 100)) (Math_round (base * weight * 100)).

Lemma fold_spectrum_breakdown (rs : list Response) : forall a,
  breakdown_acc (fold_left spectrum_step rs a) = breakdown_acc a ++ map breakdown_of rs.
Proof.
  induction rs as [|r rs IH]; intros a; simpl; [now rewrite app_nil_r|].
  rewrite IH. cbn [spectrum_step breakdown_acc]. now rewrite <- app_assoc.
Qed.

Lemma computeBucketScore_breakdown (rs : list Response) :
  TierResult.breakdown (computeBucketScore rs) = map breakdown_of rs.
Proof.
  unfold computeBucketScore, computeTruthfulnessSpectrum.
  destruct rs as [|r rs]; [reflexivity|].
  cbv zeta. cbn [TierResult.breakdown modelBreakdown].
  now rewrite fold_spectrum_breakdown.
Qed.

Lemma map_model_breakdown (rs : list Response) :
  map b_model (map breakdown_of rs) = map model rs.
Proof. rewrite map_map. reflexivity. Qed.

(** The tier a result took its score from. *)
Definition source_of (res : PipelineResult.t) : option string :=
  match PipelineResult.pipelineInfo res with
  | Ran _ _ source _ => Some source
  | SkippedAll _ => None
  end.

(** X18. Who is in the breakdown.  The breakdown of a tier has one entry
    per response, in the order of the responses.  In a computed result
    the models of [spectrumBreakdown] are those of the tier the score was
    taken from: the FULL responders when the source is full, the FAST
    responders followed by the MID responders when it is mid, and the
    FAST responders when it is fast. *)
Theorem breakdown_lists_the_source (w : World) (text cleanedText : string) :
  let res := fresh_result w text cleanedText in
  (forall rs, TierResult.breakdown (computeBucketScore rs) = map breakdown_of rs)
  /\ (source_of res = Some "full" \/ source_of res = Some "mid"
      \/ source_of res = Some "fast")
  /\ (source_of res = Some "full" ->
      map b_model (PipelineResult.spectrumBreakdown res)
      = full (PipelineResult.usedModels res))
  /\ (source_of res = Some "mid" ->
      map b_model (PipelineResult.spectrumBreakdown res)
      = fast (PipelineResult.usedModels res) ++ mid (PipelineResult.usedModels res))
  /\ (source_of res = Some "fast" ->
      map b_model (PipelineResult.spectrumBreakdown res)
      = fast (PipelineResult.usedModels res)).
Proof.
  intros res. split; [exact computeBucketScore_breakdown|].
  subst res. unfold source_of, fresh_result. cbv zeta.
  cbn [PipelineResult.pipelineInfo PipelineResult.spectrumBreakdown PipelineResult.usedModels].
  set (z := compressed_text w cleanedText).
  unfold tiers_of, tier_result.
  set (F := bucket_responses w FAST cleanedText).
  set (M := bucket_responses w MID (inputText MID cleanedText (Some z))).
  set (L := bucket_responses w FULL (inputText FULL cleanedText (Some z))).
  destruct (negb (shouldRunMidBucket (computeBucketScore F))).
  - cbn [fastResult midResult fullResult used fast mid full mergeResults has_score
         Merged.source Merged.breakdown].
    rewrite computeBucketScore_breakdown, map_model_breakdown.
    repeat split; first [intros H; discriminate H | auto].
  - destruct (negb (shouldRunFullBucket _ _)).
    + cbn [fastResult midResult fullResult used fast mid full].
      unfold mergeResults, has_score.
      destruct (TierResult.score (computeBucketScore M));
        cbn [Merged.source Merged.breakdown];
        rewrite ?map_app, ?computeBucketScore_breakdown, ?map_model_breakdown;
        repeat split; first [intros H; discriminate H | auto].
    + cbn [fastResult midResult fullResult used fast mid full].
      unfold mergeResults, has_score.
      destruct (TierResult.score (computeBucketScore L)).
      * cbn [Merged.source Merged.breakdown].
        rewrite ?computeBucketScore_breakdown, ?map_model_breakdown.
        repeat split; first [intros H; discriminate H | auto].
      * destruct (TierResult.score (computeBucketScore M));
          cbn [Merged.source Merged.breakdown];
          rewrite ?map_app, ?computeBucketScore_breakdown, ?map_model_breakdown;
          repeat split; first [intros H; discriminate H | auto].
Qed.

(** *** Responses without weight *)

Lemma leb_not_nan (c d : float) : (c <=? d)%float = true -> is_nan c = false.
Proof.
  unfold is_nan. rewrite FloatAxioms.leb_spec, FloatAxioms.eqb_spec.
  unfold SFleb, SFeqb.
  destruct (Prim2SF c) as [s | s | | s m e]; simpl; try discriminate; intros _.
  - reflexivity.
  - now destruct s.
  - destruct s; rewrite Z.compare_refl, Pos.compare_cont_refl; reflexivity.
Qed.

(** A confidence of zero or less is a weight of zero. *)
Lemma weight_zero (c : float) :
  (c <=? 0)%float = true -> (Math_min [100; Math_max [0; c]] / 100)%float = 0%float.
Proof.
  intros H. unfold Math_max. cbn [fold_left].
  replace (max2 neg_infinity 0) with 0%float by reflexivity.
  assert (max2 0 c = 0%float) as ->; [|reflexivity].
  unfold max2. rewrite (leb_not_nan _ _ H), (leb_not_gtb _ _ H).
  replace (is_nan 0) with false by reflexivity. cbn [orb].
  now destruct (c <? 0)%float.
Qed.

Definition weightless (r : Response) : Prop :=
  exists c, confidence r = Some c /\ (c <=? 0)%float = true.

Lemma fold_weightless (rs : list Response) : forall a,
  (forall r, In r rs -> weightless r) ->
  totalWeight a = 0%float ->
  totalWeight (fold_left spectrum_step rs a) = 0%float.
Proof.
  induction rs as [|r rs IH]; intros a Hall Ha; [exact Ha|].
  simpl. apply IH; [intros x Hx; apply Hall; now right|].
  destruct (Hall r (or_introl eq_refl)) as [c [Hc Hle]].
  unfold spectrum_step. cbv zeta. cbn [totalWeight]. rewrite Hc, Ha, (weight_zero c Hle).
  reflexivity.
Qed.

(** X19. Responses without weight.  A response whose confidence is zero
    or negative weighs nothing in the score.  If every response of a tier
    is such, the tier has no score: the score is null, the tier's
    confidence is 0 and the escalation gate sends the request to the MID
    tier. *)
Theorem weightless_tier_has_no_score (rs : list Response) :
  (forall r, In r rs -> weightless r) ->
  sp_score (computeTruthfulnessSpectrum rs) = None
  /\ TierResult.score (computeBucketScore rs) = None
  /\ TierResult.confidence (computeBucketScore rs) = 0%float
  /\ shouldRunMidBucket (computeBucketScore rs) = true.
Proof.
  intros Hall.
  assert (Hs : sp_score (computeTruthfulnessSpectrum rs) = None).
  { unfold computeTruthfulnessSpectrum. destruct rs as [|r rs]; [reflexivity|].
    cbv zeta. cbn [sp_score].
    rewrite (fold_weightless (r :: rs) (mkAcc 0 0 []) Hall eq_refl). reflexivity. }
  assert (Hc : TierResult.score (computeBucketScore rs) = None
               /\ TierResult.confidence (computeBucketScore rs) = 0%float).
  { unfold computeBucketScore. destruct rs as [|r rs]; [now split|].
    cbv zeta. cbn [TierResult.score TierResult.confidence]. rewrite Hs. now split. }
  destruct Hc as [Hsc Hcf]. repeat split; auto.
  unfold shouldRunMidBucket. rewrite Hcf. reflexivity.
Qed.

Lemma weightless_tier_has_no_score_witness :
  shouldRunMidBucket
    (computeBucketScore
       [mkResponse true "GPT-4o-mini" (Some "true") (Some 0%float) None false None;
        mkResponse true "Gemini-Flash" (Some "true") (Some (-5)%float) None false None])
  = true.
Proof.
  refine (proj2 (proj2 (proj2 (weightless_tier_has_no_score _ _)))).
  intros r [<- | [<- | []]]; eexists; split; reflexivity.
Defined.

(** *** The badge and the message *)

Lemma below_stays_below (sc lo hi : float) :
  (lo <=? hi)%float = true -> geb sc lo = false -> geb sc hi = false.
Proof.
  unfold geb. intros Hlh Hlo. destruct (hi <=? sc)%float eqn:E; [|reflexivity].
  now rewrite (leb_trans _ _ _ Hlh E) in Hlo.
Qed.

(** X20. The badge and the message agree.  For one score,
    [getVerdictFromScore] and [getSpectrumMessage] never contradict each
    other: UNKNOWN comes with the message of a null score, TRUE with one
    of the two affirmative messages, MIXED with one of the two hedging
    messages, FALSE with one of the three negative messages. *)
Theorem badge_matches_message (score : option float) (consensus : string) :
  let badge := getVerdictFromScore score in
  let message := getSpectrumMessage score consensus in
  (badge = "UNKNOWN" /\ score = None
   /\ message = "couldn't really figure this one out tbh")
  \/ (badge = "TRUE"
      /\ (message = "yep this checks out, pretty confident it's true"
          \/ message = "looks legit for the most part"))
  \/ (badge = "MIXED"
      /\ (message = "it's... kinda true? there's nuance here"
          \/ message = "getting mixed signals, hard to say either way"))
  \/ (badge = "FALSE"
      /\ (message = "this is looking pretty sus ngl"
          \/ message = "yeah no this doesn't add up"
          \/ message = "definitely false, don't believe this one")).
Proof.
  cbv zeta. destruct score as [sc|]; [|left; now repeat split].
  right. unfold getVerdictFromScore, getSpectrumMessage.
  destruct (geb sc 70) eqn:E70.
  - left. split; [reflexivity|]. destruct (geb sc 85); auto.
  - right. rewrite (below_stays_below sc 70 85 eq_refl E70).
    destruct (geb sc 40) eqn:E40.
    + left. split; [reflexivity|]. destruct (geb sc 55); auto.
    + right. rewrite (below_stays_below sc 40 55 eq_refl E40).
      split; [reflexivity|]. destruct (geb sc 25); [auto|]. destruct (geb sc 10); auto.
Qed.

End SpectrumLaws.

(** ** Laws of the personal-statement filter *)

Module PersonalLaws.

Import JsStr JsRegex TruthfulnessSpectrum UltraSpeed PipelineFacts.
Local Open Scope string_scope.
Local Open Scope list_scope.

(** *** Literal patterns in the matcher *)

Lemma run_Str (ic : bool) (p : string) : forall s k,
  run ic (Str p) s k = match eat ic p s with Some s1 => k s1 | None => None end.
Proof.
  induction p as [|c p IH]; intros s k; [reflexivity|].
  destruct p as [|c' p].
  - cbn [Str run eat]. destruct (rest s) as [|d r']; [reflexivity|].
    now destruct (char_eq ic c d).
  - change (Str (String c (String c' p))) with (Cat (Lit c) (Str (String c' p))).
    cbn [run]. cbn [eat]. destruct (rest s) as [|d r']; [reflexivity|].
    destruct (char_eq ic c d); [|reflexivity]. now rewrite IH.
Qed.

Lemma char_eq_refl (ic : bool) (c : ascii) : char_eq ic c c = true.
Proof. unfold char_eq. destruct ic; apply Ascii.eqb_refl. Qed.

Lemma eat_self (ic : bool) (p : string) : forall b r cs,
  exists b', eat ic p (MState b (p ++ r) cs) = Some (MState b' r cs).
Proof.
  induction p as [|c p IH]; intros b r cs; [now exists b|].
  cbn [eat append rest caps]. rewrite char_eq_refl. apply IH.
Qed.

Lemma run_Alts (ic : bool) (r : re) (rs : list re) (s : mstate)
      (k : mstate -> option mstate) :
  In r rs -> run ic r s k <> None -> run ic (Alts rs) s k <> None.
Proof.
  induction rs as [|r0 rs IH]; intros Hin Hr; [destruct Hin|].
  destruct rs as [|r1 rs].
  - destruct Hin as [<- | []]. exact Hr.
  - change (Alts (r0 :: r1 :: rs)) with (Alt r0 (Alts (r1 :: rs))). cbn [run].
    destruct (run ic r0 s k) eqn:E0; [discriminate|].
    destruct Hin as [<- | Hin]; [congruence | now apply IH].
Qed.

Lemma run_Words (ic : bool) (p : string) (ws : list string) (b : option ascii)
      (r : string) (cs : list (nat * string)) :
  In p ws -> run ic (Words ws) (MState b (p ++ r) cs) (fun s => Some s) <> None.
Proof.
  intros Hin. unfold Words. apply (run_Alts ic (Str p)); [now apply in_map|].
  rewrite run_Str. destruct (eat_self ic p b r cs) as [b' ->]. discriminate.
Qed.

Lemma test_from_here (ic : bool) (r : re) (before : option ascii) (input : string) :
  exec_at ic r before input <> None -> test_from ic r before input = true.
Proof.
  intros H. destruct input; simpl; destruct (exec_at ic r before _); congruence.
Qed.

Lemma test_from_later (ic : bool) (r : re) (pre : string) : forall before input,
  (forall b, exec_at ic r b input <> None) ->
  test_from ic r before (pre ++ input) = true.
Proof.
  induction pre as [|c pre IH]; intros before input H.
  - apply test_from_here, H.
  - cbn [append test_from]. destruct (exec_at ic r before _); [reflexivity|].
    now apply IH.
Qed.

(** A text that begins with one of the anchored words matches. *)
Lemma anchored_words_match (ic : bool) (ws : list string) (p r : string) :
  In p ws -> test ic (Cat Bol (Words ws)) (p ++ r) = true.
Proof.
  intros Hin. apply test_from_here. unfold exec_at. cbn [run prev].
  now apply run_Words.
Qed.

Lemma anchored_literal_matches (ic : bool) (p r : string) :
  test ic (Cat Bol (Str p)) (p ++ r) = true.
Proof.
  apply test_from_here. unfold exec_at. cbn [run prev]. rewrite run_Str.
  destruct (eat_self ic p None r []) as [b' ->]. discriminate.
Qed.

(** A text that contains one of the words matches. *)
Lemma words_match_anywhere (ic : bool) (ws : list string) (pre p post : string) :
  In p ws -> test ic (Words ws) (pre ++ p ++ post) = true.
Proof.
  intros Hin. apply test_from_later. intros b. unfold exec_at. now apply run_Words.
Qed.

Lemma any_match_In (ps : list pattern) (p : pattern) (s : string) :
  In p ps -> pattern_test p s = true -> any_match ps s = true.
Proof. intros Hin Hp. apply existsb_exists. now exists p. Qed.

Lemma matched_is_personal (text : string) :
  any_match anecdotalPatterns (trim (toLowerCase text)) = true
  \/ any_match emotionalPatterns (trim (toLowerCase text)) = true
  \/ any_match nonClaimPatterns (trim (toLowerCase text)) = true
  \/ any_match opinionPatterns (trim (toLowerCase text)) = true ->
  isPersonal (detectPersonalStatement text) = true.
Proof.
  intros H. unfold detectPersonalStatement.
  destruct (negb (JsStr.truthy text)); [reflexivity|]. cbv zeta.
  destruct (Nat.eqb _ 0); [reflexivity|].
  destruct (Nat.ltb _ 10); [reflexivity|].
  destruct (any_match anecdotalPatterns _); [reflexivity|].
  destruct (any_match emotionalPatterns _); [reflexivity|].
  destruct (any_match nonClaimPatterns _); [reflexivity|].
  destruct (any_match opinionPatterns _); [reflexivity|].
  destruct H as [H | [H | [H | H]]]; discriminate.
Qed.

(** *** Openers *)

(** The words and phrases that the anchored patterns look for at the
    start of the text. *)
Definition story_openers : list string :=
  ["today i"; "so basically"; "you know what"; "guess what"; "i went to"; "i saw"].

Definition feeling_openers : list string :=
  ["i feel"; "i felt"; "lol"; "haha"].

Definition exclamations : list string :=
  ["omg"; "oh my god"; "wtf"; "lol"; "lmao"; "haha"; "bruh"; "bro"; "dude"].

Definition greetings : list string := ["hi"; "hey"; "hello"; "sup"; "yo"; "what's up"].

Definition thanks : list string := ["thanks"; "thank you"; "thx"; "ty"].

Definition good_wishes : list string := ["good morning"; "good night"; "gn"; "gm"].

Definition opinion_openers : list string :=
  ["i think"; "i believe"; "in my opinion"; "imo"; "personally"; "i prefer"; "i like"].

Definition questions : list string := ["do you think"; "what do you think"; "thoughts?"].

Definition openers : list string :=
  story_openers ++ feeling_openers ++ exclamations ++ greetings ++ thanks
  ++ good_wishes ++ opinion_openers ++ questions.

Ltac pick_pattern :=
  simpl; solve [repeat first [left; reflexivity | right]].

Lemma literal_opener (ps : list pattern) (p r : string) :
  In (Pattern true (Cat Bol (Str p))) ps -> any_match ps (p ++ r) = true.
Proof.
  intros Hin. apply (any_match_In _ _ _ Hin). apply anchored_literal_matches.
Qed.

Lemma words_opener (ps : list pattern) (ws : list string) (p r : string) :
  In (Pattern true (Cat Bol (Words ws))) ps -> In p ws -> any_match ps (p ++ r) = true.
Proof.
  intros Hin Hp. apply (any_match_In _ _ _ Hin). now apply anchored_words_match.
Qed.

(** X21. A text is judged by how it opens.  Whatever follows, a text
    whose lower-cased, trimmed form begins with one of the openers of the
    anchored patterns (a greeting such as "hi" or "yo", "ty", "gm", "bro",
    "lol", "imo", "i think", "i saw" and the like: the letters alone, no
    word boundary is asked for) is classified as personal, and the
    pipeline returns the personal result without calling a verifier or
    touching a cache. *)
Theorem opener_makes_personal (w : World) (text opener rest : string) (st : State) :
  In opener openers ->
  trim (toLowerCase text) = (opener ++ rest)%string ->
  isPersonal (detectPersonalStatement text) = true
  /\ ultraSpeedCheck w text st = (personal_result text (detectPersonalStatement text), st).
Proof.
  intros Hin Hlow.
  assert (Hp : isPersonal (detectPersonalStatement text) = true).
  { apply matched_is_personal. rewrite Hlow. unfold openers in Hin.
    repeat (apply in_app_or in Hin; destruct Hin as [Hin | Hin]).
    - left. simpl in Hin.
      repeat destruct Hin as [<- | Hin]; try (apply literal_opener; pick_pattern).
      destruct Hin.
    - right. left. simpl in Hin.
      repeat destruct Hin as [<- | Hin]; try (apply literal_opener; pick_pattern).
      destruct Hin.
    - right. left. apply (words_opener _ exclamations); [pick_pattern | exact Hin].
    - right. right. left. apply (words_opener _ greetings); [pick_pattern | exact Hin].
    - right. right. left. apply (words_opener _ thanks); [pick_pattern | exact Hin].
    - right. right. left. apply (words_opener _ good_wishes); [pick_pattern | exact Hin].
    - right. right. right. simpl in Hin.
      destruct Hin as [<- | [<- | [<- | [<- | [<- | [<- | [<- | []]]]]]]];
        try (apply literal_opener; pick_pattern).
      apply (any_match_In _ (Pattern true (Alts [Cat Bol (Str "i like"); Str "i love";
                                                 Str "i hate"]))); [pick_pattern|].
      apply test_from_here. unfold exec_at, pattern_test, body, ignoreCase.
      apply (run_Alts true (Cat Bol (Str "i like"))); [now left|].
      cbn [run prev]. rewrite run_Str.
      destruct (eat_self true "i like" None rest []) as [b' ->]. discriminate.
    - right. right. right. apply (words_opener _ questions); [pick_pattern | exact Hin]. }
  split; [exact Hp | now apply personal_returns_at_once].
Qed.

Lemma opener_makes_personal_witness :
  isPersonal (detectPersonalStatement "Typhoid fever is caused by Salmonella bacteria")
  = true.
Proof.
  refine (proj1 (opener_makes_personal CacheFacts.boundary_world
                   "Typhoid fever is caused by Salmonella bacteria" "ty"
                   "phoid fever is caused by salmonella bacteria" empty_state _ _)).
  - vm_compute. tauto.
  - vm_compute. reflexivity.
Defined.

(** *** Phrases *)

Definition told_phrases : list string :=
  ["told me"; "asked me"; "gave me"; "bought me"; "showed me"; "sent me"].

Definition feeling_phrases : list string :=
  ["made my day"; "broke my heart"; "can't believe"; "i love this"; "i hate this";
   "i miss"; "i wish"].

Definition taste_phrases : list string := ["i love"; "i hate"].

Definition ranks : list string := ["best"; "worst"; "overrated"; "underrated"].

Definition ranking_phrases : list string :=
  map (append "is ") ranks ++ map (append "is the ") ranks.

(** The phrases that the unanchored patterns look for anywhere in the
    text. *)
Definition phrases : list string :=
  told_phrases ++ feeling_phrases ++ taste_phrases ++ ranking_phrases.

Lemma words_phrase (ps : list pattern) (ws : list string) (pre p post : string) :
  In (Pattern true (Words ws)) ps -> In p ws ->
  any_match ps (pre ++ p ++ post) = true.
Proof.
  intros Hin Hp. apply (any_match_In _ _ _ Hin). now apply words_match_anywhere.
Qed.

Definition ranking : re :=
  Cats [Str "is "; Opt (Str "the "); Words ["best"; "worst"; "overrated"; "underrated"]].

Lemma ranking_matches (b : option ascii) (rank post : string) :
  In rank ranks ->
  exec_at true ranking b ("is " ++ rank ++ post) <> None
  /\ exec_at true ranking b ("is the " ++ rank ++ post) <> None.
Proof.
  intros Hin. unfold exec_at, ranking.
  change (Cats [Str "is "; Opt (Str "the ");
                Words ["best"; "worst"; "overrated"; "underrated"]])
    with (Cat (Str "is ") (Cat (Alt (Str "the ") Eps) (Words ranks))).
  split.
  - cbn [run]. rewrite run_Str.
    destruct (eat_self true "is " b (rank ++ post) []) as [b' ->].
    destruct (run true (Str "the ") _ _); [discriminate|].
    cbn [run]. now apply run_Words.
  - change ("is the " ++ rank ++ post)%string
      with ("is " ++ "the " ++ rank ++ post)%string.
    cbn [run]. rewrite run_Str.
    destruct (eat_self true "is " b ("the " ++ rank ++ post) []) as [b' ->].
    assert (H : run true (Str "the ") (MState b' ("the " ++ rank ++ post) [])
                    (fun s1 => run true (Words ranks) s1 (fun s => Some s)) <> None).
    { rewrite run_Str. destruct (eat_self true "the " b' (rank ++ post) []) as [b2 ->].
      now apply run_Words. }
    destruct (run true (Str "the ") _ _); [discriminate | contradiction].
Qed.

(** X22. A phrase anywhere makes a text personal.  A text whose
    lower-cased, trimmed form contains, anywhere and with no regard to
    word boundaries, one of the phrases of the unanchored patterns ("told
    me", "i miss", "i wish", "i love", "can't believe", "is the best",
    "is overrated" and the like) is classified as personal, and the
    pipeline returns the personal result without calling a verifier or
    touching a cache. *)
Theorem phrase_makes_personal (w : World) (text before phrase after : string) (st : State) :
  In phrase phrases ->
  trim (toLowerCase text) = (before ++ phrase ++ after)%string ->
  isPersonal (detectPersonalStatement text) = true
  /\ ultraSpeedCheck w text st = (personal_result text (detectPersonalStatement text), st).
Proof.
  intros Hin Hlow.
  assert (Hp : isPersonal (detectPersonalStatement text) = true).
  { apply matched_is_personal. rewrite Hlow. unfold phrases in Hin.
    repeat (apply in_app_or in Hin; destruct Hin as [Hin | Hin]).
    - left. apply (words_phrase _ told_phrases); [pick_pattern | exact Hin].
    - right. left. apply (words_phrase _ feeling_phrases); [pick_pattern | exact Hin].
    - right. right. right.
      apply (any_match_In _ (Pattern true (Alts [Cat Bol (Str "i like"); Str "i love";
                                                 Str "i hate"]))); [pick_pattern|].
      apply test_from_later. intros b. unfold exec_at. cbn [body ignoreCase].
      apply (run_Alts true (Str phrase)).
      + simpl in Hin. destruct Hin as [<- | [<- | []]]; simpl; tauto.
      + rewrite run_Str. destruct (eat_self true phrase b after []) as [b' ->].
        discriminate.
    - right. right. right. apply in_map_iff in Hin. destruct Hin as [rank [<- Hrank]].
      apply (any_match_In _ (Pattern true ranking)); [pick_pattern|].
      apply test_from_later. intros b.
      apply (proj1 (ranking_matches b rank after Hrank)).
    - right. right. right. apply in_map_iff in Hin. destruct Hin as [rank [<- Hrank]].
      apply (any_match_In _ (Pattern true ranking)); [pick_pattern|].
      apply test_from_later. intros b.
      apply (proj2 (ranking_matches b rank after Hrank)). }
  split; [exact Hp | now apply personal_returns_at_once].
Qed.

Lemma phrase_makes_personal_witness :
  isPersonal (detectPersonalStatement "Hawaii missed its vaccination target in 2021")
  = true.
Proof.
  refine (proj1 (phrase_makes_personal CacheFacts.boundary_world
                   "Hawaii missed its vaccination target in 2021" "hawai" "i miss"
                   "ed its vaccination target in 2021" empty_state _ _)).
  - vm_compute. tauto.
  - vm_compute. reflexivity.
Defined.

End PersonalLaws.

(** ** Laws of the cleaning step *)

Module CleanLaws.

Import JsStr JsRegex InputCompressor SemanticCache NormalizeFacts.
Local Open Scope string_scope.

Lemma trimStart_collapse (s : string) :
  trimStart (collapse false s) = collapse false (trimStart s).
Proof.
  destruct s as [|c r]; [reflexivity|]. cbn [collapse trimStart].
  destruct (is_space c) eqn:E.
  - cbn [trimStart]. change (is_space " ") with true. cbv iota.
    rewrite collapse_trimStart. apply trimStart_clean.
    apply collapse_starts_clean, trimStart_starts_clean.
  - cbn [trimStart collapse]. now rewrite E.
Qed.

Lemma trimEnd_empty_collapse (b : bool) (s : string) :
  trimEnd s = "" -> collapse b (trimEnd s) = "" /\ trimEnd (collapse b s) = "".
Proof.
  revert b. induction s as [|c r IH]; intros b H; [now split|].
  cbn [trimEnd] in H. destruct (trimEnd r) eqn:Er; [|discriminate].
  destruct (is_space c) eqn:E; [|discriminate].
  cbn [trimEnd]. rewrite Er, E. split; [reflexivity|].
  cbn [collapse]. rewrite E. destruct b.
  - apply (IH true eq_refl).
  - cbn [trimEnd]. rewrite (proj2 (IH true eq_refl)). reflexivity.
Qed.

Lemma trimEnd_cons_empty (c : ascii) (r : string) :
  trimEnd r = "" -> trimEnd (String c r) = if is_space c then "" else String c "".
Proof. intros H. cbn [trimEnd]. now rewrite H. Qed.

Lemma trimEnd_cons_more (c : ascii) (r : string) :
  trimEnd r <> "" -> trimEnd (String c r) = String c (trimEnd r).
Proof. intros H. cbn [trimEnd]. destruct (trimEnd r); [contradiction | reflexivity]. Qed.

Lemma trimEnd_collapse_commute (s : string) : forall b,
  trimEnd (collapse b s) = collapse b (trimEnd s).
Proof.
  induction s as [|c r IH]; intros b; [reflexivity|].
  assert (Hcase : trimEnd r = "" \/ trimEnd r <> "").
  { destruct (trimEnd r); [now left | right; discriminate]. }
  destruct Hcase as [Er | Hne].
  - destruct (trimEnd_empty_collapse true r Er) as [_ Ht].
    destruct (trimEnd_empty_collapse false r Er) as [_ Hf].
    rewrite (trimEnd_cons_empty c r Er). cbn [collapse].
    destruct (is_space c) eqn:E.
    + destruct b; [exact Ht|]. now rewrite (trimEnd_cons_empty _ _ Ht).
    + rewrite (trimEnd_cons_empty _ _ Hf), E. cbn [collapse]. now rewrite E.
  - assert (Hfix : trimEnd (trimEnd r) = trimEnd r) by apply trimEnd_idem.
    rewrite (trimEnd_cons_more c r Hne). cbn [collapse].
    destruct (is_space c) eqn:E.
    + destruct b; [apply IH|].
      rewrite trimEnd_cons_more; [now rewrite IH|].
      rewrite IH. now apply collapse_nonempty.
    + rewrite trimEnd_cons_more; [now rewrite IH|].
      rewrite IH. now apply collapse_nonempty.
Qed.

Lemma trim_collapse (s : string) : trim (collapse false s) = collapse false (trim s).
Proof. unfold trim. now rewrite trimStart_collapse, trimEnd_collapse_commute. Qed.

(** The text before the last two steps of [quickClean]. *)
Definition before_spacing (text : string) : string :=
  replace_all true repeated_word [RGroup 1]
    (replace_all false url [RText "[link]"]
       (replace_all true filler []
          (replace_all false repeated_punctuation [RGroup 1]
             (replace_all false space_run [RText " "]
                (replace_all false emoji [] text))))).

Lemma quickClean_collapse (text : string) :
  quickClean text
  = if negb (JsStr.truthy text) then "" else collapse false (trim (before_spacing text)).
Proof.
  unfold quickClean. destruct (negb (JsStr.truthy text)); [reflexivity|].
  cbv zeta. fold (before_spacing text). rewrite <- trim_collapse. f_equal.
  unfold replace_all. apply replace_ws. lia.
Qed.

Lemma trim_idem (s : string) : trim (trim s) = trim s.
Proof.
  unfold trim. rewrite trimStart_clean.
  - apply trimEnd_idem.
  - apply trimEnd_starts_clean, trimStart_starts_clean.
Qed.

(** X23. The cleaned text is canonical in its white space.  Although
    [quickClean] is not idempotent, its result has no white space at
    either end and no run of white space other than a single space:
    trimming it and collapsing its white space again change nothing, so
    the cache key of a cleaned text is the digest of its lower-case
    form. *)
Theorem quickClean_spacing (w : World) (text : string) :
  trim (quickClean text) = quickClean text
  /\ replace_all false space_run [RText " "] (quickClean text) = quickClean text
  /\ normalized (quickClean text) = toLowerCase (quickClean text)
  /\ hashText w (quickClean text) = sha256 w (toLowerCase (quickClean text)).
Proof.
  assert (Ht : trim (quickClean text) = quickClean text).
  { rewrite quickClean_collapse. destruct (negb _); [reflexivity|].
    apply trim_collapse_trim. }
  assert (Hc : collapse false (quickClean text) = quickClean text).
  { rewrite quickClean_collapse. destruct (negb _); [reflexivity|].
    apply collapse_idem. }
  assert (Hn : normalized (quickClean text) = toLowerCase (quickClean text)).
  { rewrite normalized_collapse. unfold trim.
    rewrite <- toLowerCase_trimStart, <- toLowerCase_trimEnd, <- toLowerCase_collapse.
    fold (trim (quickClean text)). now rewrite Ht, Hc. }
  split; [exact Ht|]. split; [|split; [exact Hn|]].
  - unfold replace_all. rewrite (replace_ws _ None (quickClean text)) by lia. exact Hc.
  - unfold hashText. now rewrite Hn.
Qed.

End CleanLaws.

(** ** Laws of the local compression *)

Module CompressionLaws.

Import JsStr JsRegex InputCompressor UltraSpeed PipelineFacts LocalCompression.
Local Open Scope string_scope.
Local Open Scope list_scope.

Lemma length_append (a b : string) :
  String.length (a ++ b) = String.length a + String.length b.
Proof. induction a as [|c a IH]; simpl; [reflexivity | now rewrite IH]. Qed.

Lemma length_substring0 (n : nat) : forall s,
  String.length (substring0 n s) = Nat.min n (String.length s).
Proof.
  unfold substring0. induction n as [|n IH]; intros [|c s]; simpl; try reflexivity.
  now rewrite IH.
Qed.

Lemma compressed_length (text : string) (maxLength : nat) :
  3 <= maxLength ->
  String.length (compressed (compressForInference text maxLength)) <= maxLength.
Proof.
  intros Hmax. unfold compressForInference. cbv zeta.
  destruct (Nat.leb (String.length (deduplicateLines (quickClean text))) maxLength) eqn:E1;
    [now apply Nat.leb_le in E1|].
  destruct (Nat.leb (String.length (extractMainClaim _)) maxLength) eqn:E2;
    [now apply Nat.leb_le in E2|].
  cbn [compressed]. apply Nat.leb_gt in E2.
  rewrite length_append, length_substring0. cbn [String.length]. lia.
Qed.

(** X24. The compressed text fits.  For a limit of at least 3,
    [compressForInference] without the AI step returns a text no longer
    than the limit, whatever the input.  When it had to cut (method
    truncate) the text has exactly the limit's length and ends with the
    three dots. *)
Theorem compressed_fits (text : string) (maxLength : nat) :
  3 <= maxLength ->
  let c := compressForInference text maxLength in
  String.length (compressed c) <= maxLength
  /\ (method c = "local" \/ method c = "heuristic" \/ method c = "truncate")
  /\ (method c = "truncate" ->
      String.length (compressed c) = maxLength
      /\ exists kept, compressed c = (kept ++ "...")%string).
Proof.
  intros Hmax. cbv zeta. split; [now apply compressed_length|].
  unfold compressForInference. cbv zeta.
  destruct (Nat.leb (String.length (deduplicateLines (quickClean text))) maxLength) eqn:E1.
  - cbn [compressed method]. split; [now left | discriminate].
  - set (c2 := extractMainClaim (deduplicateLines (quickClean text))).
    destruct (Nat.leb (String.length c2) maxLength) eqn:E2.
    + cbn [compressed method]. split; [right; now left | discriminate].
    + cbn [compressed method]. apply Nat.leb_gt in E2.
      split; [right; now right|]. intros _. split.
      * rewrite length_append, length_substring0. cbn [String.length]. lia.
      * now exists (substring0 (maxLength - 3) c2).
Qed.

Lemma compressed_fits_witness :
  String.length
    (compressed (compressForInference "Water boils at 100 degrees. Water boils at 100 degrees."
                                      MAX_INPUT_LENGTH))
  <= MAX_INPUT_LENGTH.
Proof.
  refine (proj1 (compressed_fits _ MAX_INPUT_LENGTH _)).
  vm_compute. repeat constructor.
Defined.

(** *** Duplicates *)

Lemma unique_lines_spec (lines : list string) : forall seen,
  let kept := unique_lines seen lines in
  NoDup (map line_key kept)
  /\ (forall line, In line kept ->
        In line lines /\ 3 < String.length (line_key line) /\ ~ In (line_key line) seen)
  /\ (forall line, In line lines -> 3 < String.length (line_key line) ->
        In (line_key line) seen \/ In (line_key line) (map line_key kept)).
Proof.
  induction lines as [|line lines IH]; intros seen; cbv zeta.
  - simpl. split; [constructor|]. split; [intros ? []|intros ? []].
  - cbn [unique_lines]. cbv zeta.
    destruct (existsb (String.eqb (line_key line)) seen) eqn:Eseen; cbn [negb andb].
    + destruct (IH seen) as [H1 [H2 H3]]. cbv zeta in *.
      split; [exact H1|]. split.
      * intros l Hl. destruct (H2 l Hl) as [Ha [Hb Hc]]. repeat split; auto. now right.
      * intros l [<- | Hl] Hlen; [|now apply H3].
        left. apply existsb_exists in Eseen. destruct Eseen as [k [Hk Ek]].
        apply String.eqb_eq in Ek. now subst.
    + assert (Hnot : ~ In (line_key line) seen).
      { intros Hin. apply not_true_iff_false in Eseen. apply Eseen.
        apply existsb_exists. exists (line_key line). split; [exact Hin|].
        apply String.eqb_refl. }
      destruct (Nat.ltb 3 (String.length (line_key line))) eqn:Elen.
      * destruct (IH (line_key line :: seen)) as [H1 [H2 H3]]. cbv zeta in *.
        apply Nat.ltb_lt in Elen. split; [|split].
        -- cbn [map]. constructor; [|exact H1].
           intros Hin. apply in_map_iff in Hin. destruct Hin as [l [El Hl]].
           destruct (H2 l Hl) as [_ [_ Hc]]. apply Hc. left. now rewrite El.
        -- intros l [<- | Hl]; [repeat split; auto; now left|].
           destruct (H2 l Hl) as [Ha [Hb Hc]]. repeat split; auto; [now right|].
           intros Hin. apply Hc. now right.
        -- intros l [<- | Hl] Hlen; [right; now left|].
           destruct (H3 l Hl Hlen) as [[<- | Hs] | Hk]; [right; now left | now left|].
           right. now right.
      * destruct (IH seen) as [H1 [H2 H3]]. cbv zeta in *.
        apply Nat.ltb_ge in Elen. split; [exact H1|]. split.
        -- intros l Hl. destruct (H2 l Hl) as [Ha [Hb Hc]]. repeat split; auto. now right.
        -- intros l [<- | Hl] Hlen; [lia | now apply H3].
Qed.

(** X25. No line twice.  The lines that [deduplicateLines] joins are
    lines of the text, pairwise different once lower-cased and stripped
    of punctuation, each with more than 3 characters left after the
    stripping; and no such line of the text is lost but for a duplicate
    of one that is kept. *)
Theorem deduplicateLines_distinct (text : string) :
  let kept := unique_lines [] (lines_of text) in
  deduplicateLines text = join ". " kept
  /\ NoDup (map line_key kept)
  /\ (forall line, In line kept ->
        In line (lines_of text) /\ 3 < String.length (line_key line))
  /\ (forall line, In line (lines_of text) -> 3 < String.length (line_key line) ->
        In (line_key line) (map line_key kept)).
Proof.
  cbv zeta. destruct (unique_lines_spec (lines_of text) []) as [H1 [H2 H3]].
  cbv zeta in *. split; [reflexivity|]. split; [exact H1|]. split.
  - intros line Hl. destruct (H2 line Hl) as [Ha [Hb _]]. now split.
  - intros line Hl Hlen. destruct (H3 line Hl Hlen) as [[] | H]. exact H.
Qed.

(** *** Sentences *)

(** The sentences [extractMainClaim] chooses from. *)
Definition sentences_of (cleaned : string) : list string :=
  filter (fun s => Nat.ltb 10 (String.length s))
         (map trim (split false sentence_break cleaned)).

Lemma extractMainClaim_sentences (text : string) :
  extractMainClaim text
  = match sentences_of (quickClean text) with
    | [] => quickClean text
    | [s] => s
    | s :: _ => fst (fold_left best_sentence_step (sentences_of (quickClean text))
                               (s, 0%float))
    end.
Proof. reflexivity. Qed.

Lemma fold_best_sentence (l : list string) : forall best,
  fst (fold_left best_sentence_step l best) = fst best
  \/ In (fst (fold_left best_sentence_step l best)) l.
Proof.
  induction l as [|x l IH]; intros best; [now left|]. simpl.
  destruct (IH (best_sentence_step best x)) as [H | H]; [|right; now right].
  rewrite H. unfold best_sentence_step. cbv zeta.
  destruct (JsNum.gtb _ _); [right; now left | now left].
Qed.

(** X27. The main claim is a sentence of the text.  [extractMainClaim]
    returns the cleaned text when it finds no sentence longer than 10
    characters, and otherwise one of those sentences, trimmed: it never
    makes up text. *)
Theorem extractMainClaim_is_a_sentence (text : string) :
  (sentences_of (quickClean text) = [] /\ extractMainClaim text = quickClean text)
  \/ (In (extractMainClaim text) (sentences_of (quickClean text))
      /\ 10 < String.length (extractMainClaim text)
      /\ exists piece,
           In piece (split false sentence_break (quickClean text))
           /\ extractMainClaim text = trim piece).
Proof.
  assert (Hin : forall s, In s (sentences_of (quickClean text)) ->
                          10 < String.length s
                          /\ exists piece,
                               In piece (split false sentence_break (quickClean text))
                               /\ s = trim piece).
  { intros s Hs. unfold sentences_of in Hs. apply filter_In in Hs.
    destruct Hs as [Hs Hlen]. apply Nat.ltb_lt in Hlen. split; [exact Hlen|].
    apply in_map_iff in Hs. destruct Hs as [piece [<- Hp]]. now exists piece. }
  rewrite extractMainClaim_sentences.
  destruct (sentences_of (quickClean text)) as [|s [|s' l]] eqn:E.
  - left. now split.
  - right. assert (H : In s [s]) by now left. split; [exact H|]. now apply Hin.
  - right. destruct (fold_best_sentence (s :: s' :: l) (s, 0%float)) as [H | H].
    + rewrite H. cbn [fst]. assert (H' : In s (s :: s' :: l)) by now left.
      split; [exact H'|]. now apply Hin.
    + split; [exact H|]. now apply Hin.
Qed.

(** *** Splitting at a run of characters of a class *)

Section ClassRuns.
Variables (ic negated : bool) (items : list citem).

Fixpoint skip_run (s : string) : string :=
  match s with
  | EmptyString => EmptyString
  | String c r => if class_match ic negated items c then skip_run r else s
  end.

(** No character of [s] is in the class. *)
Fixpoint free_of (s : string) : bool :=
  match s with
  | EmptyString => true
  | String c r => negb (class_match ic negated items c) && free_of r
  end.

Lemma length_skip_run (s : string) : String.length (skip_run s) <= String.length s.
Proof.
  induction s as [|c r IH]; simpl; [lia|]. destruct (class_match _ _ _ c); simpl; lia.
Qed.

Lemma run_class (s : mstate) (k : mstate -> option mstate) :
  run ic (Class negated items) s k
  = match rest s with
    | String d r' =>
        if class_match ic negated items d then k (MState (Some d) r' (caps s)) else None
    | EmptyString => None
    end.
Proof. reflexivity. Qed.

Lemma run_plus (r : re) (s : mstate) (k : mstate -> option mstate) :
  run ic (Plus r) s k
  = run ic r s (fun s1 => star_loop (run ic r) k (String.length (rest s1)) s1).
Proof. reflexivity. Qed.

Lemma star_class (input : string) : forall n p cs,
  String.length input <= n ->
  exists p',
    star_loop (run ic (Class negated items)) (fun s => Some s) n (MState p input cs)
    = Some (MState p' (skip_run input) cs).
Proof.
  induction input as [|c r IH]; intros n p cs Hn.
  - exists p. destruct n; [reflexivity|]. cbn [star_loop]. now rewrite run_class.
  - destruct n as [|n]; [simpl in Hn; lia|].
    simpl in Hn. cbn [star_loop]. rewrite run_class.
    cbn [rest caps String.length skip_run].
    destruct (class_match ic negated items c) eqn:E.
    + replace (String.length r <? S (String.length r))%nat with true
        by (symmetry; apply Nat.ltb_lt; lia).
      destruct (IH n (Some c) cs ltac:(lia)) as [p' ->]. now exists p'.
    + now exists p.
Qed.

Lemma exec_plus_class (p : option ascii) (c : ascii) (r : string) :
  if class_match ic negated items c
  then exists p', exec_at ic (Plus (Class negated items)) p (String c r)
                  = Some (MState p' (skip_run r) [])
  else exec_at ic (Plus (Class negated items)) p (String c r) = None.
Proof.
  unfold exec_at. rewrite run_plus, run_class. cbn [rest caps].
  destruct (class_match ic negated items c); [|reflexivity].
  apply (star_class r (String.length r) (Some c) []). lia.
Qed.

Lemma free_of_app (a b : string) : free_of (a ++ b) = free_of a && free_of b.
Proof.
  induction a as [|c a IH]; simpl; [reflexivity|]. rewrite IH. now rewrite andb_assoc.
Qed.

Lemma split_loop_free (fuel : nat) : forall before piece input,
  String.length input < fuel ->
  free_of piece = true ->
  forall x, In x (split_loop ic (Plus (Class negated items)) fuel before piece input) ->
            free_of x = true.
Proof.
  induction fuel as [|fuel IH]; intros before piece input Hlen Hpiece x Hx; [lia|].
  cbn [split_loop] in Hx. destruct input as [|c r].
  - destruct Hx as [<- | []]. exact Hpiece.
  - pose proof (exec_plus_class before c r) as H. cbn [String.length] in Hlen.
    destruct (class_match ic negated items c) eqn:E.
    + destruct H as [p' H]. rewrite H in Hx. cbn [rest prev] in Hx.
      pose proof (length_skip_run r) as Hle.
      replace (String.length (skip_run r) <? String.length (String c r))%nat with true in Hx
        by (symmetry; apply Nat.ltb_lt; simpl; lia).
      destruct Hx as [<- | Hx]; [exact Hpiece|].
      apply (IH p' ""%string (skip_run r)); [lia | reflexivity | exact Hx].
    + rewrite H in Hx.
      apply (IH (Some c) (piece ++ String c "")%string r); [lia | | exact Hx].
      rewrite free_of_app, Hpiece. simpl. now rewrite E.
Qed.

Lemma split_free (s x : string) :
  In x (split ic (Plus (Class negated items)) s) -> free_of x = true.
Proof.
  unfold split. destruct s as [|c r].
  - destruct (exec_at _ _ _ _); intros H; [destruct H|].
    destruct H as [<- | []]. reflexivity.
  - apply split_loop_free; [lia | reflexivity].
Qed.

Lemma free_of_trimStart (s : string) : free_of s = true -> free_of (trimStart s) = true.
Proof.
  induction s as [|c r IH]; simpl; [auto|]. intros H. apply andb_prop in H.
  destruct H as [Hc Hr]. destruct (is_space c); [now apply IH|]. simpl. now rewrite Hc, Hr.
Qed.

Lemma free_of_trimEnd (s : string) : free_of s = true -> free_of (trimEnd s) = true.
Proof.
  induction s as [|c r IH]; simpl; [auto|]. intros H. apply andb_prop in H.
  destruct H as [Hc Hr]. specialize (IH Hr).
  destruct (trimEnd r) as [|c' r'].
  - destruct (is_space c); [reflexivity|]. simpl. now rewrite Hc.
  - cbn [free_of] in *. now rewrite Hc, IH.
Qed.

Lemma free_of_trim (s : string) : free_of s = true -> free_of (trim s) = true.
Proof. intros H. unfold trim. now apply free_of_trimEnd, free_of_trimStart. Qed.

End ClassRuns.

Lemma no_question_mark (s : string) :
  free_of false false [Ch "."; Ch "!"; Ch "?"] s = true -> includes s "?" = false.
Proof.
  induction s as [|c r IH]; [reflexivity|]. cbn [free_of]. intros H.
  apply andb_prop in H. destruct H as [Hc Hr]. cbn [includes String.prefix].
  rewrite (IH Hr), orb_false_r.
  destruct (ascii_dec "?" c) as [<- | Hne]; [discriminate Hc | reflexivity].
Qed.

(** The score of a sentence without the penalty for a question mark. *)
Definition claim_score_unpenalized (sentence : string) : float :=
  let score :=
    (0 + JsNum.Math_min [JsNum.of_nat (String.length sentence) / 50; 2])%float in
  let score :=
    fold_left (fun sc pattern => if test true pattern sentence then (sc + 1)%float else sc)
              claimIndicators score in
  if test true first_person sentence then (score - 1)%float else score.

(** X28. The penalty for questions never applies.  The sentences
    [extractMainClaim] scores come from splitting the cleaned text at
    runs of [.], [!] and [?], so none of them contains one of these
    characters: [sentence.includes('?')] is false for every sentence
    scored, and the score is the one without the penalty. *)
Theorem question_penalty_never_applies (text sentence : string) :
  In sentence (sentences_of (quickClean text)) ->
  includes sentence "?" = false
  /\ includes sentence "." = false
  /\ includes sentence "!" = false
  /\ claim_score sentence = claim_score_unpenalized sentence.
Proof.
  intros Hin. unfold sentences_of in Hin. apply filter_In in Hin. destruct Hin as [Hin _].
  apply in_map_iff in Hin. destruct Hin as [piece [<- Hp]].
  apply split_free in Hp. apply free_of_trim in Hp.
  assert (Hq : includes (trim piece) "?" = false) by now apply no_question_mark.
  split; [exact Hq|]. split; [|split].
  - revert Hp. generalize (trim piece). intros s.
    induction s as [|c r IH]; [reflexivity|]. cbn [free_of]. intros H.
    apply andb_prop in H. destruct H as [Hc Hr]. cbn [includes String.prefix].
    rewrite (IH Hr), orb_false_r.
    destruct (ascii_dec "." c) as [<- | Hne]; [discriminate Hc | reflexivity].
  - revert Hp. generalize (trim piece). intros s.
    induction s as [|c r IH]; [reflexivity|]. cbn [free_of]. intros H.
    apply andb_prop in H. destruct H as [Hc Hr]. cbn [includes String.prefix].
    rewrite (IH Hr), orb_false_r.
    destruct (ascii_dec "!" c) as [<- | Hne]; [discriminate Hc | reflexivity].
  - unfold claim_score, claim_score_unpenalized. cbv zeta. now rewrite Hq.
Qed.

Lemma question_penalty_never_applies_witness :
  includes "Is the Earth really flat" "?" = false.
Proof.
  refine (proj1 (question_penalty_never_applies
                   "Is the Earth really flat? Some people say so." _ _)).
  vm_compute. tauto.
Defined.

End CompressionLaws.

(** ** The length of what the slow verifiers read *)

Module VerifierInputLaws.

Import JsStr InputCompressor UltraSpeed PipelineFacts SchedulerLaws.
Local Open Scope string_scope.
Local Open Scope list_scope.

(** The process compresses with the local steps of [inputCompressor.js],
    as [ultraSpeedCheck] asks for ([useAI: false], limit 500). *)
Definition compresses_locally (w : World) : Prop :=
  forall s, compressForInference w s
            = LocalCompression.compressForInference s MAX_INPUT_LENGTH.

(** X26. What the slow verifiers read is short.  When the process
    compresses locally, every MID or FULL verifier of a request is given
    at most 500 characters, with one exception: when the compression of a
    cleaned text longer than 300 characters comes out empty (every line
    too short to be kept), the verifiers are given the cleaned text
    uncut. *)
Theorem slow_verifier_input_is_short (w : World) (text : string) (st st' : State)
        (res : PipelineResult.t) :
  compresses_locally w ->
  ultraSpeedCheck w text st = (res, st') ->
  exists new,
    log st' = log st ++ new
    /\ forall b n input,
         In (CallVerifier b n input) new -> b <> FAST ->
         String.length input <= MAX_INPUT_LENGTH
         \/ (COMPRESS_THRESHOLD < String.length (quickClean text)
             /\ compressed (compressForInference w (quickClean text)) = ""
             /\ input = quickClean text).
Proof.
  intros Hlocal Hrun.
  destruct (calls_of_a_request w text st st' res Hrun) as [new [Hlog Hcalls]].
  exists new. split; [exact Hlog|]. intros b n input Hin Hb.
  destruct (Hcalls b n input Hin) as [_ Hin'].
  unfold tier_input, inputText in Hin'.
  assert (Hslow : bucketName_eqb b FAST = false) by (destruct b; [contradiction | | ]; reflexivity).
  rewrite Hslow in Hin'. cbn [negb andb] in Hin'.
  unfold compressed_text in Hin'.
  destruct (Nat.ltb COMPRESS_THRESHOLD (String.length (quickClean text))) eqn:E.
  - apply Nat.ltb_lt in E.
    destruct (JsStr.truthy (compressed (compressForInference w (quickClean text)))) eqn:Et.
    + left. rewrite Hin', Hlocal.
      apply (CompressionLaws.compressed_length (quickClean text) MAX_INPUT_LENGTH).
      unfold MAX_INPUT_LENGTH. repeat constructor.
    + right. split; [exact E|]. split; [|exact Hin'].
      now destruct (compressed (compressForInference w (quickClean text))).
  - apply Nat.ltb_ge in E. left.
    assert (input = quickClean text) as ->.
    { destruct (JsStr.truthy (quickClean text)); exact Hin'. }
    unfold COMPRESS_THRESHOLD, MAX_INPUT_LENGTH in *. lia.
Qed.

(** A deployment that compresses with the local steps. *)
Definition local_world : World :=
  mkWorld (fun s => s) (fun n => Z.of_nat n) true (fun _ _ => None)
          (fun _ _ _ modelName =>
             if String.eqb modelName "GPT-4o-mini"
             then Returned (mkModelResult (Some "true") (Some 90%float))
             else Returned (mkModelResult (Some "false") (Some 90%float)))
          (fun _ _ => mkSourceResults (Some []) (Some "timeout"))
          (fun s => LocalCompression.compressForInference s MAX_INPUT_LENGTH).

Lemma slow_verifier_input_is_short_witness :
  exists new,
    log (snd (ultraSpeedCheck local_world sample_claim empty_state)) = log empty_state ++ new
    /\ In (CallVerifier FULL "Claude-Sonnet" sample_claim) new.
Proof.
  destruct (slow_verifier_input_is_short local_world sample_claim empty_state _ _
              (fun s => eq_refl) (surjective_pairing _)) as [new [Hlog _]].
  exists new. split; [exact Hlog|].
  cbn [log empty_state app] in Hlog. rewrite <- Hlog. vm_compute. tauto.
Defined.

End VerifierInputLaws.
